(** * Adobe-Design-Defenders backend: a shallow embedding and its properties

    The development follows [backend/main.py], [backend/compliance.py]
    and the first steps of [backend/image_generator.py].

    Conventions of the embedding.
    - Python [str] is [string] (a byte string); [lower], [upper] and
      [strip] act on the ASCII range and leave every other byte alone.
    - Python [int] is [Z]; list lengths and loop indices are [nat].
    - Python [float] quantities (the feature threshold, the reported
      percentages) are exact rationals [Q]; where the rounding of one
      float operation decides a result, as for the size of the popular
      group, the operation is the binary64 one of the Standard Library's
      [SpecFloat] (module [Binary64]).  The instants and durations of
      the rate limiter are integers counted in microseconds, the
      resolution of [datetime].
    - A [dict] is an association list in insertion order.
    - External calls (the vision model, the clock, the file system) are
      inputs of the functions that use them; their effects are returned
      as explicit logs or as the next state. *)

From Stdlib Require Import ZArith QArith Qabs List String Ascii Bool Lia.
From Stdlib Require Import Permutation Sorted DecimalString SpecFloat.

#[local] Set Warnings "-register-all".
Import ListNotations.

Open Scope string_scope.
Open Scope list_scope.
Open Scope Z_scope.

(* ================================================================== *)
(** * Part I: the program                                               *)
(* ================================================================== *)

(** ** Strings *)

Module Str.

Definition is_upper (c : ascii) : bool :=
  ((65 <=? nat_of_ascii c) && (nat_of_ascii c <=? 90))%nat.

Definition is_lower (c : ascii) : bool :=
  ((97 <=? nat_of_ascii c) && (nat_of_ascii c <=? 122))%nat.

Definition lower_char (c : ascii) : ascii :=
  if is_upper c then ascii_of_nat (nat_of_ascii c + 32) else c.

Definition upper_char (c : ascii) : ascii :=
  if is_lower c then ascii_of_nat (nat_of_ascii c - 32) else c.

Fixpoint map_chars (f : ascii -> ascii) (s : string) : string :=
  match s with
  | EmptyString => EmptyString
  | String c s' => String (f c) (map_chars f s')
  end.

(** [s.lower()] and [s.upper()] *)
Definition lower : string -> string := map_chars lower_char.
Definition upper : string -> string := map_chars upper_char.

(** [needle in s] *)
Fixpoint contains (needle s : string) : bool :=
  prefix needle s ||
  match s with
  | EmptyString => false
  | String _ s' => contains needle s'
  end.

(** [s[len(p):]] when [s.startswith(p)] *)
Fixpoint strip_prefix (p s : string) : option string :=
  match p with
  | EmptyString => Some s
  | String a p' =>
      match s with
      | EmptyString => None
      | String b s' => if Ascii.eqb a b then strip_prefix p' s' else None
      end
  end.

(** The ASCII characters for which [str.isspace] holds. *)
Definition is_space (c : ascii) : bool :=
  let n := nat_of_ascii c in
  ((n =? 32) || ((9 <=? n) && (n <=? 13)) || ((28 <=? n) && (n <=? 31)))%nat.

Fixpoint lstrip (s : string) : string :=
  match s with
  | EmptyString => EmptyString
  | String c s' => if is_space c then lstrip s' else s
  end.

Fixpoint rstrip (s : string) : string :=
  match s with
  | EmptyString => EmptyString
  | String c s' =>
      match rstrip s' with
      | EmptyString => if is_space c then EmptyString else String c EmptyString
      | r => String c r
      end
  end.

(** [s.strip()] *)
Definition strip (s : string) : string := rstrip (lstrip s).

(** [s.split('\n')] *)
Fixpoint split_lines (s : string) : list string :=
  match s with
  | EmptyString => [EmptyString]
  | String c s' =>
      if Ascii.eqb c "010"%char then EmptyString :: split_lines s'
      else match split_lines s' with
           | [] => [String c EmptyString]
           | l :: ls => String c l :: ls
           end
  end.

(** [sep.join(parts)] *)
Definition join (sep : string) (parts : list string) : string :=
  String.concat sep parts.

(** [not s] for a string *)
Definition is_empty (s : string) : bool :=
  match s with EmptyString => true | _ => false end.

End Str.

(** ** Python containers *)

Module Py.

(** [sorted(l, key=key, reverse=True)]: descending by key, and stable,
    so elements with equal keys keep the order of the input. *)
Fixpoint insert_desc {A : Type} (key : A -> Z) (x : A) (l : list A) : list A :=
  match l with
  | [] => [x]
  | y :: l' => if key y <=? key x then x :: l else y :: insert_desc key x l'
  end.

Fixpoint sorted_desc {A : Type} (key : A -> Z) (l : list A) : list A :=
  match l with
  | [] => []
  | x :: l' => insert_desc key x (sorted_desc key l')
  end.

(** [int(x)] for a real [x]: truncation toward zero. *)
Definition int_of_Q (x : Q) : Z := Z.quot (Qnum x) (Zpos (Qden x)).

(** Slices [l[:k]] and [l[k:]] for an index [k >= 0]. *)
Definition slice_to {A : Type} (k : Z) (l : list A) : list A := firstn (Z.to_nat k) l.
Definition slice_from {A : Type} (k : Z) (l : list A) : list A := skipn (Z.to_nat k) l.

(** Insertion-ordered dictionaries with string keys. *)
Definition dict (V : Type) : Type := list (string * V).

Fixpoint dict_get {V : Type} (k : string) (d : dict V) : option V :=
  match d with
  | [] => None
  | (k', v) :: d' => if String.eqb k k' then Some v else dict_get k d'
  end.

Definition dict_mem {V : Type} (k : string) (d : dict V) : bool :=
  match dict_get k d with Some _ => true | None => false end.

(** [d[k] = v]: an existing key keeps its position, a new one goes last. *)
Fixpoint dict_set {V : Type} (k : string) (v : V) (d : dict V) : dict V :=
  match d with
  | [] => [(k, v)]
  | (k', v') :: d' =>
      if String.eqb k k' then (k, v) :: d' else (k', v') :: dict_set k v d'
  end.

Definition keys {V : Type} (d : dict V) : list string := map fst d.

End Py.

(** ** [PostData] and [ImageFeatureAnalyzer.categorize_posts_by_popularity] *)

Record PostData : Type := mkPost { image_path : string; likes : Z }.

(** With the percentage an exact rational and the product exact.  The
    rounding of the product, which can move the index by one (50 posts at
    0.58 give 28, not 29), is in [Binary64] below; this form serves where
    the index plays no part or only its comparison with 1 and with the
    number of posts does. *)
Definition split_index (n : nat) (top_percentage : Q) : Z :=
  Z.max 1 (Py.int_of_Q (inject_Z (Z.of_nat n) * top_percentage)).

Definition categorize_posts_by_popularity
    (posts : list PostData) (top_percentage : Q) : list PostData * list PostData :=
  let sorted_posts := Py.sorted_desc likes posts in
  let k := split_index (List.length sorted_posts) top_percentage in
  (Py.slice_to k sorted_posts, Py.slice_from k sorted_posts).

(** ** The same in binary64: [len(sorted_posts) * top_percentage] is a
    product of two floats, rounded to the nearest double before [int()]
    truncates it *)

Module Binary64.

Definition prec : Z := 53.
Definition emax : Z := 1024.

(** A Python [float]. *)
Definition float : Type := spec_float.

(** [float(n)] for an integer [n]: the nearest double, ties to even
    (infinite beyond the range, where Python raises). *)
Definition of_int (n : Z) : float := binary_normalize prec emax n 0 false.

Definition mul : float -> float -> float := SFmul prec emax.
Definition div : float -> float -> float := SFdiv prec emax.

(** The float that a decimal literal of value [num / den] denotes, for
    integers that are doubles themselves: the nearest double to the
    quotient.  [literal 58 100] is Python's [0.58]. *)
Definition literal (num den : Z) : float := div (of_int num) (of_int den).

Definition is_finite (x : float) : bool :=
  match x with
  | S754_zero _ | S754_finite _ _ _ => true
  | S754_infinity _ | S754_nan => false
  end.

(** The exact value of a finite float. *)
Definition value (x : float) : Q :=
  match x with
  | S754_finite s m e =>
      let n := if s then Zneg m else Zpos m in
      match e with
      | Z0 => inject_Z n
      | Zpos q => inject_Z (n * Z.pow_pos 2 q)
      | Zneg q => Qmake n (Pos.pow 2 q)
      end
  | _ => 0%Q
  end.

(** What [int()] raises: [OverflowError] for an infinity, [ValueError]
    for a NaN. *)
Inductive error : Type := OverflowError | ValueError.

(** [int(x)]: truncation toward zero. *)
Definition int (x : float) : error + Z :=
  match x with
  | S754_zero _ => inr 0
  | S754_finite s m e =>
      let magnitude :=
        match e with
        | Z0 => Zpos m
        | Zpos q => Zpos m * Z.pow_pos 2 q
        | Zneg q => Zpos m / Z.pow_pos 2 q
        end in
      inr (if s then - magnitude else magnitude)
  | S754_infinity _ => inl OverflowError
  | S754_nan => inl ValueError
  end.

(** [max(1, int(n * top_percentage))]; the [int] [n] is converted to a
    float first, which raises [OverflowError] when it is out of range. *)
Definition split_index (n : nat) (top_percentage : float) : error + Z :=
  let length := of_int (Z.of_nat n) in
  if is_finite length then
    match int (mul length top_percentage) with
    | inl e => inl e
    | inr i => inr (Z.max 1 i)
    end
  else inl OverflowError.

Definition categorize_posts_by_popularity
    (posts : list PostData) (top_percentage : float)
  : error + list PostData * list PostData :=
  let sorted_posts := Py.sorted_desc likes posts in
  match split_index (List.length sorted_posts) top_percentage with
  | inl e => inl e
  | inr k => inr (Py.slice_to k sorted_posts, Py.slice_from k sorted_posts)
  end.

End Binary64.

(** ** [RateLimiter] *)

Module RateLimiter.

(** Durations, in microseconds. *)
Definition second : Z := 1000000.
Definition minute : Z := 60 * second.

Record t : Type := mk {
  max_requests : Z;
  min_delay : Z;
  request_times : list Z;
  last_request_time : option Z
}.

(** [RateLimiter(max_requests_per_minute, min_delay_seconds)], the
    delay being given in microseconds. *)
Definition init (max_requests_per_minute min_delay : Z) : t :=
  mk max_requests_per_minute min_delay [] None.

(** What the environment decides about one call: how long after the
    previous return the call is made, and by how much each of its two
    [time.sleep] calls overshoots the duration asked for. *)
Record timing : Type := mkTiming { idle : Z; late1 : Z; late2 : Z }.

Definition timing_ok (c : timing) : Prop := 0 <= idle c /\ 0 <= late1 c /\ 0 <= late2 c.

Inductive outcome : Type :=
| Returned (clock : Z) (rl : t)
| IndexError (clock : Z) (rl : t).

(** The first block of [wait_if_needed], started when the clock shows
    [clock + idle c]: the value of [now] once the minimum delay since the
    last request has passed.  The clock advances only while the call
    sleeps. *)
Definition after_min_delay (c : timing) (clock : Z) (rl : t) : Z :=
  let now := clock + idle c in
  match last_request_time rl with
  | Some last =>
      let time_since_last := now - last in
      if time_since_last <? min_delay rl then
        let wait_time := min_delay rl - time_since_last in
        now + wait_time + late1 c
      else now
  | None => now
  end.

(** [wait_if_needed] *)
Definition wait_if_needed (c : timing) (clock : Z) (rl : t) : outcome :=
  let now := after_min_delay c clock rl in
  let times := filter (fun t => now - t <? minute) (request_times rl) in
  let rl1 := mk (max_requests rl) (min_delay rl) times (last_request_time rl) in
  if max_requests rl <=? Z.of_nat (List.length times) then
    match times with
    | [] => IndexError now rl1
    | oldest :: _ =>
        let wait_time := 61 * second - (now - oldest) in
        if 0 <? wait_time then
          let woke := now + wait_time + late2 c in
          Returned woke (mk (max_requests rl) (min_delay rl) [woke] (Some woke))
        else
          Returned now (mk (max_requests rl) (min_delay rl) (times ++ [now]) (Some now))
    end
  else
    Returned now (mk (max_requests rl) (min_delay rl) (times ++ [now]) (Some now)).

(** A sequence of calls on one instance.  The result lists, for every
    call that returned, the instant of its return (which is the timestamp
    it recorded) and the state it left. *)
Fixpoint run (calls : list timing) (clock : Z) (rl : t) : list (Z * t) :=
  match calls with
  | [] => []
  | c :: rest =>
      match wait_if_needed c clock rl with
      | Returned clock' rl' => (clock', rl') :: run rest clock' rl'
      | IndexError clock' rl' => run rest clock' rl'
      end
  end.

(** The timestamps of [recorded] that lie less than a minute before [now]. *)
Definition in_window (now : Z) (recorded : list Z) : list Z :=
  filter (fun t => now - t <? minute) recorded.

(** Every non-empty prefix of a list, shortest first. *)
Fixpoint prefixes {A : Type} (l : list A) : list (list A) :=
  match l with
  | [] => []
  | x :: l' => [x] :: map (cons x) (prefixes l')
  end.

(** For each returning call, the number of timestamps recorded so far
    (its own included) that fall in the minute before its return. *)
Definition window_counts (returns : list Z) : list nat :=
  map (fun pre => List.length (in_window (last pre 0) pre)) (prefixes returns).

End RateLimiter.

(** ** [ImageFeatureAnalyzer._retry_with_backoff] *)

Module Retry.

(** What one invocation of the wrapped function does: it returns a
    value, or raises an [Exception] whose [str] is [error_str]. *)
Inductive outcome (V : Type) : Type :=
| Returns (v : V)
| Raises (error_str : string).
Arguments Returns {V} v.
Arguments Raises {V} error_str.

(** The calls the loop makes, in order: [rate_limiter.wait_if_needed()]
    (the analyzer's limiter is [RateLimiter(5, 12.0)], on which the call
    always returns), [func(...)] and [time.sleep(delay)]. *)
Inductive action : Type :=
| WaitIfNeeded
| CallFunc (attempt : nat)
| Sleep (delay : Z).

Definition rate_limit_markers : list string :=
  ["429"; "resource_exhausted"; "quota"; "rate limit";
   "too many requests"; "limit exceeded"].

Definition is_rate_limit (e : string) : bool :=
  let error_str := Str.lower e in
  existsb (fun err => Str.contains err error_str) rate_limit_markers.

(** The body of [for attempt in range(max_retries)], over the attempts
    still to run.  [func k] is what the [k]-th invocation of the wrapped
    function does.  [base_delay] is a number of seconds for [time.sleep],
    which takes no negative duration: a natural number.  [None] is the
    Python [None] the method returns when it gives up. *)
Fixpoint retry_loop {V : Type} (max_retries : Z) (base_delay : N)
    (func : nat -> outcome V) (attempts : list nat) : option V * list action :=
  match attempts with
  | [] => (None, [])
  | attempt :: rest =>
      match func attempt with
      | Returns result => (Some result, [WaitIfNeeded; CallFunc attempt])
      | Raises e =>
          if is_rate_limit e then
            if Z.of_nat attempt <? max_retries - 1 then
              let delay := Z.of_N base_delay * 3 ^ Z.of_nat attempt in
              let (r, acts) := retry_loop max_retries base_delay func rest in
              (r, WaitIfNeeded :: CallFunc attempt :: Sleep delay :: acts)
            else (None, [WaitIfNeeded; CallFunc attempt])
          else (None, [WaitIfNeeded; CallFunc attempt])
      end
  end.

Definition _retry_with_backoff {V : Type} (max_retries : Z) (base_delay : N)
    (func : nat -> outcome V) : option V * list action :=
  retry_loop max_retries base_delay func (seq 0 (Z.to_nat max_retries)).

End Retry.

(** ** [ImageFeatureAnalyzer.analyze_posts_batch] *)

Module Batch.

(** The feature dictionary of one image: category to list of phrases. *)
Definition Features : Type := Py.dict (list string).

Record AnalyzedPost : Type := mkAnalyzed { post : PostData; features : Features }.

Record Analyzer : Type := mkAnalyzer { max_retries : Z; base_delay : N }.

(** [world i path k]: what the [k]-th request for the image at [path]
    does during the [i]-th analysis of the batch ([_make_request]: read
    the file, call the model, parse the JSON answer). *)
Definition World : Type := nat -> string -> nat -> Retry.outcome Features.

Inductive event : Type :=
| Analyzing (index : nat) (path : string)
| Act (a : Retry.action).

Definition analyze_single_image (self : Analyzer) (make_request : nat -> Retry.outcome Features)
  : option Features * list Retry.action :=
  Retry._retry_with_backoff (max_retries self) (base_delay self) make_request.

(** [if features:] *)
Definition truthy (features : option Features) : bool :=
  match features with
  | Some (_ :: _) => true
  | _ => false
  end.

Fixpoint batch_loop (self : Analyzer) (world : World) (i : nat) (posts : list PostData)
    (results : list AnalyzedPost) (log : list event) : list AnalyzedPost * list event :=
  match posts with
  | [] => (results, log)
  | p :: rest =>
      let (features, acts) := analyze_single_image self (world i (image_path p)) in
      let log := log ++ Analyzing i (image_path p) :: map Act acts in
      match features with
      | Some f =>
          if truthy features
          then batch_loop self world (S i) rest (results ++ [mkAnalyzed p f]) log
          else batch_loop self world (S i) rest results log
      | None => batch_loop self world (S i) rest results log
      end
  end.

Definition analyze_posts_batch (self : Analyzer) (world : World) (posts : list PostData)
  : list AnalyzedPost * list event :=
  batch_loop self world 0 posts [] [].

Definition is_analyzing (e : event) : bool :=
  match e with Analyzing _ _ => true | Act _ => false end.

End Batch.

(** ** [ImageFeatureAnalyzer.find_common_features] *)

Module Common.

Record CommonFeature : Type := mkCommon {
  feature : string;
  frequency : Z;
  percentage : Q
}.

(** [str(item).lower().strip()]; the items are strings already. *)
Definition normalize (item : string) : string := Str.strip (Str.lower item).

(** [d[k]] for a key that is present. *)
Definition item_of {V : Type} (k : string) (d : Py.dict V) (missing : V) : V :=
  match Py.dict_get k d with Some v => v | None => missing end.

(** The body of [for item in items]. *)
Definition count_item (counts : Py.dict Z) (item : string) : Py.dict Z :=
  let item_lower := normalize item in
  let counts :=
    if Py.dict_mem item_lower counts then counts else Py.dict_set item_lower 0 counts in
  Py.dict_set item_lower (item_of item_lower counts 0 + 1) counts.

(** The body of [for category, items in features.items()]. *)
Definition count_category (feature_frequency : Py.dict (Py.dict Z))
    (entry : string * list string) : Py.dict (Py.dict Z) :=
  let (category, items) := entry in
  let feature_frequency :=
    if Py.dict_mem category feature_frequency then feature_frequency
    else Py.dict_set category [] feature_frequency in
  Py.dict_set category
    (fold_left count_item items (item_of category feature_frequency []))
    feature_frequency.

Definition count_post (feature_frequency : Py.dict (Py.dict Z))
    (post_data : Batch.AnalyzedPost) : Py.dict (Py.dict Z) :=
  fold_left count_category (Batch.features post_data) feature_frequency.

Definition feature_frequency (analyzed_posts : list Batch.AnalyzedPost)
  : Py.dict (Py.dict Z) :=
  fold_left count_post analyzed_posts [].

(** Rounding to the nearest integer, ties to the even one. *)
Definition round_half_even (x : Q) : Z :=
  let n := Qnum x in
  let d := Zpos (Qden x) in
  let q := n / d in
  let r := n mod d in
  if 2 * r <? d then q
  else if d <? 2 * r then q + 1
  else if Z.even q then q else q + 1.

(** [round(x, 1)] of the exact quotient.  Python rounds the double it
    has computed, which can fall on the other side of a tie that the
    exact quotient hits (23 of 80 posts: 28.75 exactly, 28.7 in Python);
    both give one decimal within 0.05 of the exact quotient, which is all
    that is stated of a percentage below. *)
Definition round1 (x : Q) : Q := (round_half_even (x * 10)%Q # 10)%Q.

(** The inner loop of the second phase, followed by the sort. *)
Definition common_in (total_posts : nat) (threshold : Q) (items : Py.dict Z)
  : list CommonFeature :=
  Py.sorted_desc frequency
    (flat_map
       (fun entry : string * Z =>
          let (item, count) := entry in
          let percentage := (inject_Z count / inject_Z (Z.of_nat total_posts))%Q in
          if Qle_bool threshold percentage
          then [mkCommon item count (round1 (percentage * 100)%Q)]
          else [])
       items).

Definition find_common_features (analyzed_posts : list Batch.AnalyzedPost)
    (threshold : Q) : Py.dict (list CommonFeature) :=
  match analyzed_posts with
  | [] => []
  | _ :: _ =>
      let total_posts := List.length analyzed_posts in
      map (fun entry : string * Py.dict Z =>
             let (category, items) := entry in
             (category, common_in total_posts threshold items))
          (feature_frequency analyzed_posts)
  end.

(** Vocabulary of the specification: how often the normalized string
    [s] is listed under [category], in one post and over a list of posts,
    and how many posts list it at all. *)
Definition listed (s : string) (items : list string) : Z :=
  Z.of_nat (List.length (filter (fun item => String.eqb (normalize item) s) items)).

Definition occurrences_in_post (category s : string) (p : Batch.AnalyzedPost) : Z :=
  fold_right Z.add 0
    (map (fun entry : string * list string =>
            if String.eqb (fst entry) category then listed s (snd entry) else 0)
         (Batch.features p)).

Definition occurrences (category s : string) (posts : list Batch.AnalyzedPost) : Z :=
  fold_right Z.add 0 (map (occurrences_in_post category s) posts).

Definition posts_containing (category s : string) (posts : list Batch.AnalyzedPost) : Z :=
  Z.of_nat (List.length (filter (fun p => 0 <? occurrences_in_post category s p) posts)).

Definition categories (posts : list Batch.AnalyzedPost) : list string :=
  flat_map (fun p => Py.keys (Batch.features p)) posts.

End Common.

(** ** HTTP errors *)

Module Http.

Inductive exn : Type :=
| HTTPException (status_code : Z) (detail : string)
| Error (message : string).

Definition decimal (n : Z) : string := NilZero.string_of_int (Z.to_int n).

(** [str(e)]; for an [HTTPException] this is Starlette's
    ["{status_code}: {detail}"]. *)
Definition str (e : exn) : string :=
  match e with
  | HTTPException status_code detail => (decimal status_code ++ ": " ++ detail)%string
  | Error message => message
  end.

(** How [with open(path, 'w') as f: ...] can fail: in [open], before the
    file is touched, or after it, in the write or the close, when the
    file has been created or emptied already. *)
Inductive write_failure : Type :=
| OpenFails (e : exn)
| WriteFails (e : exn).

End Http.

(** ** [extract_code_from_response] and [/api/generate-design] *)

Module CodeBlocks.

Definition nl : string := String "010"%char EmptyString.
Definition fence : string := "```".

Definition language_tags : list string :=
  ["javascript"; "js"; "tsx"; "jsx"; "typescript"; "ts"].

(** [(.*?)```] with [re.DOTALL]: the text before the first fence, and
    the number of characters consumed, fence included. *)
Fixpoint until_fence (s : string) : option (string * nat) :=
  match Str.strip_prefix fence s with
  | Some _ => Some (EmptyString, 3%nat)
  | None =>
      match s with
      | EmptyString => None
      | String c s' =>
          match until_fence s' with
          | Some (body, n) => Some (String c body, S n)
          | None => None
          end
      end
  end.

(** A match of [opening(.*?)```] at the start of [s]: group 1 and the
    length of the match. *)
Definition match_block (opening s : string) : option (string * nat) :=
  match Str.strip_prefix opening s with
  | Some rest =>
      match until_fence rest with
      | Some (body, n) => Some (body, (String.length opening + n)%nat)
      | None => None
      end
  | None => None
  end.

Fixpoint first_match (openings : list string) (s : string) : option (string * nat) :=
  match openings with
  | [] => None
  | o :: rest =>
      match match_block o s with
      | Some m => Some m
      | None => first_match rest s
      end
  end.

(** The first pattern, with its alternatives tried in order. *)
Definition match_tagged (s : string) : option (string * nat) :=
  first_match (map (fun tag => (fence ++ tag ++ nl)%string) language_tags) s.

(** The second pattern. *)
Definition match_bare (s : string) : option (string * nat) :=
  match_block (fence ++ nl)%string s.

(** [re.findall]: matches are sought left to right and do not overlap;
    [skip] characters of the current match are still to be passed. *)
Fixpoint findall_from (match_at : string -> option (string * nat))
    (skip : nat) (s : string) : list string :=
  match skip with
  | S k =>
      match s with
      | EmptyString => []
      | String _ s' => findall_from match_at k s'
      end
  | O =>
      match match_at s with
      | Some (group, len) =>
          group :: match s with
                   | EmptyString => []
                   | String _ s' => findall_from match_at (len - 1) s'
                   end
      | None =>
          match s with
          | EmptyString => []
          | String _ s' => findall_from match_at 0 s'
          end
      end
  end.

Definition findall (match_at : string -> option (string * nat)) (s : string) : list string :=
  findall_from match_at 0 s.

Definition extract_code_from_response (text : option string) : option string :=
  match text with
  | None => None
  | Some t =>
      if Str.is_empty t then None
      else
        let code_blocks := findall match_tagged t ++ findall match_bare t in
        match code_blocks with
        | [] => None
        | _ :: _ => Some (Str.join (nl ++ nl)%string code_blocks)
        end
  end.

Record DesignResponse : Type := mkDesign {
  success : bool;
  message : string;
  code : string;
  prompt : string
}.

(** What the route does to the disk.  [Truncate path]: the file was
    opened with mode ['w'], which creates it or empties it, and the write
    did not complete: what it held is lost.  [WriteFile path content]:
    the file was opened and holds [content]. *)
Inductive effect : Type :=
| WriteFile (path content : string)
| Truncate (path : string).


(** [not x] for an optional string. *)
Definition falsy (x : option string) : bool :=
  match x with
  | None => true
  | Some s => Str.is_empty s
  end.

(** The [try] block of [generate_design].  [model] is what
    [generate_content] does: it raises, or answers with [response.text].
    [write_error] is the failure of writing src/code.js, if it fails. *)
Definition generate_design_try (model : Http.exn + option string)
    (write_error : option Http.write_failure) (user_prompt : string)
  : (Http.exn + DesignResponse) * list effect :=
  match model with
  | inl e => (inl e, [])
  | inr response_text =>
      if falsy response_text
      then (inl (Http.HTTPException 500 "No response from AI"), [])
      else
        match extract_code_from_response response_text with
        | Some (String c code') =>
            let code := String c code' in
            match write_error with
            | Some (Http.OpenFails e) => (inl e, [])
            | Some (Http.WriteFails e) => (inl e, [Truncate "src/code.js"])
            | None =>
                (inr (mkDesign true "Design code generated and saved to src/code.js"
                        code user_prompt),
                 [WriteFile "src/code.js" code])
            end
        | _ => (inl (Http.HTTPException 500 "No code block found in AI response"), [])
        end
  end.

(** The whole endpoint: [except Exception as e] turns whatever the
    [try] block raised into a new [HTTPException]. *)
Definition generate_design (model : Http.exn + option string)
    (write_error : option Http.write_failure) (user_prompt : string)
  : (Http.exn + DesignResponse) * list effect :=
  match generate_design_try model write_error user_prompt with
  | (inl e, log) => (inl (Http.HTTPException 500 (Http.str e)), log)
  | (inr r, log) => (inr r, log)
  end.

End CodeBlocks.

(** ** Uploaded files: the newest file matching a glob *)

Module Storage.

Record file : Type := mkFile { name : string; st_mtime : Z }.

(** [fnmatch] for patterns made of literal characters and [*]. *)
Fixpoint glob_match (pattern : string) : string -> bool :=
  match pattern with
  | EmptyString => fun s => Str.is_empty s
  | String c p =>
      if Ascii.eqb c "*"%char then
        fix star (s : string) : bool :=
          glob_match p s ||
          match s with
          | EmptyString => false
          | String _ s' => star s'
          end
      else
        fun s =>
          match s with
          | EmptyString => false
          | String d s' => Ascii.eqb c d && glob_match p s'
          end
  end.

(** [list(dir.glob(pattern))], in the order of the directory listing. *)
Definition glob (pattern : string) (dir : list file) : list file :=
  filter (fun f => glob_match pattern (name f)) dir.

(** [max(files, key=lambda p: p.stat().st_mtime)] on a non-empty list:
    the first file among those with the greatest key. *)
Definition max_mtime (first : file) (rest : list file) : file :=
  fold_left (fun best f => if st_mtime best <? st_mtime f then f else best) rest first.

Definition newest (files : list file) : option file :=
  match files with
  | [] => None
  | f :: rest => Some (max_mtime f rest)
  end.

(** [analyze_past_posts], up to the choice of the CSV file;
    [brand_images_dir] is [None] when the folder does not exist. *)
Definition analyze_past_posts_csv (brand_images_dir : option (list file))
  : Http.exn + file :=
  match brand_images_dir with
  | None => inl (Http.HTTPException 404 "Brand images folder not found")
  | Some dir =>
      match newest (glob "*.csv" dir) with
      | None => inl (Http.HTTPException 404
          "No CSV file found in uploads/brand_images. Please upload a CSV with 'image' and 'likes' columns.")
      | Some csv_file => inr csv_file
      end
  end.

(** [compliance_check], the choice of the guidelines file; [None]
    stands for the "No brand guidelines found" answer. *)
Definition compliance_check_guideline (uploads_dir : list file) : option file :=
  newest (glob "brand_guidelines*" uploads_dir).

(** [generate_design_from_text], the choice of the guidelines PDF: its
    step 2, reached once analyze.json has been found and read (the whole
    of steps 1 and 2 is [ImageGenerator.generate_design_from_text]). *)
Definition generate_design_brand_pdf (uploads_dir : list file) : Http.exn + file :=
  match newest (glob "brand_guidelines_*.pdf" uploads_dir) with
  | None => inl (Http.HTTPException 404
      "No brand guidelines PDF found. Please upload brand guidelines first.")
  | Some brand_pdf => inr brand_pdf
  end.

End Storage.

(** ** [/post]: the LinkedIn route *)

Module LinkedIn.

Inductive json : Type :=
| JNull
| JBool (b : bool)
| JNum (n : Z)
| JStr (s : string)
| JArr (items : list json)
| JObj (members : list (string * json)).

(** [bool(v)] for a value that [config.get] returned. *)
Definition truthy (v : option json) : bool :=
  match v with
  | None | Some JNull => false
  | Some (JBool b) => b
  | Some (JNum n) => negb (n =? 0)
  | Some (JStr s) => negb (Str.is_empty s)
  | Some (JArr items) => match items with [] => false | _ => true end
  | Some (JObj members) => match members with [] => false | _ => true end
  end.

(** [config_file] is the parsed content of config.json, [None] when the
    file does not exist. *)
Definition load_config (config_file : option (Py.dict json)) : Py.dict json :=
  match config_file with
  | None => []
  | Some config => config
  end.

Definition get_access_token (config_file : option (Py.dict json)) : option json :=
  Py.dict_get "access_token" (load_config config_file).

Inductive effect : Type :=
| ApiCall (url : string)
| FileWrite (path : string).

Definition not_authenticated : Http.exn :=
  Http.HTTPException 401 "Not authenticated. Please visit /auth/login first".

(** [post_linkedin].  [publish] is the rest of the route after the
    token check: the calls to the LinkedIn API and the temporary file. *)
Definition post_linkedin {R Image : Type}
    (publish : json -> string -> Image -> (Http.exn + R) * list effect)
    (config_file : option (Py.dict json)) (text : string) (image : Image)
  : (Http.exn + R) * list effect :=
  let access_token := get_access_token config_file in
  match access_token with
  | Some token =>
      if truthy access_token then publish token text image
      else (inl not_authenticated, [])
  | None => (inl not_authenticated, [])
  end.

End LinkedIn.

(** ** [BrandComplianceChecker._parse_response] and [/compliance-check] *)

Module Compliance.

Record ParsedResponse : Type := mkParsed {
  raw_analysis : string;
  compliant : bool;
  status : string
}.

Definition is_status_line (line : string) : bool :=
  Str.contains "COMPLIANCE STATUS:" (Str.upper line).

(** The [for line in ...] loop with its [break]. *)
Fixpoint find_status_line (lines : list string) : string :=
  match lines with
  | [] => EmptyString
  | line :: rest =>
      if is_status_line line then Str.upper line else find_status_line rest
  end.

Definition _parse_response (response_text : string) : ParsedResponse :=
  let status_line := find_status_line (Str.split_lines response_text) in
  let compliant :=
    Str.contains "COMPLIANT" status_line
    && negb (Str.contains "NON-COMPLIANT" status_line) in
  mkParsed response_text compliant status_line.

(** What [check_compliance] returns: the dict with an "error" key, or the
    parsed answer. *)
Inductive AiResult : Type :=
| AiError (error : string)
| AiParsed (result : ParsedResponse).

(** [check_compliance].  [model] is what [generate_content] and the
    access to [response.text] do: raise, or give the text.  Without
    guidelines the method raises before its [try] block. *)
Definition check_compliance (brand_guidelines : string) (model : Http.exn + string)
  : Http.exn + AiResult :=
  if Str.is_empty brand_guidelines
  then inl (Http.Error "Brand guidelines not loaded.")
  else
    match model with
    | inl e => inr (AiError ("Compliance check failed: " ++ Http.str e)%string)
    | inr response_text => inr (AiParsed (_parse_response response_text))
    end.

(** The end of [compliance_check], from the AI check on: the status it
    reports, or the error it raises through its [except Exception]. *)
Definition compliance_check_status (brand_guidelines : string)
    (model : Http.exn + string) : Http.exn + string :=
  match check_compliance brand_guidelines model with
  | inl e => inl (Http.HTTPException 500 (Http.str e))
  | inr (AiError error) =>
      inl (Http.HTTPException 500 (Http.str (Http.HTTPException 500 error)))
  | inr (AiParsed ai_result) =>
      inr (if compliant ai_result then "passed" else "failed")
  end.

End Compliance.

(** ** Reading a log of the retry loop *)

Module Trace.

Definition is_sleep (a : Retry.action) : bool :=
  match a with Retry.Sleep _ => true | _ => false end.

Definition is_call (a : Retry.action) : bool :=
  match a with Retry.CallFunc _ => true | _ => false end.

(** The log without its sleeps. *)
Definition requests (acts : list Retry.action) : list Retry.action :=
  filter (fun a => negb (is_sleep a)) acts.

(** The number of invocations of the wrapped function. *)
Definition calls (acts : list Retry.action) : nat :=
  List.length (filter is_call acts).

(** The seconds asked of [time.sleep] in all. *)
Definition slept (acts : list Retry.action) : Z :=
  fold_right Z.add 0
    (map (fun a => match a with Retry.Sleep delay => delay | _ => 0 end) acts).

End Trace.

(** ** The model's answer in [analyze_single_image] *)

Module JsonReply.

(** [s[:-len(suffix)]] when [s.endswith(suffix)] *)
Fixpoint strip_suffix (suffix s : string) : option string :=
  if String.eqb s suffix then Some EmptyString
  else
    match s with
    | EmptyString => None
    | String c s' =>
        match strip_suffix suffix s' with
        | Some r => Some (String c r)
        | None => None
        end
    end.

(** The text handed to [json.loads] in [_make_request]: the answer with
    its surrounding whitespace and Markdown fence removed. *)
Definition clean_response_text (text : string) : string :=
  let response_text := Str.strip text in
  let response_text :=
    match Str.strip_prefix "```json" response_text with
    | Some rest => rest
    | None => response_text
    end in
  let response_text :=
    match Str.strip_prefix "```" response_text with
    | Some rest => rest
    | None => response_text
    end in
  let response_text :=
    match strip_suffix "```" response_text with
    | Some rest => rest
    | None => response_text
    end in
  Str.strip response_text.

End JsonReply.

(** ** [generate_insights_report] and [run_complete_analysis] *)

Module Analysis.

Definition unable : string := "Unable to generate insights due to API limitations.".

(** [generate_insights_report]; a request returns [response.text],
    which may be [None]. *)
Definition generate_insights_report (self : Batch.Analyzer)
    (make_request : nat -> Retry.outcome (option string))
  : string * list Retry.action :=
  let (result, acts) :=
    Retry._retry_with_backoff (Batch.max_retries self) (Batch.base_delay self)
      make_request in
  (match result with
   | Some (Some (String c s)) => String c s
   | _ => unable
   end, acts).

Record Group : Type := mkGroup {
  count : nat;
  analyzed : nat;
  posts : list PostData;
  common_features : Py.dict (list Common.CommonFeature)
}.

Record Metadata : Type := mkMetadata {
  top_percentage : Q;
  feature_threshold : Q;
  total_posts : nat;
  timestamp : string
}.

Record Report : Type := mkReport {
  popular_posts : Group;
  less_popular_posts : Group;
  insights : string;
  metadata : Metadata
}.

(** [run_complete_analysis].  Each of the two batches and the insights
    request meets the outside world on its own; [now] is
    [datetime.now().isoformat()]. *)
Definition run_complete_analysis (self : Batch.Analyzer)
    (world_popular world_less : Batch.World)
    (insights_request : nat -> Retry.outcome (option string)) (now : string)
    (all_posts : list PostData) (top_percentage feature_threshold : Q)
  : Report * list Batch.event :=
  let (popular, less_popular) :=
    categorize_posts_by_popularity all_posts top_percentage in
  let (popular_analyzed, log1) := Batch.analyze_posts_batch self world_popular popular in
  let (less_popular_analyzed, log2) :=
    Batch.analyze_posts_batch self world_less less_popular in
  let popular_common := Common.find_common_features popular_analyzed feature_threshold in
  let less_popular_common :=
    Common.find_common_features less_popular_analyzed feature_threshold in
  let (insights, acts) := generate_insights_report self insights_request in
  (mkReport
     (mkGroup (List.length popular) (List.length popular_analyzed) popular popular_common)
     (mkGroup (List.length less_popular) (List.length less_popular_analyzed)
        less_popular less_popular_common)
     insights
     (mkMetadata top_percentage feature_threshold (List.length all_posts) now),
   log1 ++ log2 ++ map Batch.Act acts).

(** The image paths of a log, in the order their analyses started. *)
Definition analysed_paths (log : list Batch.event) : list string :=
  flat_map (fun e => match e with
                     | Batch.Analyzing _ path => [path]
                     | Batch.Act _ => []
                     end) log.

(** A list without its repetitions, each element where it came first. *)
Definition first_seen (l : list string) : list string :=
  fold_left (fun seen k => if existsb (String.eqb k) seen then seen else seen ++ [k]) l [].

End Analysis.

(** ** More on strings *)

Module Text.

(** [x in s] for a character [x] *)
Fixpoint has_char (x : ascii) (s : string) : bool :=
  match s with
  | EmptyString => false
  | String c s' => Ascii.eqb c x || has_char x s'
  end.

Fixpoint all_chars (ok : ascii -> bool) (s : string) : bool :=
  match s with
  | EmptyString => true
  | String c s' => ok c && all_chars ok s'
  end.

(** The characters of a [strftime("%Y%m%d_%H%M%S")] stamp. *)
Definition is_stamp_char (c : ascii) : bool :=
  ((48 <=? nat_of_ascii c) && (nat_of_ascii c <=? 57))%nat || Ascii.eqb c "_"%char.

(** [s[:n]] *)
Fixpoint take (n : nat) (s : string) : string :=
  match n, s with
  | S n', String c s' => String c (take n' s')
  | _, _ => EmptyString
  end.

End Text.

(** ** [pathlib]: the name and the suffix of a POSIX path *)

Module Pathlib.

(** [s.split(sep)] *)
Fixpoint split (sep : ascii) (s : string) : list string :=
  match s with
  | EmptyString => [EmptyString]
  | String c s' =>
      if Ascii.eqb c sep then EmptyString :: split sep s'
      else match split sep s' with
           | [] => [String c EmptyString]
           | part :: parts => String c part :: parts
           end
  end.

(** The components of a path, the root left out: empty components and
    ["."] are dropped when a path is parsed. *)
Definition parts (path : string) : list string :=
  filter (fun part => negb (Str.is_empty part) && negb (String.eqb part "."))
         (split "/" path).

(** [Path(path).name]: the last component, or [''] *)
Definition name (path : string) : string := last (parts path) EmptyString.

(** [s[s.rfind('.'):]] when [s] has a dot *)
Fixpoint from_last_dot (s : string) : option string :=
  match s with
  | EmptyString => None
  | String c s' =>
      match from_last_dot s' with
      | Some t => Some t
      | None => if Ascii.eqb c "." then Some s else None
      end
  end.

(** [Path(path).suffix], as computed up to Python 3.13:
    [i = name.rfind('.')], and [name[i:]] if [0 < i < len(name) - 1],
    [''] otherwise. *)
Definition suffix (path : string) : string :=
  let name := name path in
  match from_last_dot name with
  | Some t =>
      if ((String.length t <? String.length name)
          && (1 <? String.length t))%nat
      then t else EmptyString
  | None => EmptyString
  end.

(** A path that names an entry of the folder it is joined to: one
    component, which is neither ["."] nor [".."]. *)
Definition plain (filename : string) : bool :=
  negb (Text.has_char "/" filename) && negb (Str.is_empty filename)
  && negb (String.eqb filename ".") && negb (String.eqb filename "..").

End Pathlib.

(** ** Uploads: [/brand-guidelines], [/brand-image] and [get_file_type] *)

Module Uploads.

Definition allowed_types : list string :=
  ["application/pdf"; "application/msword";
   "application/vnd.openxmlformats-officedocument.wordprocessingml.document";
   "text/plain"].

(** The names under which the endpoints save what they receive;
    [timestamp] is [datetime.now().strftime("%Y%m%d_%H%M%S")]. *)
Definition guidelines_filename (timestamp file_extension : string) : string :=
  ("brand_guidelines_" ++ timestamp ++ file_extension)%string.

Definition compliance_check_filename (timestamp : string) : string :=
  ("compliance_check_" ++ timestamp ++ ".png")%string.

Definition copyright_check_filename (timestamp : string) : string :=
  ("copyright_check_" ++ timestamp ++ ".png")%string.

(** A directory after [open(dir / name, "wb")] and the write, at time
    [mtime]: a file of that name is replaced, a new one is added. *)
Definition write_file (name : string) (mtime : Z) (dir : list Storage.file)
  : list Storage.file :=
  if existsb (fun f => String.eqb (Storage.name f) name) dir
  then map (fun f => if String.eqb (Storage.name f) name
                     then Storage.mkFile name mtime else f) dir
  else dir ++ [Storage.mkFile name mtime].

(** [upload_brand_guidelines].  [file_extension] is
    [Path(file.filename).suffix]; [write_error] is how saving the file
    fails, if it does: a failure after [open] leaves the file, with a
    part of its content, in the folder.  The result is the saved
    filename, with the uploads directory as the call leaves it. *)
Definition upload_brand_guidelines (content_type : option string)
    (file_extension timestamp : string) (now : Z)
    (write_error : option Http.write_failure)
    (uploads_dir : list Storage.file)
  : (Http.exn + string) * list Storage.file :=
  let allowed :=
    match content_type with
    | Some ct => existsb (String.eqb ct) allowed_types
    | None => false
    end in
  if negb allowed
  then (inl (Http.HTTPException 400 "File must be PDF, DOC, DOCX, or TXT"), uploads_dir)
  else
    let filename := guidelines_filename timestamp file_extension in
    match write_error with
    | Some (Http.OpenFails e) =>
        (inl (Http.HTTPException 500 (Http.str e)), uploads_dir)
    | Some (Http.WriteFails e) =>
        (inl (Http.HTTPException 500 (Http.str e)),
         write_file filename now uploads_dir)
    | None => (inr filename, write_file filename now uploads_dir)
    end.

(** [x and p(x)] for an optional, possibly empty, string *)
Definition holds (content_type : option string) (p : string -> bool) : bool :=
  match content_type with
  | Some ct => negb (Str.is_empty ct) && p ct
  | None => false
  end.

(** [upload_brand_image].  The file is saved under its own name,
    [BRAND_IMAGES_DIR / file.filename].  The second result is the folder
    as the call leaves it, for a name that is an entry of this folder;
    it is [None] for a name that is none (a path with a slash, no name),
    where the file, if it is written, goes elsewhere. *)
Definition upload_brand_image (content_type : option string)
    (filename : string) (now : Z) (write_error : option Http.write_failure)
    (brand_images_dir : list Storage.file)
  : (Http.exn + string) * option (list Storage.file) :=
  let file_extension := Str.lower (Pathlib.suffix filename) in
  let is_image := holds content_type (prefix "image/") in
  let is_csv :=
    String.eqb file_extension ".csv"
    || holds content_type (fun ct => Str.contains "csv" (Str.lower ct)) in
  if negb is_image && negb is_csv
  then (inl (Http.HTTPException 400
               ("File must be an image or CSV. Got content-type: "
                ++ match content_type with Some ct => ct | None => "None" end
                ++ ", extension: " ++ file_extension)%string),
        Some brand_images_dir)
  else
    let written :=
      if Pathlib.plain filename
      then Some (write_file filename now brand_images_dir) else None in
    match write_error with
    | Some (Http.OpenFails e) =>
        (inl (Http.HTTPException 500 (Http.str e)), Some brand_images_dir)
    | Some (Http.WriteFails e) =>
        (inl (Http.HTTPException 500 (Http.str e)), written)
    | None => (inr filename, written)
    end.

Definition get_file_type (filename : string) : string :=
  if Str.contains "compliance_check" filename then "compliance_export"
  else if Str.contains "brand_image" filename then "brand_image"
  else if Str.contains "brand_guidelines" filename then "brand_guidelines"
  else if Str.contains "copyright_check" filename then "copyright_check"
  else "unknown".

End Uploads.

(** ** [generate_design_from_text]: the two files it needs *)

Module ImageGenerator.

Definition analysis_not_found : Http.exn :=
  Http.HTTPException 404
    "analyze.json not found. Please run 'Analyze past posts by AI' first.".

(** [generate_design_from_text], steps 1 and 2: the analysis and the
    guidelines PDF that the later steps work on.  [analysis] is what
    reading and parsing analyze.json does inside [load_analysis_json]: it
    raises, or gives the data. *)
Definition generate_design_from_text {Analysis : Type}
    (uploads_dir : list Storage.file) (analysis : Http.exn + Analysis)
  : Http.exn + Analysis * Storage.file :=
  if negb (existsb (fun f => String.eqb (Storage.name f) "analyze.json") uploads_dir)
  then inl analysis_not_found
  else
    match analysis with
    | inl e => inl (Http.HTTPException 400 ("Invalid JSON file: " ++ Http.str e))
    | inr analysis_data =>
        match Storage.generate_design_brand_pdf uploads_dir with
        | inl e => inl e
        | inr brand_pdf => inr (analysis_data, brand_pdf)
        end
    end.

End ImageGenerator.

(** ** [check_copyright_sources] and the verdict of [/copyright-check] *)

Module Copyright.

Definition COPYRIGHT_SITES : list string :=
  ["shutterstock.com"; "gettyimages.com"; "istockphoto.com";
   "adobe.stock"; "depositphotos.com"; "dreamstime.com";
   "alamy.com"; "123rf.com"; "stocksy.com"; "pond5.com";
   "pixabay.com"; "unsplash.com"; "pexels.com"; "freepik.com";
   "vecteezy.com"; "canva.com"; "envato.com"; "creativemarket.com"].

(** One search result, with [result.get(key, '')] for its three keys. *)
Record SearchResult : Type := mkResult { link : string; source : string; title : string }.

Record Finding : Type := mkFinding {
  position : nat;
  site : string;
  found : SearchResult
}.

Definition site_occurs (r : SearchResult) (s : string) : bool :=
  Str.contains (Str.lower s) (Str.lower (link r))
  || Str.contains (Str.lower s) (Str.lower (source r)).

(** The inner [for site in COPYRIGHT_SITES] with its [break]. *)
Definition matched_site (r : SearchResult) : option string :=
  find (site_occurs r) COPYRIGHT_SITES.

(** The loop [for i, result in enumerate(image_results, 1)], from [i]. *)
Fixpoint scan (i : nat) (image_results : list SearchResult) : list Finding :=
  match image_results with
  | [] => []
  | r :: rest =>
      match matched_site r with
      | Some s => mkFinding i s r :: scan (S i) rest
      | None => scan (S i) rest
      end
  end.

Record CopyrightData : Type := mkData {
  total_results : nat;
  copyright_results : list Finding;
  all_results : list SearchResult
}.

(** What the search service answers: a dict with an "error" key, or the
    list under "image_results" (empty when the key is missing). *)
Inductive answer : Type :=
| ApiError (error : string)
| ImageResults (image_results : list SearchResult).

(** [check_copyright_sources]; [None] is the Python [None] returned
    when the search raised or answered with an error. *)
Definition check_copyright_sources (search : Http.exn + answer) : option CopyrightData :=
  match search with
  | inl _ => None
  | inr (ApiError _) => None
  | inr (ImageResults []) => Some (mkData 0 [] [])
  | inr (ImageResults image_results) =>
      Some (mkData (List.length image_results) (scan 1 image_results)
              (firstn 10 image_results))
  end.

(** The status read in the AI's analysis. *)
Definition ai_status_of (ai_analysis : option string) : string :=
  let ai_analysis :=
    match ai_analysis with
    | Some (String c s) => String c s
    | _ => "AI analysis unavailable"
    end in
  let ai_upper := Str.upper ai_analysis in
  if Str.contains "COPYRIGHT STATUS: COPYRIGHTED" ai_upper
     || Str.contains "STATUS: COPYRIGHTED" ai_upper then "copyrighted"
  else if Str.contains "COPYRIGHT STATUS: RISKY" ai_upper
          || Str.contains "STATUS: RISKY" ai_upper then "risky"
  else if Str.contains "COPYRIGHT STATUS: SAFE" ai_upper
          || Str.contains "STATUS: SAFE" ai_upper then "safe"
  else "unknown".

(** The final status of [copyright_check]. *)
Definition final_status (copyright_count total_results : nat) (ai_status : string)
  : string :=
  if (5 <=? copyright_count)%nat || String.eqb ai_status "copyrighted" then "copyrighted"
  else if (0 <? copyright_count)%nat || String.eqb ai_status "risky" then "risky"
  else if (0 <? total_results)%nat then "safe"
  else "unknown".

Definition copyright_status (data : CopyrightData) (ai_analysis : option string) : string :=
  final_status (List.length (copyright_results data)) (total_results data)
    (ai_status_of ai_analysis).

End Copyright.

(** ** [/auth/callback] *)

Module Auth.

Definition userinfo_url : string := "https://api.linkedin.com/v2/userinfo".




End Auth.

(** ** [extract_design_requirements] *)

Module Brief.

Record DesignBrief : Type := mkBrief {
  visual_style : list string;
  color_palette : list string;
  composition : list string;
  subject_matter : list string;
  lighting : list string;
  photography_technique : list string;
  text_graphics : list string;
  emotion_mood : list string;
  brand_elements : list string;
  insights : string;
  brand_guidelines : string
}.

(** [[f['feature'] for f in popular.get(category, [])]] *)
Definition features_of (popular : Py.dict (list Common.CommonFeature)) (category : string)
  : list string :=
  map Common.feature (Common.item_of category popular []).

(** [extract_design_requirements]; [popular] is
    [analysis_data['popular_posts']['common_features']] and [insights] is
    [analysis_data.get('insights', '')]. *)
Definition extract_design_requirements (popular : Py.dict (list Common.CommonFeature))
    (insights brand_text : string) : DesignBrief :=
  mkBrief (features_of popular "visual_style")
          (features_of popular "color_palette")
          (features_of popular "composition")
          (features_of popular "subject_matter")
          (features_of popular "lighting")
          (features_of popular "photography_technique")
          (features_of popular "text_graphics")
          (features_of popular "emotion_mood")
          (features_of popular "brand_elements")
          insights
          (Text.take 3000 brand_text).

(** The nine feature lists of a brief, by category. *)
Definition lists (b : DesignBrief) : list (string * list string) :=
  [("visual_style", visual_style b); ("color_palette", color_palette b);
   ("composition", composition b); ("subject_matter", subject_matter b);
   ("lighting", lighting b); ("photography_technique", photography_technique b);
   ("text_graphics", text_graphics b); ("emotion_mood", emotion_mood b);
   ("brand_elements", brand_elements b)].

End Brief.

(** ** [/status] *)

Module Status.

Inductive answer : Type :=
| NoToken      (** authenticated: False, "No access token found. ..." *)
| Invalid      (** authenticated: False, "Access token invalid or expired. ..." *)
| Authenticated (name email : option LinkedIn.json).

(** [status].  [userinfo] is what the request for the user's data does
    up to [response.json()]; the bare [except] turns any failure into
    the second answer. *)
Definition status (config_file : option (Py.dict LinkedIn.json))
    (userinfo : Http.exn + Py.dict LinkedIn.json)
  : answer * list LinkedIn.effect :=
  let access_token := LinkedIn.get_access_token config_file in
  if negb (LinkedIn.truthy access_token) then (NoToken, [])
  else
    match userinfo with
    | inl _ => (Invalid, [LinkedIn.ApiCall Auth.userinfo_url])
    | inr user_data =>
        (Authenticated (Py.dict_get "name" user_data) (Py.dict_get "email" user_data),
         [LinkedIn.ApiCall Auth.userinfo_url])
    end.

End Status.

(* ================================================================== *)
(** * Part II: properties                                               *)
(* ================================================================== *)

(** ** Sorting *)

Section SortedDesc.
Context {A : Type} (key : A -> Z).

Local Abbreviation desc := (fun x y : A => key y <= key x).

Lemma insert_desc_perm (x : A) (l : list A) :
    Permutation (x :: l) (Py.insert_desc key x l).
Proof.
    induction l as [|y l IH]; simpl; [reflexivity|].
    destruct (key y <=? key x); [reflexivity|].
    rewrite perm_swap. now constructor.
Qed.

Lemma sorted_desc_perm (l : list A) : Permutation l (Py.sorted_desc key l).
Proof.
    induction l as [|x l IH]; simpl; [constructor|].
    rewrite <- insert_desc_perm. now constructor.
Qed.

Lemma insert_desc_sorted (x : A) (l : list A) :
    StronglySorted desc l -> StronglySorted desc (Py.insert_desc key x l).
Proof.
    induction 1 as [|y l Hs IH Hall]; simpl.
    - repeat constructor.
    - destruct (key y <=? key x) eqn:E.
      + apply Z.leb_le in E. constructor; [now constructor|].
        constructor; [exact E|].
        eapply Forall_impl; [|exact Hall]. cbn beta. intros; lia.
      + apply Z.leb_gt in E. constructor; [exact IH|].
        eapply Permutation_Forall; [apply insert_desc_perm|].
        constructor; [cbn beta; lia | exact Hall].
Qed.

Lemma sorted_desc_sorted (l : list A) : StronglySorted desc (Py.sorted_desc key l).
Proof.
    induction l as [|x l IH]; simpl; [constructor|].
    now apply insert_desc_sorted.
Qed.

Lemma sorted_split_le (l : list A) (k : nat) (x y : A) :
    StronglySorted desc l -> In x (firstn k l) -> In y (skipn k l) -> key y <= key x.
Proof.
    intros Hs. revert k. induction Hs as [|z l Hs IH Hall]; intros k Hx Hy.
    - rewrite firstn_nil in Hx. destruct Hx.
    - destruct k as [|k]; simpl in Hx, Hy; [destruct Hx|].
      destruct Hx as [->|Hx].
      + rewrite Forall_forall in Hall. apply Hall.
        rewrite <- (firstn_skipn k l). apply in_or_app. now right.
      + eapply IH; eassumption.
Qed.
End SortedDesc.

(** ** C3: partition by popularity *)

Lemma int_returns (x : Binary64.float) :
  Binary64.is_finite x = true <-> exists i, Binary64.int x = inr i.
Proof.
  destruct x; cbn; split; try discriminate; eauto; intros (i & H); discriminate H.
Qed.

(** [int()] truncates the exact value of a finite float toward zero. *)
Lemma int_truncates (x : Binary64.float) :
  Binary64.is_finite x = true ->
  Binary64.int x = inr (Py.int_of_Q (Binary64.value x)).
Proof.
  destruct x as [s| | |s m e]; try discriminate; intros _; [reflexivity|].
  unfold Binary64.int, Binary64.value, Py.int_of_Q. f_equal.
  destruct e as [|q|q]; cbn [inject_Z Qnum Qden].
  - rewrite Z.quot_1_r. now destruct s.
  - rewrite Z.quot_1_r. destruct s; [|reflexivity].
    now rewrite <- Z.mul_opp_l.
  - rewrite Pos2Z.inj_pow_pos.
    assert (Hd : 0 < Z.pow_pos 2 q)
      by (rewrite Z.pow_pos_fold; apply Z.pow_pos_nonneg; lia).
    destruct s.
    + change (Z.neg m) with (- Z.pos m). rewrite Z.quot_opp_l by lia.
      f_equal. symmetry. apply Z.quot_div_nonneg; lia.
    + symmetry. apply Z.quot_div_nonneg; lia.
Qed.

Lemma mul_finite_l (x y : Binary64.float) :
  Binary64.is_finite (Binary64.mul x y) = true -> Binary64.is_finite x = true.
Proof. destruct x, y; cbn; congruence. Qed.

(** C3. For every list of posts and every top_percentage, a float,
    [categorize_posts_by_popularity] returns a pair [(popular, less_popular)]
    that is, as a multiset, the input list; [popular] is the first
    [max(1, int(len(posts) * p))] posts of the input sorted by likes in
    descending order and [less_popular] the rest, the product being that
    of two floats and [int] the truncation of its exact value; and every
    post of [popular] has at least as many likes as every post of
    [less_popular].  The pair is returned whenever the product is finite;
    for an infinite or NaN product [int] raises and nothing is returned. *)
Theorem categorize_posts_by_popularity_partition :
  forall (posts : list PostData) (p : Binary64.float),
    let sorted_posts := Py.sorted_desc likes posts in
    let product :=
      Binary64.mul (Binary64.of_int (Z.of_nat (List.length posts))) p in
    Permutation posts sorted_posts
    /\ StronglySorted (fun a b => likes b <= likes a) sorted_posts
    /\ match Binary64.categorize_posts_by_popularity posts p with
       | inr (popular, less_popular) =>
           let k := Z.to_nat (Z.max 1 (Py.int_of_Q (Binary64.value product))) in
           Binary64.is_finite product = true
           /\ Permutation posts (popular ++ less_popular)
           /\ popular = firstn k sorted_posts
           /\ less_popular = skipn k sorted_posts
           /\ (forall a b, In a popular -> In b less_popular -> likes b <= likes a)
       | inl e => Binary64.is_finite product = false
       end.
Proof.
  intros posts p. cbn zeta.
  split; [apply sorted_desc_perm|]. split; [apply sorted_desc_sorted|].
  unfold Binary64.categorize_posts_by_popularity, Binary64.split_index.
  assert (Hlen : List.length (Py.sorted_desc likes posts) = List.length posts).
  { symmetry. apply Permutation_length, sorted_desc_perm. }
  rewrite Hlen.
  set (n := Binary64.of_int (Z.of_nat (List.length posts))).
  destruct (Binary64.is_finite n) eqn:Hn.
  - destruct (Binary64.is_finite (Binary64.mul n p)) eqn:Hx.
    + rewrite (int_truncates _ Hx). unfold Py.slice_to, Py.slice_from.
      split; [reflexivity|]. split; [|split; [reflexivity | split; [reflexivity|]]].
      * rewrite firstn_skipn. apply sorted_desc_perm.
      * intros a b Ha Hb.
        eapply (sorted_split_le likes); [apply sorted_desc_sorted | exact Ha | exact Hb].
    + destruct (Binary64.int (Binary64.mul n p)) as [e|i] eqn:Hi; [reflexivity|].
      assert (H : Binary64.is_finite (Binary64.mul n p) = true)
        by (apply int_returns; now exists i).
      congruence.
  - destruct (Binary64.is_finite (Binary64.mul n p)) eqn:Hx; [|reflexivity].
    apply mul_finite_l in Hx. congruence.
Qed.

(** With Python's [0.58], 50 posts give 28 popular ones: the product is
    28.999999999999996; and with [0.7], 10 posts give 7. *)
Example categorize_rounds_the_product :
  let posts := map (fun i => mkPost "post.png" (Z.of_nat i)) (seq 0 50) in
  Binary64.mul (Binary64.of_int 50) (Binary64.literal 58 100)
  = S754_finite false 8162774324609023 (-48)
  /\ Binary64.split_index 50 (Binary64.literal 58 100) = inr 28
  /\ Binary64.split_index 10 (Binary64.literal 7 10) = inr 7
  /\ Binary64.split_index 10 (Binary64.literal 3 10) = inr 3
  /\ match Binary64.categorize_posts_by_popularity posts (Binary64.literal 58 100) with
     | inr (popular, less_popular) =>
         List.length popular = 28%nat /\ List.length less_popular = 22%nat
     | inl _ => False
     end.
Proof. vm_compute. repeat split. Qed.

Example categorize_raises_on_nan :
  Binary64.categorize_posts_by_popularity [mkPost "a.png" 3] S754_nan
  = inl Binary64.ValueError
  /\ Binary64.categorize_posts_by_popularity [mkPost "a.png" 3] (S754_infinity false)
     = inl Binary64.OverflowError.
Proof. split; reflexivity. Qed.

(** Whatever the float function returns, the function on exact rationals
    returns for some percentage: what holds of the latter for every
    percentage holds of the former whenever it returns. *)
Lemma binary64_categorize_is_exact_categorize
    (posts : list PostData) (p : Binary64.float) (popular less_popular : list PostData) :
  Binary64.categorize_posts_by_popularity posts p = inr (popular, less_popular) ->
  exists q : Q, categorize_posts_by_popularity posts q = (popular, less_popular).
Proof.
  unfold Binary64.categorize_posts_by_popularity, categorize_posts_by_popularity.
  destruct (Binary64.split_index _ p) as [e|k] eqn:E; [discriminate|].
  intros [= <- <-].
  assert (Hk : 1 <= k).
  { unfold Binary64.split_index in E.
    destruct (Binary64.is_finite _); [|discriminate].
    destruct (Binary64.int _); [discriminate|]. injection E as <-. lia. }
  set (sorted_posts := Py.sorted_desc likes posts) in *.
  destruct (List.length sorted_posts) as [|n] eqn:Hn.
  - apply length_zero_iff_nil in Hn. rewrite Hn. exists 0%Q.
    unfold Py.slice_to, Py.slice_from. now rewrite !firstn_nil, !skipn_nil.
  - exists (k # Pos.of_succ_nat n)%Q. unfold split_index, Py.int_of_Q.
    cbn [Qmult inject_Z Qnum Qden]. rewrite Pos.mul_1_l.
    replace (Z.of_nat (S n)) with (Z.pos (Pos.of_succ_nat n)) by lia.
    rewrite Z.mul_comm, Z.quot_mul by lia.
    now rewrite Z.max_r by lia.
Qed.

(** ** Strings *)

Lemma prefix_map_chars (f : ascii -> ascii) (p s : string) :
  prefix p s = true -> prefix (Str.map_chars f p) (Str.map_chars f s) = true.
Proof.
  revert s. induction p as [|a p IH]; intros s H; [now destruct s|].
  destruct s as [|b s]; simpl in *; [discriminate|].
  destruct (ascii_dec a b) as [->|]; [|discriminate].
  destruct (ascii_dec (f b) (f b)); [now apply IH | congruence].
Qed.

Lemma contains_unfold (p s : string) :
  Str.contains p s =
  prefix p s || match s with EmptyString => false | String _ s' => Str.contains p s' end.
Proof. now destruct s. Qed.

Lemma contains_map_chars (f : ascii -> ascii) (p s : string) :
  Str.contains p s = true -> Str.contains (Str.map_chars f p) (Str.map_chars f s) = true.
Proof.
  induction s as [|c s IH]; intros H;
    rewrite contains_unfold in H; rewrite contains_unfold;
    apply orb_true_iff in H as [H|H].
  - now rewrite (prefix_map_chars f _ _ H).
  - discriminate.
  - now rewrite (prefix_map_chars f _ _ H).
  - cbn [Str.map_chars]. rewrite (IH H). apply orb_true_r.
Qed.

(** ** C1: retry with exponential backoff *)

Section RetryLoop.
Context {V : Type} (n : Z) (b : N) (func : nat -> Retry.outcome V).

Local Abbreviation rate_limited := (fun j : nat =>
  exists e, func j = Retry.Raises e /\ Retry.is_rate_limit e = true).

Local Abbreviation backoff_round := (fun j : nat =>
  [Retry.WaitIfNeeded; Retry.CallFunc j; Retry.Sleep (Z.of_N b * 3 ^ Z.of_nat j)]).

Lemma retry_loop_skip (m a len : nat) :
  (forall j, (a <= j < a + m)%nat -> rate_limited j) ->
  Z.of_nat (a + m) <= n - 1 ->
  (m <= len)%nat ->
  Retry.retry_loop n b func (seq a len) =
    (fst (Retry.retry_loop n b func (seq (a + m) (len - m))),
     flat_map backoff_round (seq a m)
       ++ snd (Retry.retry_loop n b func (seq (a + m) (len - m)))).
Proof.
  revert a len. induction m as [|m IH]; intros a len Hrl Hn Hlen.
  - rewrite Nat.add_0_r, Nat.sub_0_r. simpl.
    now destruct (Retry.retry_loop n b func (seq a len)).
  - destruct len as [|len]; [lia|].
    destruct (Hrl a ltac:(lia)) as (e & He & Hm).
    cbn [seq Retry.retry_loop flat_map]. rewrite He, Hm.
    replace (Z.of_nat a <? n - 1) with true by (symmetry; apply Z.ltb_lt; lia).
    rewrite (IH (S a) len); [| intros j Hj; apply Hrl; lia | lia | lia].
    replace (S a + m)%nat with (a + S m)%nat by lia.
    cbn [Nat.sub fst snd]. reflexivity.
Qed.

Lemma retry_loop_head (a : nat) (rest : list nat) :
  exists post, snd (Retry.retry_loop n b func (a :: rest)) =
               Retry.WaitIfNeeded :: Retry.CallFunc a :: post.
Proof.
  cbn [Retry.retry_loop]. destruct (func a) as [v|e]; [now eexists|].
  destruct (Retry.is_rate_limit e); [|now eexists].
  destruct (Z.of_nat a <? n - 1); [|now eexists].
  destruct (Retry.retry_loop n b func rest). now eexists.
Qed.

Lemma retry_until (k : nat) :
  Z.of_nat k < n ->
  (forall j, (j < k)%nat -> rate_limited j) ->
  Retry._retry_with_backoff n b func =
    (fst (Retry.retry_loop n b func (k :: seq (S k) (Z.to_nat n - S k))),
     flat_map backoff_round (seq 0 k)
       ++ snd (Retry.retry_loop n b func (k :: seq (S k) (Z.to_nat n - S k)))).
Proof.
  intros Hk Hrl. unfold Retry._retry_with_backoff.
  rewrite (retry_loop_skip k 0 (Z.to_nat n)); [| intros; apply Hrl; lia | lia | lia].
  replace (Z.to_nat n - k)%nat with (S (Z.to_nat n - S k)) by lia.
  reflexivity.
Qed.

End RetryLoop.

Lemma marker_is_rate_limit (marker e : string) :
  In marker Retry.rate_limit_markers ->
  Str.contains marker e = true -> Retry.is_rate_limit e = true.
Proof.
  intros Hin Hc. unfold Retry.is_rate_limit. apply existsb_exists.
  exists marker. split; [exact Hin|].
  apply (contains_map_chars Str.lower_char) in Hc.
  replace (Str.map_chars Str.lower_char marker) with marker in Hc; [exact Hc|].
  simpl in Hin. repeat (destruct Hin as [<-|Hin]; [reflexivity|]). destruct Hin.
Qed.

(** C1. With [max_retries = n >= 1] and [base_delay = b]:
    a rate-limit error on attempt [k < n-1] (the attempts before it having
    been rate limited too, so that attempt [k] is made) is followed by a
    sleep of [b * 3^k] and then by attempt [k+1]; rate-limit errors on all
    [n] attempts give [None]; an error that is not a rate-limit error gives
    [None] at once; a successful attempt has its result returned unchanged.
    An error text that contains one of the six markers is a rate-limit
    error. *)
Theorem retry_with_backoff_spec :
  forall (V : Type) (n : Z) (b : N) (func : nat -> Retry.outcome V),
    1 <= n ->
    let rate_limited := fun j =>
      exists e, func j = Retry.Raises e /\ Retry.is_rate_limit e = true in
    let run := Retry._retry_with_backoff n b func in
    (forall k, Z.of_nat k < n - 1 ->
       (forall j, (j <= k)%nat -> rate_limited j) ->
       exists post,
         snd run =
           flat_map (fun j => [Retry.WaitIfNeeded; Retry.CallFunc j;
                               Retry.Sleep (Z.of_N b * 3 ^ Z.of_nat j)]) (seq 0 (S k))
           ++ Retry.WaitIfNeeded :: Retry.CallFunc (S k) :: post)
    /\ ((forall j, Z.of_nat j < n -> rate_limited j) -> fst run = None)
    /\ (forall k e, Z.of_nat k < n ->
          (forall j, (j < k)%nat -> rate_limited j) ->
          func k = Retry.Raises e -> Retry.is_rate_limit e = false ->
          fst run = None)
    /\ (forall k v, Z.of_nat k < n ->
          (forall j, (j < k)%nat -> rate_limited j) ->
          func k = Retry.Returns v ->
          fst run = Some v)
    /\ (forall marker e, In marker Retry.rate_limit_markers ->
          Str.contains marker e = true -> Retry.is_rate_limit e = true).
Proof.
  intros V n b func Hn. cbn zeta. repeat split.
  - intros k Hk Hrl.
    rewrite (retry_until n b func (S k)); [| lia | intros; apply Hrl; lia].
    cbn [snd].
    destruct (retry_loop_head n b func (S k) (seq (S (S k)) (Z.to_nat n - S (S k))))
      as [post Hpost].
    exists post. now rewrite Hpost.
  - intros Hrl.
    set (k := Z.to_nat (n - 1)).
    rewrite (retry_until n b func k); [| lia | intros; apply Hrl; lia].
    cbn [fst Retry.retry_loop].
    destruct (Hrl k ltac:(lia)) as (e & -> & ->).
    replace (Z.of_nat k <? n - 1) with false by (symmetry; apply Z.ltb_ge; lia).
    reflexivity.
  - intros k e Hk Hrl He Hm.
    rewrite (retry_until n b func k Hk Hrl).
    cbn [fst Retry.retry_loop]. now rewrite He, Hm.
  - intros k v Hk Hrl Hv.
    rewrite (retry_until n b func k Hk Hrl).
    cbn [fst Retry.retry_loop]. now rewrite Hv.
  - intros marker e. apply marker_is_rate_limit.
Qed.

Lemma retry_with_backoff_spec_witness :
  1 <= 3 /\
  fst (Retry._retry_with_backoff 3 20
         (fun k => match k with
                   | O => Retry.Raises "429 Too Many Requests"
                   | _ => Retry.Returns 7
                   end)) = Some 7.
Proof.
  split; [lia|].
  destruct (retry_with_backoff_spec Z 3 20
              (fun k => match k with
                        | O => Retry.Raises "429 Too Many Requests"
                        | _ => Retry.Returns 7
                        end) ltac:(lia)) as (_ & _ & _ & H & _).
  apply (H 1%nat 7); [lia | | reflexivity].
  intros j Hj. assert (j = 0%nat) as -> by lia.
  eexists; split; reflexivity.
Defined.

(** ** C2: the rate limiter *)

Section RateLimiterCall.
Context (c : RateLimiter.timing) (clock : Z) (rl : RateLimiter.t).
Context (clock' : Z) (rl' : RateLimiter.t).
Hypothesis Hret : RateLimiter.wait_if_needed c clock rl = RateLimiter.Returned clock' rl'.

Lemma wait_if_needed_config :
  RateLimiter.max_requests rl' = RateLimiter.max_requests rl
  /\ RateLimiter.min_delay rl' = RateLimiter.min_delay rl
  /\ RateLimiter.last_request_time rl' = Some clock'.
Proof.
  revert Hret. unfold RateLimiter.wait_if_needed. cbv zeta.
  set (now := RateLimiter.after_min_delay c clock rl).
  set (times := filter _ _).
  destruct (RateLimiter.max_requests rl <=? Z.of_nat (List.length times)).
  - destruct times as [|oldest times']; [discriminate|].
    set (w := 61 * RateLimiter.second - (now - oldest)).
    destruct (0 <? w); injection 1 as <- <-; auto.
  - injection 1 as <- <-; auto.
Qed.

Lemma wait_if_needed_after :
  0 <= RateLimiter.late2 c ->
  RateLimiter.after_min_delay c clock rl <= clock'.
Proof.
  intros H2. revert Hret. unfold RateLimiter.wait_if_needed. cbv zeta.
  set (now := RateLimiter.after_min_delay c clock rl).
  set (times := filter _ _).
  destruct (RateLimiter.max_requests rl <=? Z.of_nat (List.length times)).
  - destruct times as [|oldest times']; [discriminate|].
    set (w := 61 * RateLimiter.second - (now - oldest)).
    destruct (0 <? w) eqn:W; injection 1 as <- _; [apply Z.ltb_lt in W|]; lia.
  - injection 1 as <- _; lia.
Qed.

Lemma after_min_delay_ge (last : Z) :
  0 <= RateLimiter.late1 c ->
  RateLimiter.last_request_time rl = Some last ->
  last + RateLimiter.min_delay rl <= RateLimiter.after_min_delay c clock rl.
Proof.
  intros H1 Hlast. unfold RateLimiter.after_min_delay. cbv zeta. rewrite Hlast.
  destruct (clock + RateLimiter.idle c - last <? RateLimiter.min_delay rl) eqn:E;
    [apply Z.ltb_lt in E | apply Z.ltb_ge in E]; lia.
Qed.

(** With room for one request or more, the call returns. *)
Lemma wait_if_needed_returns (c0 : RateLimiter.timing) (clock0 : Z) (rl0 : RateLimiter.t) :
  1 <= RateLimiter.max_requests rl0 ->
  exists clock1 rl1,
    RateLimiter.wait_if_needed c0 clock0 rl0 = RateLimiter.Returned clock1 rl1.
Proof.
  intros Hm. unfold RateLimiter.wait_if_needed. cbv zeta.
  set (now := RateLimiter.after_min_delay c0 clock0 rl0).
  set (times := filter _ _).
  destruct (RateLimiter.max_requests rl0 <=? Z.of_nat (List.length times)) eqn:E;
    [|now eexists; eexists].
  destruct times as [|oldest times']; [apply Z.leb_le in E; cbn in E; lia|].
  set (w := 61 * RateLimiter.second - (now - oldest)).
  destruct (0 <? w); now eexists; eexists.
Qed.

(** The minimum delay: a call returns at least [min_delay] after the
    instant recorded by the previous one. *)
Lemma wait_if_needed_min_delay (last : Z) :
  RateLimiter.timing_ok c ->
  RateLimiter.last_request_time rl = Some last ->
  last + RateLimiter.min_delay rl <= clock'.
Proof.
  intros (Hi & H1 & H2) Hlast.
  pose proof (after_min_delay_ge last H1 Hlast).
  pose proof (wait_if_needed_after H2). lia.
Qed.

(** The list the limiter keeps never holds more than [max_requests]
    timestamps when a call returns, and all of them are less than a
    minute old. *)
Lemma wait_if_needed_stored :
  1 <= RateLimiter.max_requests rl ->
  Z.of_nat (List.length (RateLimiter.request_times rl')) <= RateLimiter.max_requests rl
  /\ Forall (fun t => clock' - t < RateLimiter.minute) (RateLimiter.request_times rl').
Proof.
  intros Hm. revert Hret. unfold RateLimiter.wait_if_needed. cbv zeta.
  set (now := RateLimiter.after_min_delay c clock rl).
  set (times := filter _ _).
  assert (Hin : Forall (fun t => now - t < RateLimiter.minute) times).
  { apply Forall_forall. intros t Ht. apply filter_In in Ht as [_ Ht].
    now apply Z.ltb_lt in Ht. }
  assert (Happ : Forall (fun t => now - t < RateLimiter.minute) (times ++ [now])).
  { apply Forall_app. split; [exact Hin|]. repeat constructor.
    unfold RateLimiter.minute, RateLimiter.second. lia. }
  destruct (RateLimiter.max_requests rl <=? Z.of_nat (List.length times)) eqn:E.
  - destruct times as [|oldest times']; [discriminate|].
    set (w := 61 * RateLimiter.second - (now - oldest)).
    destruct (0 <? w) eqn:W.
    + injection 1 as <- <-. cbn [RateLimiter.request_times List.length]. split; [lia|].
      repeat constructor. unfold RateLimiter.minute, RateLimiter.second. lia.
    + apply Z.ltb_ge in W. apply Forall_inv in Hin.
      unfold w, RateLimiter.minute, RateLimiter.second in *. lia.
  - apply Z.leb_gt in E. injection 1 as <- <-.
    cbn [RateLimiter.request_times]. split; [|exact Happ].
    rewrite length_app. cbn [List.length]. lia.
Qed.

End RateLimiterCall.

(** Successive returns of one instance are at least [min_delay] apart. *)
Lemma run_min_delay (calls : list RateLimiter.timing) :
  Forall RateLimiter.timing_ok calls ->
  forall (clock : Z) (rl : RateLimiter.t),
    let returns := map fst (RateLimiter.run calls clock rl) in
    Sorted (fun r r' => r + RateLimiter.min_delay rl <= r') returns
    /\ (forall last, RateLimiter.last_request_time rl = Some last ->
        HdRel (fun r r' => r + RateLimiter.min_delay rl <= r') last returns).
Proof.
  induction 1 as [|c calls Hc Hcalls IH]; intros clock rl; cbn zeta.
  - cbn. split; constructor.
  - cbn [RateLimiter.run].
    destruct (RateLimiter.wait_if_needed c clock rl) as [clock' rl'|clock' rl'] eqn:E.
    + destruct (wait_if_needed_config _ _ _ _ _ E) as (_ & Hd & Hl).
      destruct (IH clock' rl') as [IH1 IH2]. rewrite Hd in IH1, IH2.
      cbn [map fst]. split.
      * constructor; [exact IH1 | now apply IH2].
      * intros last Hlast. constructor.
        eapply wait_if_needed_min_delay; eassumption.
    + assert (Hcfg : RateLimiter.min_delay rl' = RateLimiter.min_delay rl
                     /\ RateLimiter.last_request_time rl' = RateLimiter.last_request_time rl).
      { revert E. unfold RateLimiter.wait_if_needed. cbv zeta.
        destruct (_ <=? _); [|discriminate].
        destruct (filter _ _); [intros H'; inversion H'; subst; auto|].
        destruct (0 <? _); discriminate. }
      destruct Hcfg as [Hd Hl]. destruct (IH clock' rl') as [IH1 IH2].
      rewrite Hd in IH1, IH2. split; [exact IH1|].
      intros last Hlast. apply IH2. now rewrite Hl.
Qed.

(** When the minimum delay is long enough for [max_requests] delays to
    fill a minute, as with the analyzer's own [RateLimiter(5, 12.0)], the
    spacing of the returns alone keeps the number of timestamps recorded
    in any minute within [max_requests]. *)
Section Spaced.
Context (d : Z).

Local Abbreviation gap := (fun r r' : Z => r + d <= r').

Lemma spaced_last (l : list Z) (x : Z) :
  Sorted gap (x :: l) -> x + Z.of_nat (List.length l) * d <= last (x :: l) 0.
Proof.
  revert x. induction l as [|y l IH]; intros x Hs; [cbn; lia|].
  apply Sorted_inv in Hs as [Hs Hhd]. apply HdRel_inv in Hhd.
  specialize (IH y Hs).
  change (last (x :: y :: l) 0) with (last (y :: l) 0).
  cbn [List.length]. lia.
Qed.

Lemma spaced_window (m : Z) (l : list Z) (r : Z) :
  0 < d -> RateLimiter.minute <= m * d ->
  Sorted gap l -> l <> [] -> last l 0 <= r ->
  Z.of_nat (List.length (RateLimiter.in_window r l)) <= m.
Proof.
  intros Hd Hm. unfold RateLimiter.in_window.
  assert (H1 : 1 <= m).
  { unfold RateLimiter.minute, RateLimiter.second in Hm. nia. }
  induction l as [|x l IH]; intros Hs Hne Hr; [congruence|].
  destruct l as [|y l].
  - cbn [filter]. destruct (r - x <? RateLimiter.minute); cbn [List.length]; lia.
  - pose proof (spaced_last (y :: l) x Hs) as Hx.
    apply Sorted_inv in Hs as [Hs _].
    specialize (IH Hs ltac:(discriminate) Hr).
    set (rest := y :: l) in *. cbn [filter].
    change (last (x :: rest) 0) with (last rest 0) in Hx, Hr.
    destruct (r - x <? RateLimiter.minute) eqn:E; [|exact IH].
    apply Z.ltb_lt in E. cbn [List.length].
    pose proof (filter_length_le (fun t => r - t <? RateLimiter.minute) rest) as Hf.
    assert (Hlt : Z.of_nat (List.length rest) * d < m * d) by lia.
    apply Z.mul_lt_mono_pos_r in Hlt; [lia | exact Hd].
Qed.

Lemma spaced_prefixes (l : list Z) :
  Sorted gap l ->
  Forall (fun pre => Sorted gap pre /\ pre <> [] /\ hd 0 pre = hd 0 l)
         (RateLimiter.prefixes l).
Proof.
  induction l as [|x l IH]; intros Hs; cbn [RateLimiter.prefixes]; [constructor|].
  apply Sorted_inv in Hs as [Hs Hhd]. constructor.
  - repeat split; [repeat constructor | discriminate].
  - apply Forall_map, Forall_forall. intros pre Hin.
    specialize (IH Hs). rewrite Forall_forall in IH.
    destruct (IH pre Hin) as (Hpre & Hne & Hh). repeat split; [|discriminate].
    constructor; [exact Hpre|].
    destruct pre as [|p pre]; [congruence|]. constructor.
    destruct l as [|y l]; [destruct Hin|].
    cbn [hd] in Hh. apply HdRel_inv in Hhd. now subst.
Qed.

End Spaced.

Lemma run_window_by_min_delay (calls : list RateLimiter.timing) (clock m d : Z) :
  Forall RateLimiter.timing_ok calls ->
  0 < d -> RateLimiter.minute <= m * d ->
  Forall (fun count => Z.of_nat count <= m)
    (RateLimiter.window_counts
       (map fst (RateLimiter.run calls clock (RateLimiter.init m d)))).
Proof.
  intros Hcalls Hd Hm.
  destruct (run_min_delay calls Hcalls clock (RateLimiter.init m d)) as [Hs _].
  cbn [RateLimiter.init RateLimiter.min_delay] in Hs.
  unfold RateLimiter.window_counts. apply Forall_map.
  eapply Forall_impl; [|exact (spaced_prefixes d _ Hs)].
  intros pre (Hpre & Hne & _). now apply (spaced_window d).
Qed.

(** C2. A limiter built with [max_requests_per_minute = 5] and
    [min_delay_seconds = 1] is called ten times: at 0 s, at 50 s, then one
    second after each return.  The calls return at 0, 50, 51, 52, 53, 61,
    62, 63, 64 and 65 s, each at least the minimum delay after the one
    before; when the last one returns the limiter holds five timestamps,
    but nine of the timestamps it has recorded lie in the minute before,
    more than the five allowed. *)
Theorem rate_limiter_window_overrun :
  let s := RateLimiter.second in
  let calls :=
    RateLimiter.mkTiming 0 0 0 :: RateLimiter.mkTiming (50 * s) 0 0
      :: repeat (RateLimiter.mkTiming s 0 0) 8 in
  let trace := RateLimiter.run calls 0 (RateLimiter.init 5 (1 * s)) in
  let returns := map fst trace in
  Forall RateLimiter.timing_ok calls
  /\ returns = map (fun x => x * s) [0; 50; 51; 52; 53; 61; 62; 63; 64; 65]
  /\ map (fun r => List.length (RateLimiter.request_times (snd r))) trace
     = [1; 2; 3; 4; 5; 1; 2; 3; 4; 5]%nat
  /\ RateLimiter.window_counts returns = [1; 2; 3; 4; 5; 5; 6; 7; 8; 9]%nat
  /\ (5 < last (RateLimiter.window_counts returns) 0)%nat.
Proof.
  cbv zeta. split; [|vm_compute; repeat split; lia].
  repeat constructor; vm_compute; discriminate.
Qed.

(** ** C10: reading the compliance status *)

Lemma find_status_line_none (lines : list string) :
  Forall (fun l => Compliance.is_status_line l = false) lines ->
  Compliance.find_status_line lines = EmptyString.
Proof.
  induction 1 as [|l lines Hl _ IH]; cbn [Compliance.find_status_line]; [reflexivity|].
  now rewrite Hl.
Qed.

Lemma find_status_line_first (pre post : list string) (line : string) :
  Forall (fun l => Compliance.is_status_line l = false) pre ->
  Compliance.is_status_line line = true ->
  Compliance.find_status_line (pre ++ line :: post) = Str.upper line.
Proof.
  intros Hpre Hline. induction Hpre as [|l pre Hl _ IH]; cbn [app Compliance.find_status_line].
  - now rewrite Hline.
  - now rewrite Hl.
Qed.

Lemma status_line_cases (lines : list string) :
  Forall (fun l => Compliance.is_status_line l = false) lines
  \/ exists pre line post,
       lines = pre ++ line :: post
       /\ Forall (fun l => Compliance.is_status_line l = false) pre
       /\ Compliance.is_status_line line = true.
Proof.
  induction lines as [|l lines IH]; [left; constructor|].
  destruct (Compliance.is_status_line l) eqn:E.
  - right. exists [], l, lines. repeat split; [constructor | exact E].
  - destruct IH as [IH|(pre & line & post & -> & Hpre & Hline)].
    + left. now constructor.
    + right. exists (l :: pre), line, post. repeat split; [now constructor | exact Hline].
Qed.

(** C10. [_parse_response] sets [compliant] to [True] exactly when the
    first line whose uppercase form contains 'COMPLIANCE STATUS:' has an
    uppercase form that contains 'COMPLIANT' and not 'NON-COMPLIANT'.  So
    [compliant] is [False] when there is no such line, and when the first
    such line reads NON-COMPLIANT or NEEDS REVIEW; the endpoint then
    reports the status "failed". *)
Theorem parse_response_compliant :
  forall response_text : string,
    let lines := Str.split_lines response_text in
    let first_status_line := fun line =>
      exists pre post,
        lines = pre ++ line :: post
        /\ Forall (fun l => Str.contains "COMPLIANCE STATUS:" (Str.upper l) = false) pre
        /\ Str.contains "COMPLIANCE STATUS:" (Str.upper line) = true in
    let result := Compliance._parse_response response_text in
    (Compliance.compliant result = true <->
       exists line, first_status_line line
                    /\ Str.contains "COMPLIANT" (Str.upper line) = true
                    /\ Str.contains "NON-COMPLIANT" (Str.upper line) = false)
    /\ ((forall line, ~ first_status_line line) -> Compliance.compliant result = false)
    /\ (forall line, first_status_line line ->
          Str.contains "NON-COMPLIANT" (Str.upper line) = true ->
          Compliance.compliant result = false)
    /\ (forall line, first_status_line line ->
          line = "COMPLIANCE STATUS: NON-COMPLIANT"
          \/ line = "COMPLIANCE STATUS: NEEDS REVIEW" ->
          Compliance.compliant result = false)
    /\ (forall brand_guidelines,
          brand_guidelines <> EmptyString ->
          Compliance.compliant result = false ->
          Compliance.compliance_check_status brand_guidelines (inr response_text)
          = inr "failed").
Proof.
  intros response_text. cbn zeta.
  unfold Compliance._parse_response. cbn [Compliance.compliant].
  set (lines := Str.split_lines response_text).
  assert (Hfirst : forall pre line post,
    lines = pre ++ line :: post ->
    Forall (fun l => Str.contains "COMPLIANCE STATUS:" (Str.upper l) = false) pre ->
    Str.contains "COMPLIANCE STATUS:" (Str.upper line) = true ->
    Compliance.find_status_line lines = Str.upper line).
  { intros pre line post -> Hpre Hline. now apply find_status_line_first. }
  repeat split.
  - intros H. destruct (status_line_cases lines) as [Hnone|(pre & line & post & E & Hpre & Hline)].
    + rewrite (find_status_line_none _ Hnone) in H. discriminate.
    + rewrite (Hfirst _ _ _ E Hpre Hline) in H.
      apply andb_true_iff in H as [H1 H2]. apply negb_true_iff in H2.
      exists line. split; [|split; assumption]. now exists pre, post.
  - intros (line & (pre & post & E & Hpre & Hline) & H1 & H2).
    rewrite (Hfirst _ _ _ E Hpre Hline), H1, H2. reflexivity.
  - intros Hno. destruct (status_line_cases lines) as [Hnone|(pre & line & post & E & Hpre & Hline)].
    + now rewrite (find_status_line_none _ Hnone).
    + exfalso. apply (Hno line). now exists pre, post.
  - intros line (pre & post & E & Hpre & Hline) H.
    rewrite (Hfirst _ _ _ E Hpre Hline), H. apply andb_false_r.
  - intros line (pre & post & E & Hpre & Hline) H.
    rewrite (Hfirst _ _ _ E Hpre Hline). now destruct H as [-> | ->].
  - intros brand_guidelines Hg H.
    unfold Compliance.compliance_check_status, Compliance.check_compliance.
    destruct brand_guidelines; [congruence|]. cbn [Str.is_empty].
    unfold Compliance._parse_response. cbn [Compliance.compliant].
    fold lines. now rewrite H.
Qed.

Lemma parse_response_compliant_witness :
  Compliance.compliant
    (Compliance._parse_response "COMPLIANCE STATUS: NEEDS REVIEW") = false
  /\ Compliance.compliance_check_status "Use the red logo."
       (inr "COMPLIANCE STATUS: NEEDS REVIEW") = inr "failed".
Proof.
  destruct (parse_response_compliant "COMPLIANCE STATUS: NEEDS REVIEW")
    as (_ & _ & _ & Hstatus & Hfailed).
  assert (H : Compliance.compliant
                (Compliance._parse_response "COMPLIANCE STATUS: NEEDS REVIEW") = false).
  { apply (Hstatus "COMPLIANCE STATUS: NEEDS REVIEW"); [|now right].
    exists [], []. repeat split; constructor. }
  split; [exact H | apply Hfailed; [discriminate | exact H]].
Defined.

(** ** C7: the newest file matching a glob *)

Lemma max_mtime_spec (rest : list Storage.file) :
  forall first : Storage.file,
    In (Storage.max_mtime first rest) (first :: rest)
    /\ Forall (fun g => Storage.st_mtime g <= Storage.st_mtime (Storage.max_mtime first rest))
              (first :: rest).
Proof.
  unfold Storage.max_mtime.
  induction rest as [|f rest IH]; intros first; cbn [fold_left].
  - split; [now left | repeat constructor; lia].
  - destruct (Storage.st_mtime first <? Storage.st_mtime f) eqn:E;
      [apply Z.ltb_lt in E | apply Z.ltb_ge in E];
      destruct (IH f) as [Hin Hall]; destruct (IH first) as [Hin' Hall'].
    + split; [now right|].
      constructor; [|exact Hall]. apply Forall_inv in Hall. lia.
    + split; [destruct Hin' as [<-|Hin']; [now left | now right; right]|].
      inversion Hall' as [|x l Hx Hl]; subst.
      constructor; [exact Hx|]. constructor; [lia | exact Hl].
Qed.

Lemma newest_spec (files : list Storage.file) :
  match Storage.newest files with
  | None => files = []
  | Some f => In f files /\ Forall (fun g => Storage.st_mtime g <= Storage.st_mtime f) files
  end.
Proof.
  destruct files as [|f rest]; cbn [Storage.newest]; [reflexivity|].
  apply max_mtime_spec.
Qed.

(** C7. Whenever some file matches the pattern, the analyze-past-posts
    endpoint uses a [*.csv] file, the compliance-check endpoint a
    [brand_guidelines*] file and [generate_design_from_text] a
    [brand_guidelines_*.pdf] file, and the file used has the greatest
    modification time among the files that match. *)
Theorem newest_matching_file_is_used :
  forall dir : list Storage.file,
    let newest_of := fun (pattern : string) (f : Storage.file) =>
      In f dir /\ Storage.glob_match pattern (Storage.name f) = true
      /\ forall g, In g dir -> Storage.glob_match pattern (Storage.name g) = true ->
                   Storage.st_mtime g <= Storage.st_mtime f in
    ((exists g, In g dir /\ Storage.glob_match "*.csv" (Storage.name g) = true) ->
       exists f, Storage.analyze_past_posts_csv (Some dir) = inr f /\ newest_of "*.csv" f)
    /\ ((exists g, In g dir /\ Storage.glob_match "brand_guidelines*" (Storage.name g) = true) ->
       exists f, Storage.compliance_check_guideline dir = Some f
                 /\ newest_of "brand_guidelines*" f)
    /\ ((exists g, In g dir /\ Storage.glob_match "brand_guidelines_*.pdf" (Storage.name g) = true) ->
       exists f, Storage.generate_design_brand_pdf dir = inr f
                 /\ newest_of "brand_guidelines_*.pdf" f).
Proof.
  intros dir. cbn zeta.
  assert (H : forall pattern,
    (exists g, In g dir /\ Storage.glob_match pattern (Storage.name g) = true) ->
    exists f, Storage.newest (Storage.glob pattern dir) = Some f
      /\ In f dir /\ Storage.glob_match pattern (Storage.name f) = true
      /\ forall g, In g dir -> Storage.glob_match pattern (Storage.name g) = true ->
                   Storage.st_mtime g <= Storage.st_mtime f).
  { intros pattern (g & Hg & Hm).
    pose proof (newest_spec (Storage.glob pattern dir)) as Hn.
    destruct (Storage.newest (Storage.glob pattern dir)) as [f|].
    - destruct Hn as [Hin Hall]. exists f. split; [reflexivity|].
      apply filter_In in Hin as [Hin Hf]. repeat split; [exact Hin | exact Hf |].
      intros g' Hg' Hm'. rewrite Forall_forall in Hall. apply Hall.
      apply filter_In. now split.
    - exfalso. assert (Hin : In g (Storage.glob pattern dir)) by (apply filter_In; now split).
      rewrite Hn in Hin. destruct Hin. }
  repeat split.
  - intros Hex. destruct (H _ Hex) as (f & Hf & Hrest). exists f.
    unfold Storage.analyze_past_posts_csv. now rewrite Hf.
  - intros Hex. destruct (H _ Hex) as (f & Hf & Hrest). exists f.
    unfold Storage.compliance_check_guideline. now rewrite Hf.
  - intros Hex. destruct (H _ Hex) as (f & Hf & Hrest). exists f.
    unfold Storage.generate_design_brand_pdf. now rewrite Hf.
Qed.

Lemma newest_matching_file_is_used_witness :
  exists f,
    Storage.analyze_past_posts_csv
      (Some [Storage.mkFile "old.csv" 10; Storage.mkFile "logo.png" 99;
             Storage.mkFile "new.csv" 20]) = inr f
    /\ Storage.name f = "new.csv".
Proof.
  destruct (newest_matching_file_is_used
              [Storage.mkFile "old.csv" 10; Storage.mkFile "logo.png" 99;
               Storage.mkFile "new.csv" 20]) as (Hcsv & _ & _).
  destruct Hcsv as (f & Hf & Hin & Hm & Hmax).
  { exists (Storage.mkFile "old.csv" 10). split; [now left | reflexivity]. }
  exists f. split; [exact Hf|].
  specialize (Hmax (Storage.mkFile "new.csv" 20)
                   ltac:(right; right; now left) ltac:(reflexivity)).
  cbn [Storage.st_mtime] in Hmax.
  destruct Hin as [<-|[<-|[<-|[]]]]; cbn [Storage.st_mtime Storage.name] in *;
    [lia | discriminate | reflexivity].
Defined.

(** ** C9: [/post] without an access token *)

(** C9. When config.json is absent or has no "access_token" entry, the
    [/post] route fails with HTTP 401 and the detail "Not authenticated.
    Please visit /auth/login first"; no LinkedIn API call has been made
    and no file has been written. *)
Theorem post_without_token_is_rejected :
  forall (R Image : Type)
         (publish : LinkedIn.json -> string -> Image
                    -> (Http.exn + R) * list LinkedIn.effect)
         (config_file : option (Py.dict LinkedIn.json)) (text : string) (image : Image),
    (config_file = None
     \/ exists config, config_file = Some config
                       /\ ~ In "access_token" (Py.keys config)) ->
    LinkedIn.post_linkedin publish config_file text image =
      (inl (Http.HTTPException 401 "Not authenticated. Please visit /auth/login first"),
       []).
Proof.
  intros R Image publish config_file text image H.
  assert (Hget : LinkedIn.get_access_token config_file = None).
  { unfold LinkedIn.get_access_token.
    destruct H as [-> | (config & -> & Hno)]; [reflexivity|].
    cbn [LinkedIn.load_config].
    induction config as [|[k v] config IH]; [reflexivity|].
    cbn [Py.dict_get]. destruct (String.eqb_spec "access_token" k) as [<-|Hne].
    - exfalso. apply Hno. now left.
    - apply IH. intros Hin. apply Hno. now right. }
  unfold LinkedIn.post_linkedin. now rewrite Hget.
Qed.

Lemma post_without_token_is_rejected_witness :
  LinkedIn.post_linkedin
    (fun (_ : LinkedIn.json) (_ : string) (_ : unit) =>
       (inr tt, [LinkedIn.ApiCall "https://api.linkedin.com/v2/userinfo"]))
    (Some [("client_id", LinkedIn.JStr "abc")]) "hello" tt
  = (inl (Http.HTTPException 401 "Not authenticated. Please visit /auth/login first"), []).
Proof.
  apply post_without_token_is_rejected.
  right. exists [("client_id", LinkedIn.JStr "abc")]. split; [reflexivity|].
  cbn. intros [H|[]]. discriminate H.
Defined.

(** ** C6: code blocks in the model's answer *)

Lemma findall_nil_iff (match_at : string -> option (string * nat)) (s : string) :
  CodeBlocks.findall match_at s = [] <->
  forall pre t, s = (pre ++ t)%string -> match_at t = None.
Proof.
  unfold CodeBlocks.findall. induction s as [|c s IH]; cbn [CodeBlocks.findall_from].
  - split.
    + intros H pre t E. destruct pre; [|discriminate]. cbn in E. subst t.
      destruct (match_at EmptyString) as [[g len]|]; [discriminate | reflexivity].
    + intros H. now rewrite (H EmptyString EmptyString eq_refl).
  - split.
    + intros H pre t E.
      destruct (match_at (String c s)) as [[g len]|] eqn:M; [discriminate|].
      destruct pre as [|c' pre]; cbn in E; [now subst t|].
      injection E as _ E. apply (proj1 IH H pre t E).
    + intros H. rewrite (H EmptyString (String c s) eq_refl).
      apply IH. intros pre t E. apply (H (String c pre) t). cbn. now rewrite E.
Qed.

(** What the function itself does: [None] exactly for an empty text or
    a text in which neither pattern matches anywhere, otherwise the
    groups of all matches joined by a blank line. *)
Lemma extract_code_from_response_spec (text : string) :
  let no_match := fun match_at : string -> option (string * nat) =>
    forall pre t, text = (pre ++ t)%string -> match_at t = None in
  CodeBlocks.extract_code_from_response None = None
  /\ (CodeBlocks.extract_code_from_response (Some text) = None <->
      text = EmptyString
      \/ (no_match CodeBlocks.match_tagged /\ no_match CodeBlocks.match_bare))
  /\ (CodeBlocks.extract_code_from_response (Some text) <> None ->
      CodeBlocks.extract_code_from_response (Some text) =
        Some (Str.join (CodeBlocks.nl ++ CodeBlocks.nl)%string
                (CodeBlocks.findall CodeBlocks.match_tagged text
                   ++ CodeBlocks.findall CodeBlocks.match_bare text))).
Proof.
  cbn zeta. split; [reflexivity|].
  unfold CodeBlocks.extract_code_from_response.
  destruct text as [|c text]; cbn [Str.is_empty].
  - split; [split; [now left | reflexivity] | congruence].
  - set (t := String c text).
    destruct (CodeBlocks.findall CodeBlocks.match_tagged t
                ++ CodeBlocks.findall CodeBlocks.match_bare t) as [|b bs] eqn:E.
    + apply app_eq_nil in E as [E1 E2]. split; [|congruence].
      split; [|reflexivity]. intros _. right.
      split; now apply findall_nil_iff.
    + split; [|reflexivity]. split; [discriminate|].
      intros [H|[H1 H2]]; [discriminate|].
      apply findall_nil_iff in H1, H2. rewrite H1, H2 in E. discriminate.
Qed.

(** C6. The model answers "Here is your design", a non-empty text with no
    code block.  [extract_code_from_response] returns [None] and the
    [try] block raises HTTP 500 with the detail "No code block found in AI
    response"; the route's [except Exception] catches that exception and
    raises a new one, so that the error the endpoint answers with has the
    detail "500: No code block found in AI response". *)
Theorem generate_design_no_code_block :
  let response_text := Some "Here is your design" in
  CodeBlocks.extract_code_from_response response_text = None
  /\ CodeBlocks.generate_design_try (inr response_text) None "a red circle" =
       (inl (Http.HTTPException 500 "No code block found in AI response"), [])
  /\ CodeBlocks.generate_design (inr response_text) None "a red circle" =
       (inl (Http.HTTPException 500 "500: No code block found in AI response"), [])
  /\ CodeBlocks.generate_design (inr response_text) None "a red circle" <>
       (inl (Http.HTTPException 500 "No code block found in AI response"), []).
Proof.
  cbv zeta. repeat split; try reflexivity.
  vm_compute. discriminate.
Qed.

(** ** C5: the batch loop *)

Section BatchLoop.
Context (self : Batch.Analyzer) (world : Batch.World).

Local Abbreviation analysis := (fun (ip : nat * PostData) =>
  Batch.analyze_single_image self (world (fst ip) (image_path (snd ip)))).

Local Abbreviation entry_of := (fun (ip : nat * PostData) =>
  match fst (analysis ip) with
  | Some f => if Batch.truthy (Some f) then [Batch.mkAnalyzed (snd ip) f] else []
  | None => []
  end).

Local Abbreviation log_of := (fun (ip : nat * PostData) =>
  Batch.Analyzing (fst ip) (image_path (snd ip)) :: map Batch.Act (snd (analysis ip))).

Lemma batch_loop_spec (posts : list PostData) :
  forall (i : nat) (results : list Batch.AnalyzedPost) (log : list Batch.event),
    Batch.batch_loop self world i posts results log =
      (results ++ flat_map entry_of (combine (seq i (List.length posts)) posts),
       log ++ flat_map log_of (combine (seq i (List.length posts)) posts)).
Proof.
  induction posts as [|p posts IH]; intros i results log.
  - cbn. now rewrite !app_nil_r.
  - cbn [Batch.batch_loop List.length seq combine flat_map fst snd].
    destruct (Batch.analyze_single_image self (world i (image_path p))) as [features acts].
    cbn [fst snd].
    destruct features as [f|]; [destruct (Batch.truthy (Some f))|];
      rewrite IH; cbn [app]; now rewrite <- ?app_assoc.
Qed.

Lemma analyzing_events (l : list (nat * PostData)) :
  filter Batch.is_analyzing (flat_map log_of l) =
  map (fun ip => Batch.Analyzing (fst ip) (image_path (snd ip))) l.
Proof.
  induction l as [|ip l IH]; [reflexivity|].
  cbn [flat_map map]. rewrite filter_app, IH. cbn [filter Batch.is_analyzing].
  f_equal. induction (snd (analysis ip)) as [|a acts IHa]; [reflexivity|].
  cbn [map filter Batch.is_analyzing]. exact IHa.
Qed.

End BatchLoop.

(** C5. [analyze_posts_batch] goes through the posts in input order:
    its log is the concatenation, post after post, of one analysis per
    image (one [analyze_single_image] call and the requests it makes), so
    there are as many analyses as posts whatever their outcomes; and the
    returned list holds, in input order, one entry for each post whose
    analysis yielded a truthy feature dict, pairing the post with those
    features. *)
Theorem analyze_posts_batch_spec :
  forall (self : Batch.Analyzer) (world : Batch.World) (posts : list PostData),
    let indexed := combine (seq 0 (List.length posts)) posts in
    let analysis := fun ip : nat * PostData =>
      Batch.analyze_single_image self (world (fst ip) (image_path (snd ip))) in
    let results := fst (Batch.analyze_posts_batch self world posts) in
    let log := snd (Batch.analyze_posts_batch self world posts) in
    log = flat_map (fun ip => Batch.Analyzing (fst ip) (image_path (snd ip))
                                :: map Batch.Act (snd (analysis ip))) indexed
    /\ filter Batch.is_analyzing log =
         map (fun ip => Batch.Analyzing (fst ip) (image_path (snd ip))) indexed
    /\ map snd indexed = posts
    /\ results =
         flat_map (fun ip => match fst (analysis ip) with
                             | Some (c :: f) => [Batch.mkAnalyzed (snd ip) (c :: f)]
                             | _ => []
                             end) indexed.
Proof.
  intros self world posts. cbn zeta. unfold Batch.analyze_posts_batch.
  rewrite batch_loop_spec. cbn [fst snd app]. repeat split.
  - apply analyzing_events.
  - generalize 0%nat. induction posts as [|p posts IH]; intros i; [reflexivity|].
    cbn [List.length seq combine map snd]. now rewrite IH.
  - apply flat_map_ext. intros ip.
    destruct (fst (Batch.analyze_single_image self (world (fst ip) (image_path (snd ip)))))
      as [[|c f]|]; reflexivity.
Qed.

(** ** Dictionaries *)

Section Dict.
Context {V : Type}.
Implicit Types (d : Py.dict V) (k : string) (v : V).

Lemma dict_get_set_same k v d : Py.dict_get k (Py.dict_set k v d) = Some v.
Proof.
  induction d as [|[k' v'] d IH]; cbn [Py.dict_set Py.dict_get].
  - now rewrite String.eqb_refl.
  - destruct (String.eqb k k') eqn:E; cbn [Py.dict_get].
    + now rewrite String.eqb_refl.
    + now rewrite E.
Qed.

Lemma dict_get_set_other k k' v d :
  k <> k' -> Py.dict_get k' (Py.dict_set k v d) = Py.dict_get k' d.
Proof.
  intros Hne. induction d as [|[k0 v0] d IH]; cbn [Py.dict_set Py.dict_get].
  - apply not_eq_sym in Hne. apply String.eqb_neq in Hne. now rewrite Hne.
  - destruct (String.eqb_spec k k0) as [<-|Hk]; cbn [Py.dict_get].
    + apply not_eq_sym in Hne. apply String.eqb_neq in Hne. now rewrite Hne.
    + now rewrite IH.
Qed.

Lemma dict_set_keys k k' v d :
  In k' (Py.keys (Py.dict_set k v d)) <-> k' = k \/ In k' (Py.keys d).
Proof.
  unfold Py.keys. induction d as [|[k0 v0] d IH]; cbn [Py.dict_set map fst In].
  - intuition.
  - destruct (String.eqb_spec k k0) as [<-|Hk]; cbn [map fst In]; [intuition|].
    rewrite IH. intuition.
Qed.

Lemma dict_set_NoDup k v d : NoDup (Py.keys d) -> NoDup (Py.keys (Py.dict_set k v d)).
Proof.
  induction d as [|[k0 v0] d IH]; intros Hnd.
  - cbn. repeat constructor. intros [].
  - cbn [Py.dict_set]. inversion Hnd as [|x l Hx Hl]; subst.
    destruct (String.eqb_spec k k0) as [<-|Hk].
    + now constructor.
    + change (NoDup (k0 :: Py.keys (Py.dict_set k v d))). constructor; [|now apply IH].
      rewrite dict_set_keys. intros [E|Hin]; [now symmetry in E | contradiction].
Qed.

Lemma dict_get_None k d : Py.dict_get k d = None <-> ~ In k (Py.keys d).
Proof.
  unfold Py.keys. induction d as [|[k0 v0] d IH]; cbn [Py.dict_get map fst In]; [intuition|].
  destruct (String.eqb_spec k k0) as [<-|Hk].
  - split; [discriminate | intros H; exfalso; apply H; now left].
  - rewrite IH. split; [intros H [E|Hin]; [now symmetry in E | contradiction] | intuition].
Qed.

Lemma dict_get_In k v d : NoDup (Py.keys d) -> In (k, v) d <-> Py.dict_get k d = Some v.
Proof.
  induction d as [|[k0 v0] d IH]; intros Hnd; cbn [Py.dict_get In].
  - split; [intros [] | discriminate].
  - inversion Hnd as [|x l Hx Hl]; subst.
    destruct (String.eqb_spec k k0) as [<-|Hk].
    + split.
      * intros [E|Hin]; [now injection E as <- |].
        exfalso. apply Hx. apply (in_map fst) in Hin. exact Hin.
      * intros E. injection E as <-. now left.
    + rewrite <- (IH Hl). split; [intros [E|Hin]; [congruence | exact Hin] | now right].
Qed.

Lemma item_of_set_same k v d (missing : V) :
  Common.item_of k (Py.dict_set k v d) missing = v.
Proof. unfold Common.item_of. now rewrite dict_get_set_same. Qed.

Lemma item_of_set_other k k' v d (missing : V) :
  k <> k' -> Common.item_of k' (Py.dict_set k v d) missing = Common.item_of k' d missing.
Proof. intros Hne. unfold Common.item_of. now rewrite dict_get_set_other. Qed.

(** [d.setdefault(k, missing)] leaves every lookup with that default alone. *)
Lemma item_of_default k k' d (missing : V) :
  Common.item_of k'
    (if Py.dict_mem k d then d else Py.dict_set k missing d) missing
  = Common.item_of k' d missing.
Proof.
  unfold Py.dict_mem. destruct (Py.dict_get k d) eqn:E; [reflexivity|].
  destruct (String.eqb_spec k k') as [<-|Hne].
  - rewrite item_of_set_same. unfold Common.item_of. now rewrite E.
  - now apply item_of_set_other.
Qed.

Lemma default_keys k k' d (missing : V) :
  In k' (Py.keys (if Py.dict_mem k d then d else Py.dict_set k missing d))
  <-> k' = k \/ In k' (Py.keys d).
Proof.
  unfold Py.dict_mem. destruct (Py.dict_get k d) eqn:E.
  - split; [now right|]. intros [->|H]; [|exact H].
    destruct (in_dec string_dec k (Py.keys d)) as [Hin|Hout]; [exact Hin|].
    apply dict_get_None in Hout. congruence.
  - apply dict_set_keys.
Qed.

Lemma default_NoDup k d (missing : V) :
  NoDup (Py.keys d) ->
  NoDup (Py.keys (if Py.dict_mem k d then d else Py.dict_set k missing d)).
Proof. intros H. destruct (Py.dict_mem k d); [exact H | now apply dict_set_NoDup]. Qed.

End Dict.

(** ** Counting features *)

(** The counts of one category: no key twice, every count positive. *)
Local Abbreviation counts_ok := (fun counts : Py.dict Z =>
  NoDup (Py.keys counts) /\ forall k v, Py.dict_get k counts = Some v -> 0 < v).

(** The count the dictionary holds for [s] under category [c]. *)
Local Abbreviation held := (fun (c s : string) (ff : Py.dict (Py.dict Z)) =>
  Common.item_of s (Common.item_of c ff []) 0).

Lemma counts_ok_nonneg (counts : Py.dict Z) (k : string) :
  counts_ok counts -> 0 <= Common.item_of k counts 0.
Proof.
  intros [_ Hpos]. unfold Common.item_of.
  destruct (Py.dict_get k counts) as [v|] eqn:E; [|lia].
  specialize (Hpos k v E). lia.
Qed.

Lemma counts_ok_In (counts : Py.dict Z) (k : string) (v : Z) :
  counts_ok counts ->
  In (k, v) counts <-> v = Common.item_of k counts 0 /\ 0 < v.
Proof.
  intros [Hnd Hpos]. rewrite (dict_get_In k v counts Hnd). unfold Common.item_of. split.
  - intros E. rewrite E. split; [reflexivity | now apply (Hpos k)].
  - intros [E Hv]. destruct (Py.dict_get k counts); [now subst | lia].
Qed.

Lemma count_item_held (counts : Py.dict Z) (item s : string) :
  Common.item_of s (Common.count_item counts item) 0 =
  Common.item_of s counts 0 + (if String.eqb (Common.normalize item) s then 1 else 0).
Proof.
  unfold Common.count_item. cbv zeta.
  destruct (String.eqb_spec (Common.normalize item) s) as [<-|Hne].
  - now rewrite item_of_set_same, item_of_default.
  - rewrite item_of_set_other by exact Hne. rewrite item_of_default. lia.
Qed.

Lemma count_item_ok (counts : Py.dict Z) (item : string) :
  counts_ok counts -> counts_ok (Common.count_item counts item).
Proof.
  intros Hok. pose proof Hok as [Hnd Hpos]. unfold Common.count_item. cbv zeta. split.
  - now apply dict_set_NoDup, default_NoDup.
  - intros k v. destruct (String.eqb_spec (Common.normalize item) k) as [<-|Hne].
    + rewrite dict_get_set_same. intros E. injection E as <-.
      rewrite item_of_default.
      pose proof (counts_ok_nonneg counts (Common.normalize item) Hok). lia.
    + rewrite dict_get_set_other by exact Hne.
      unfold Py.dict_mem. destruct (Py.dict_get (Common.normalize item) counts);
        [apply Hpos|].
      rewrite dict_get_set_other by exact Hne. apply Hpos.
Qed.

Lemma count_items_held (items : list string) (s : string) :
  forall counts : Py.dict Z,
    Common.item_of s (fold_left Common.count_item items counts) 0 =
    Common.item_of s counts 0 + Common.listed s items.
Proof.
  unfold Common.listed.
  induction items as [|item items IH]; intros counts; cbn [fold_left filter].
  - cbn. lia.
  - rewrite IH, count_item_held.
    destruct (String.eqb (Common.normalize item) s); cbn [List.length]; lia.
Qed.

Lemma count_items_ok (items : list string) :
  forall counts : Py.dict Z,
    counts_ok counts -> counts_ok (fold_left Common.count_item items counts).
Proof.
  induction items as [|item items IH]; intros counts Hok; cbn [fold_left]; [exact Hok|].
  now apply IH, count_item_ok.
Qed.

(** The whole dictionary: no category twice, the counts of each in order. *)
Local Abbreviation frequency_ok := (fun ff : Py.dict (Py.dict Z) =>
  NoDup (Py.keys ff) /\ forall c counts, Py.dict_get c ff = Some counts -> counts_ok counts).

Lemma frequency_ok_item (ff : Py.dict (Py.dict Z)) (c : string) :
  frequency_ok ff -> counts_ok (Common.item_of c ff []).
Proof.
  intros [_ Hall]. unfold Common.item_of.
  destruct (Py.dict_get c ff) as [counts|] eqn:E; [now apply (Hall c)|].
  split; [constructor | discriminate].
Qed.

Lemma count_category_held (ff : Py.dict (Py.dict Z)) (entry : string * list string)
    (c s : string) :
  held c s (Common.count_category ff entry) =
  held c s ff + (if String.eqb (fst entry) c then Common.listed s (snd entry) else 0).
Proof.
  destruct entry as [category items]. cbn [fst snd Common.count_category].
  destruct (String.eqb_spec category c) as [<-|Hne].
  - now rewrite item_of_set_same, count_items_held, item_of_default.
  - rewrite item_of_set_other by exact Hne. rewrite item_of_default. lia.
Qed.

Lemma count_category_ok (ff : Py.dict (Py.dict Z)) (entry : string * list string) :
  frequency_ok ff -> frequency_ok (Common.count_category ff entry).
Proof.
  intros Hok. pose proof Hok as [Hnd Hall].
  destruct entry as [category items]. cbn [Common.count_category]. split.
  - now apply dict_set_NoDup, default_NoDup.
  - intros c counts. destruct (String.eqb_spec category c) as [<-|Hne].
    + rewrite dict_get_set_same. intros E. injection E as <-.
      apply count_items_ok. rewrite item_of_default. now apply frequency_ok_item.
    + rewrite dict_get_set_other by exact Hne.
      unfold Py.dict_mem. destruct (Py.dict_get category ff); [apply Hall|].
      rewrite dict_get_set_other by exact Hne. apply Hall.
Qed.

Lemma count_category_keys (ff : Py.dict (Py.dict Z)) (entry : string * list string)
    (c : string) :
  In c (Py.keys (Common.count_category ff entry)) <-> c = fst entry \/ In c (Py.keys ff).
Proof.
  destruct entry as [category items]. cbn [fst Common.count_category].
  rewrite dict_set_keys, default_keys. intuition.
Qed.

Lemma count_post_held (p : Batch.AnalyzedPost) (c s : string) (ff : Py.dict (Py.dict Z)) :
  held c s (Common.count_post ff p) = held c s ff + Common.occurrences_in_post c s p.
Proof.
  unfold Common.count_post, Common.occurrences_in_post.
  revert ff. induction (Batch.features p) as [|entry feats IH]; intros ff;
    cbn [fold_left map fold_right]; [lia|].
  rewrite IH, count_category_held. lia.
Qed.

Lemma count_post_ok (p : Batch.AnalyzedPost) (ff : Py.dict (Py.dict Z)) :
  frequency_ok ff -> frequency_ok (Common.count_post ff p).
Proof.
  unfold Common.count_post. revert ff.
  induction (Batch.features p) as [|entry feats IH]; intros ff Hok; cbn [fold_left];
    [exact Hok|].
  now apply IH, count_category_ok.
Qed.

Lemma count_post_keys (p : Batch.AnalyzedPost) (c : string) (ff : Py.dict (Py.dict Z)) :
  In c (Py.keys (Common.count_post ff p))
  <-> In c (Py.keys ff) \/ In c (Py.keys (Batch.features p)).
Proof.
  unfold Common.count_post. revert ff.
  induction (Batch.features p) as [|entry feats IH]; intros ff; cbn [fold_left].
  - cbn. intuition.
  - rewrite IH, count_category_keys. cbn [Py.keys map In]. intuition.
Qed.

Lemma feature_frequency_spec (posts : list Batch.AnalyzedPost) :
  let ff := Common.feature_frequency posts in
  frequency_ok ff
  /\ (forall c, In c (Py.keys ff) <-> In c (Common.categories posts))
  /\ (forall c s, held c s ff = Common.occurrences c s posts).
Proof.
  cbn zeta. unfold Common.feature_frequency.
  assert (H : forall ff0 : Py.dict (Py.dict Z),
    frequency_ok ff0 ->
    let ff := fold_left Common.count_post posts ff0 in
    frequency_ok ff
    /\ (forall c, In c (Py.keys ff) <-> In c (Py.keys ff0) \/ In c (Common.categories posts))
    /\ (forall c s, held c s ff = held c s ff0 + Common.occurrences c s posts)).
  { unfold Common.occurrences, Common.categories.
    induction posts as [|p posts IH]; intros ff0 Hok; cbn [fold_left map fold_right flat_map].
    - split; [exact Hok|]. split; [intros c; cbn; tauto | intros c s; lia].
    - destruct (IH (Common.count_post ff0 p) (count_post_ok p ff0 Hok)) as (H1 & H2 & H3).
      split; [exact H1|]. split.
      + intros c. rewrite H2, count_post_keys, in_app_iff. intuition.
      + intros c s. rewrite H3, count_post_held. lia. }
  destruct (H [] ltac:(split; [constructor | discriminate])) as (H1 & H2 & H3).
  split; [exact H1|]. split.
  - intros c. rewrite H2. cbn. intuition.
  - intros c s. rewrite H3. cbn. lia.
Qed.

(** ** Rounding *)

Lemma round_half_even_close (x : Q) :
  2 * Z.abs (Common.round_half_even x * Zpos (Qden x) - Qnum x) <= Zpos (Qden x).
Proof.
  unfold Common.round_half_even. cbv zeta.
  set (n := Qnum x). set (d := Zpos (Qden x)).
  assert (Hd : 0 < d) by (unfold d; lia).
  pose proof (Z.div_mod n d ltac:(lia)) as Hdiv.
  pose proof (Z.mod_pos_bound n d Hd) as Hmod.
  destruct (2 * (n mod d) <? d) eqn:E1; [apply Z.ltb_lt in E1; nia|].
  apply Z.ltb_ge in E1.
  destruct (d <? 2 * (n mod d)) eqn:E2; [apply Z.ltb_lt in E2; nia|].
  apply Z.ltb_ge in E2.
  destruct (Z.even (n / d)); nia.
Qed.

Lemma round1_close (x : Q) :
  (Qabs (Common.round1 x - x) <= 1 # 20)%Q /\ Qden (Common.round1 x) = 10%positive.
Proof.
  split; [|reflexivity].
  pose proof (round_half_even_close (x * 10)%Q) as H.
  unfold Common.round1. set (r := Common.round_half_even (x * 10)%Q) in *.
  destruct x as [n d]. cbn [Qnum Qden Qmult] in H. rewrite Pos.mul_1_r in H.
  apply Qabs_Qle_condition. unfold Qle, Qminus, Qplus, Qopp. cbn [Qnum Qden].
  split; nia.
Qed.

(** ** C4 and C8: the common features *)

Lemma common_in_In (total_posts : nat) (threshold : Q) (counts : Py.dict Z)
    (e : Common.CommonFeature) :
  In e (Common.common_in total_posts threshold counts) <->
  In (Common.feature e, Common.frequency e) counts
  /\ (threshold <= inject_Z (Common.frequency e) / inject_Z (Z.of_nat total_posts))%Q
  /\ Common.percentage e =
       Common.round1 (inject_Z (Common.frequency e) / inject_Z (Z.of_nat total_posts) * 100)%Q.
Proof.
  unfold Common.common_in. split.
  - intros H. eapply Permutation_in in H; [|symmetry; apply sorted_desc_perm].
    apply in_flat_map in H as ([item count] & Hin & He).
    destruct (Qle_bool threshold _) eqn:E in He; [|destruct He].
    destruct He as [<-|[]]. cbn [Common.feature Common.frequency Common.percentage].
    apply Qle_bool_iff in E. now repeat split.
  - intros (Hin & Hle & Hp).
    eapply Permutation_in; [apply sorted_desc_perm|].
    apply in_flat_map. exists (Common.feature e, Common.frequency e). split; [exact Hin|].
    apply Qle_bool_iff in Hle. rewrite Hle. left.
    destruct e as [f n p]. cbn [Common.feature Common.frequency Common.percentage] in *.
    now rewrite Hp.
Qed.

Lemma common_in_NoDup (total_posts : nat) (threshold : Q) (counts : Py.dict Z) :
  NoDup (Py.keys counts) ->
  NoDup (map Common.feature (Common.common_in total_posts threshold counts)).
Proof.
  intros Hnd. unfold Common.common_in.
  eapply Permutation_NoDup; [apply Permutation_map, sorted_desc_perm|].
  induction counts as [|[item count] counts IH]; [constructor|].
  inversion Hnd as [|x l Hx Hl]; subst. cbn [flat_map].
  destruct (Qle_bool threshold _); cbn [app map Common.feature]; [|now apply IH].
  constructor; [|now apply IH].
  intros Hin. apply Hx. apply in_map_iff in Hin as (e & <- & He).
  apply in_flat_map in He as ([item' count'] & Hin' & He).
  destruct (Qle_bool threshold _) in He; [|destruct He].
  destruct He as [<-|[]]. cbn [Common.feature].
  apply (in_map fst) in Hin'. exact Hin'.
Qed.

Lemma find_common_features_entries (posts : list Batch.AnalyzedPost) (threshold : Q)
    (c : string) (entries : list Common.CommonFeature) :
  In (c, entries) (Common.find_common_features posts threshold) ->
  exists counts : Py.dict Z,
    entries = Common.common_in (List.length posts) threshold counts
    /\ NoDup (Py.keys counts)
    /\ forall s n, In (s, n) counts <-> n = Common.occurrences c s posts /\ 0 < n.
Proof.
  destruct posts as [|p posts]; [intros []|].
  set (all := p :: posts). cbn [Common.find_common_features]. fold all.
  intros H. apply in_map_iff in H as ([c' counts] & E & Hin). injection E as -> <-.
  destruct (feature_frequency_spec all) as ((Hnd & Hok) & _ & Hheld).
  apply (dict_get_In c counts _ Hnd) in Hin.
  exists counts. split; [reflexivity|]. split; [apply (Hok c counts Hin)|].
  intros s n. rewrite (counts_ok_In counts s n (Hok c counts Hin)).
  rewrite <- Hheld. unfold Common.item_of at 3. now rewrite Hin.
Qed.

Lemma find_common_features_keys (p : Batch.AnalyzedPost) (posts : list Batch.AnalyzedPost)
    (threshold : Q) :
  Py.keys (Common.find_common_features (p :: posts) threshold) =
  Py.keys (Common.feature_frequency (p :: posts)).
Proof.
  cbn [Common.find_common_features]. unfold Py.keys. rewrite map_map.
  apply map_ext. now intros [c counts].
Qed.

Lemma occurrences_in_post_nonneg (c s : string) (p : Batch.AnalyzedPost) :
  0 <= Common.occurrences_in_post c s p.
Proof.
  unfold Common.occurrences_in_post, Common.listed.
  induction (Batch.features p) as [|entry feats IH]; cbn [map fold_right]; [lia|].
  destruct (String.eqb (fst entry) c); lia.
Qed.

Lemma posts_containing_le (c s : string) (posts : list Batch.AnalyzedPost) :
  Common.posts_containing c s posts <= Common.occurrences c s posts
  /\ ((exists p, In p posts /\ 2 <= Common.occurrences_in_post c s p) ->
      Common.posts_containing c s posts < Common.occurrences c s posts).
Proof.
  unfold Common.posts_containing, Common.occurrences.
  induction posts as [|p posts [IH1 IH2]]; cbn [filter map fold_right].
  - split; [cbn; lia | intros (p & [] & _)].
  - pose proof (occurrences_in_post_nonneg c s p) as Hp.
    destruct (0 <? Common.occurrences_in_post c s p) eqn:E;
      [apply Z.ltb_lt in E | apply Z.ltb_ge in E]; cbn [List.length]; split; try lia.
    + intros (q & [<-|Hq] & H2); [lia|].
      assert (H : exists p, In p posts /\ 2 <= Common.occurrences_in_post c s p)
        by (now exists q).
      specialize (IH2 H). lia.
    + intros (q & [<-|Hq] & H2); [lia|].
      assert (H : exists p, In p posts /\ 2 <= Common.occurrences_in_post c s p)
        by (now exists q).
      specialize (IH2 H). lia.
Qed.

(** C4. [find_common_features] returns the empty dict for an empty list.
    Otherwise its keys are the feature categories of the posts, and under
    each category it lists exactly the normalized feature strings whose
    number of occurrences [n], divided by the number of analyzed posts, is
    at least the threshold; each comes once, with [n] as its frequency and
    with a percentage that has one decimal and is within 0.05 of
    [n / total * 100]; the list is sorted by frequency, descending. *)
Theorem find_common_features_spec :
  forall (analyzed_posts : list Batch.AnalyzedPost) (threshold : Q),
    Common.find_common_features [] threshold = []
    /\ (analyzed_posts <> [] ->
        let result := Common.find_common_features analyzed_posts threshold in
        let total := inject_Z (Z.of_nat (List.length analyzed_posts)) in
        let count := fun c s => Common.occurrences c s analyzed_posts in
        NoDup (Py.keys result)
        /\ (forall c, In c (Py.keys result) <-> In c (Common.categories analyzed_posts))
        /\ forall c entries, In (c, entries) result ->
             StronglySorted
               (fun a b => Common.frequency b <= Common.frequency a) entries
             /\ NoDup (map Common.feature entries)
             /\ (forall s, In s (map Common.feature entries) <->
                   0 < count c s /\ (threshold <= inject_Z (count c s) / total)%Q)
             /\ (forall e, In e entries ->
                   Common.frequency e = count c (Common.feature e)
                   /\ (Qabs (Common.percentage e
                             - inject_Z (count c (Common.feature e)) / total * 100)
                       <= 1 # 20)%Q
                   /\ Qden (Common.percentage e) = 10%positive)).
Proof.
  intros posts threshold. split; [reflexivity|]. intros Hne. cbn zeta.
  destruct posts as [|p posts]; [congruence|]. clear Hne.
  set (all := p :: posts).
  destruct (feature_frequency_spec all) as ((Hnd & _) & Hkeys & _).
  split; [unfold all; now rewrite find_common_features_keys|].
  split; [intros c; unfold all; rewrite find_common_features_keys; apply Hkeys|].
  intros c entries Hin.
  destruct (find_common_features_entries all threshold c entries Hin)
    as (counts & -> & Hcnd & Hcounts).
  split; [apply (sorted_desc_sorted Common.frequency)|].
  split; [now apply common_in_NoDup|].
  split.
  - intros s. rewrite in_map_iff. split.
    + intros (e & <- & He). apply common_in_In in He as (He & Hle & _).
      apply Hcounts in He as [E Hpos]. rewrite <- E. now split.
    + intros [Hpos Hle].
      exists (Common.mkCommon s (Common.occurrences c s all)
                (Common.round1 (inject_Z (Common.occurrences c s all)
                                / inject_Z (Z.of_nat (List.length all)) * 100)%Q)).
      split; [reflexivity|]. apply common_in_In.
      cbn [Common.feature Common.frequency Common.percentage].
      split; [now apply Hcounts|]. now split.
  - intros e He. apply common_in_In in He as (He & _ & Hp).
    apply Hcounts in He as [E _]. split; [exact E|].
    rewrite Hp, <- E. apply round1_close.
Qed.

Lemma find_common_features_spec_witness :
  Common.find_common_features
    [Batch.mkAnalyzed (mkPost "a.png" 10) [("lighting", ["Soft"; "warm"])];
     Batch.mkAnalyzed (mkPost "b.png" 7) [("lighting", [" soft "])]] (3 # 10)
  = [("lighting",
      [Common.mkCommon "soft" 2 (1000 # 10); Common.mkCommon "warm" 1 (500 # 10)])]
  /\ NoDup (Py.keys (Common.find_common_features
       [Batch.mkAnalyzed (mkPost "a.png" 10) [("lighting", ["Soft"; "warm"])];
        Batch.mkAnalyzed (mkPost "b.png" 7) [("lighting", [" soft "])]] (3 # 10))).
Proof.
  split; [reflexivity|].
  destruct (find_common_features_spec
              [Batch.mkAnalyzed (mkPost "a.png" 10) [("lighting", ["Soft"; "warm"])];
               Batch.mkAnalyzed (mkPost "b.png" 7) [("lighting", [" soft "])]] (3 # 10))
    as [_ H].
  apply H. discriminate.
Defined.

(** C8. The frequency reported for a feature is the total number of
    times its normalized string is listed, over all posts and with
    repetitions inside one post counted; it is never less than the number
    of posts that list the feature, and it is greater as soon as one post
    lists the feature twice.  The percentage is computed from that count,
    not from the number of posts: it has one decimal, lies within 0.05 of
    count / total_posts * 100, and so exceeds 100 once that quotient
    exceeds 100.05; for one post that lists "Blue" and "blue " the
    feature "blue" is reported with frequency 2 and percentage 200. *)
Theorem frequency_counts_occurrences :
  (forall posts threshold c entries e,
     In (c, entries) (Common.find_common_features posts threshold) ->
     In e entries ->
     let share :=
       (inject_Z (Common.frequency e)
        / inject_Z (Z.of_nat (List.length posts)) * 100)%Q in
     Common.frequency e = Common.occurrences c (Common.feature e) posts
     /\ Common.posts_containing c (Common.feature e) posts <= Common.frequency e
     /\ (Qabs (Common.percentage e - share) <= 1 # 20)%Q
     /\ Qden (Common.percentage e) = 10%positive
     /\ ((2001 # 20 < share)%Q -> (100 < Common.percentage e)%Q))
  /\ (forall posts c s,
        (exists p, In p posts /\ 2 <= Common.occurrences_in_post c s p) ->
        Common.posts_containing c s posts < Common.occurrences c s posts)
  /\ (let posts := [Batch.mkAnalyzed (mkPost "a.png" 10)
                      [("color_palette", ["Blue"; "blue "])]] in
      Common.find_common_features posts (3 # 10) =
        [("color_palette", [Common.mkCommon "blue" 2 (2000 # 10)])]
      /\ Common.posts_containing "color_palette" "blue" posts = 1
      /\ (100 < 2000 # 10)%Q).
Proof.
  split; [|split].
  - intros posts threshold c entries e Hin He. cbn zeta.
    destruct (find_common_features_entries posts threshold c entries Hin)
      as (counts & -> & _ & Hcounts).
    apply common_in_In in He as (He & _ & Hp).
    apply Hcounts in He as [E _]. split; [exact E|].
    split; [rewrite E; apply posts_containing_le|].
    set (share := (inject_Z (Common.frequency e)
                   / inject_Z (Z.of_nat (List.length posts)) * 100)%Q) in *.
    destruct (round1_close share) as [Hclose Hden]. rewrite Hp.
    split; [exact Hclose|]. split; [exact Hden|].
    intros Hshare. apply Qabs_Qle_condition in Hclose as [Hlow _].
    apply Qlt_le_trans with (share - (1 # 20))%Q.
    + apply (Qplus_lt_l _ _ (1 # 20)).
      setoid_replace (share - (1 # 20) + (1 # 20))%Q with share by ring.
      exact Hshare.
    + apply (Qplus_le_l _ _ (- share)).
      setoid_replace (share - (1 # 20) + - share)%Q with (- (1 # 20))%Q by ring.
      exact Hlow.
  - intros posts c s. apply posts_containing_le.
  - cbv zeta. repeat split.
Qed.

Lemma frequency_counts_occurrences_witness :
  Common.posts_containing "color_palette" "blue"
    [Batch.mkAnalyzed (mkPost "a.png" 10) [("color_palette", ["Blue"; "blue "])]]
  < Common.occurrences "color_palette" "blue"
      [Batch.mkAnalyzed (mkPost "a.png" 10) [("color_palette", ["Blue"; "blue "])]].
Proof.
  destruct frequency_counts_occurrences as (_ & H & _).
  apply H. eexists. split; [now left|]. vm_compute. discriminate.
Defined.

(** ** The model on concrete inputs *)

Example normalize_example : Common.normalize "  Bold Colors " = "bold colors".
Proof. reflexivity. Qed.

Example sorted_desc_is_stable :
  Py.sorted_desc likes
    [mkPost "a" 1; mkPost "b" 5; mkPost "c" 5; mkPost "d" 3]
  = [mkPost "b" 5; mkPost "c" 5; mkPost "d" 3; mkPost "a" 1].
Proof. reflexivity. Qed.

Example categorize_example :
  categorize_posts_by_popularity
    [mkPost "a" 1; mkPost "b" 5; mkPost "c" 5; mkPost "d" 3] (5 # 10)
  = ([mkPost "b" 5; mkPost "c" 5], [mkPost "d" 3; mkPost "a" 1]).
Proof. reflexivity. Qed.

Example categorize_keeps_one_post :
  categorize_posts_by_popularity [mkPost "a" 1; mkPost "b" 5] (1 # 10)
  = ([mkPost "b" 5], [mkPost "a" 1]).
Proof. reflexivity. Qed.

Example retry_example :
  Retry._retry_with_backoff 5 20
    (fun k => match k with
              | 0%nat => Retry.Raises "429 RESOURCE_EXHAUSTED"
              | 1%nat => Retry.Raises "Quota exceeded for metric"
              | _ => Retry.Returns "features"
              end)
  = (Some "features",
     [Retry.WaitIfNeeded; Retry.CallFunc 0; Retry.Sleep 20;
      Retry.WaitIfNeeded; Retry.CallFunc 1; Retry.Sleep 60;
      Retry.WaitIfNeeded; Retry.CallFunc 2]).
Proof. reflexivity. Qed.

Example retry_gives_up :
  Retry._retry_with_backoff 2 20 (fun _ => @Retry.Raises string "rate limit")
  = (None,
     [Retry.WaitIfNeeded; Retry.CallFunc 0; Retry.Sleep 20;
      Retry.WaitIfNeeded; Retry.CallFunc 1]).
Proof. reflexivity. Qed.

Example retry_other_error :
  Retry._retry_with_backoff 5 20 (fun _ => @Retry.Raises string "file not found")
  = (None, [Retry.WaitIfNeeded; Retry.CallFunc 0]).
Proof. reflexivity. Qed.

(** The analyzer's own limiter, [RateLimiter(5, 12.0)], called without
    pause: the minimum delay alone spaces the requests. *)
Example default_limiter_example :
  map fst (RateLimiter.run (repeat (RateLimiter.mkTiming 0 0 0) 7) 0
             (RateLimiter.init 5 (12 * RateLimiter.second)))
  = map (fun x => x * RateLimiter.second) [0; 12; 24; 36; 48; 60; 72].
Proof. vm_compute. reflexivity. Qed.

(** The second pattern also matches from the closing fence of one block
    to the opening fence of the next. *)
Example extract_two_blocks :
  let nl := CodeBlocks.nl in
  CodeBlocks.extract_code_from_response
    (Some ("Sure:" ++ nl ++ "```js" ++ nl ++ "a();" ++ nl ++ "```" ++ nl
           ++ "and" ++ nl ++ "```" ++ nl ++ "b();" ++ nl ++ "```"))%string
  = Some ("a();" ++ nl ++ nl ++ nl ++ "and" ++ nl)%string.
Proof. reflexivity. Qed.

Example extract_tagged_before_bare :
  let nl := CodeBlocks.nl in
  CodeBlocks.extract_code_from_response
    (Some ("```" ++ nl ++ "b();" ++ nl ++ "``` and ```ts" ++ nl ++ "c```"))%string
  = Some ("c" ++ nl ++ nl ++ "b();" ++ nl)%string.
Proof. reflexivity. Qed.

Example extract_unknown_language :
  CodeBlocks.extract_code_from_response
    (Some ("```python" ++ CodeBlocks.nl ++ "x = 1```"))%string = None.
Proof. reflexivity. Qed.

Example generate_design_saves_code :
  CodeBlocks.generate_design
    (inr (Some ("```js" ++ CodeBlocks.nl ++ "start();```")%string)) None "a circle"
  = (inr (CodeBlocks.mkDesign true "Design code generated and saved to src/code.js"
            "start();" "a circle"),
     [CodeBlocks.WriteFile "src/code.js" "start();"]).
Proof. reflexivity. Qed.

Example glob_examples :
  map (Storage.glob_match "*.csv") ["posts.csv"; ".csv"; "posts.csv.bak"; "csv"]
    = [true; true; false; false]
  /\ map (Storage.glob_match "brand_guidelines_*.pdf")
       ["brand_guidelines_2024.pdf"; "brand_guidelines.pdf"; "brand_guidelines_.pdf"]
    = [true; false; true]
  /\ map (Storage.glob_match "brand_guidelines*")
       ["brand_guidelines"; "brand_guidelines_2024.txt"; "my_brand_guidelines.pdf"]
    = [true; true; false].
Proof. repeat split. Qed.

Example newest_takes_first_of_equals :
  Storage.newest [Storage.mkFile "a.csv" 5; Storage.mkFile "b.csv" 9;
                  Storage.mkFile "c.csv" 9]
  = Some (Storage.mkFile "b.csv" 9).
Proof. reflexivity. Qed.

Example post_with_token_publishes :
  LinkedIn.post_linkedin
    (fun (_ : LinkedIn.json) (_ : string) (_ : unit) =>
       (inr tt, [LinkedIn.ApiCall "https://api.linkedin.com/v2/userinfo"]))
    (Some [("access_token", LinkedIn.JStr "token")]) "hello" tt
  = (inr tt, [LinkedIn.ApiCall "https://api.linkedin.com/v2/userinfo"]).
Proof. reflexivity. Qed.

Example parse_compliant_example :
  let nl := CodeBlocks.nl in
  Compliance._parse_response
    ("Review" ++ nl ++ "Compliance Status: Compliant" ++ nl ++ "SUMMARY: fine")%string
  = Compliance.mkParsed
      ("Review" ++ nl ++ "Compliance Status: Compliant" ++ nl ++ "SUMMARY: fine")%string
      true "COMPLIANCE STATUS: COMPLIANT".
Proof. reflexivity. Qed.

Example parse_non_compliant_example :
  Compliance.compliant
    (Compliance._parse_response "COMPLIANCE STATUS: NON-COMPLIANT") = false.
Proof. reflexivity. Qed.

Example batch_example :
  let world : Batch.World := fun i _ k =>
    match i, k with
    | 0%nat, 0%nat => Retry.Raises "429"
    | 0%nat, _ => Retry.Returns [("lighting", ["soft"])]
    | 1%nat, _ => Retry.Raises "cannot identify image file"
    | _, _ => Retry.Returns []
    end in
  Batch.analyze_posts_batch (Batch.mkAnalyzer 5 20) world
    [mkPost "a.png" 3; mkPost "b.png" 2; mkPost "c.png" 1]
  = ([Batch.mkAnalyzed (mkPost "a.png" 3) [("lighting", ["soft"])]],
     [Batch.Analyzing 0 "a.png";
      Batch.Act Retry.WaitIfNeeded; Batch.Act (Retry.CallFunc 0);
      Batch.Act (Retry.Sleep 20);
      Batch.Act Retry.WaitIfNeeded; Batch.Act (Retry.CallFunc 1);
      Batch.Analyzing 1 "b.png";
      Batch.Act Retry.WaitIfNeeded; Batch.Act (Retry.CallFunc 0);
      Batch.Analyzing 2 "c.png";
      Batch.Act Retry.WaitIfNeeded; Batch.Act (Retry.CallFunc 0)]).
Proof. reflexivity. Qed.

(* ================================================================== *)
(** * Part III: further properties of the code                          *)
(* ================================================================== *)

(** ** The retry loop: what it logs *)

Section RetryLog.
Context {V : Type} (n : Z) (b : N) (func : nat -> Retry.outcome V).

Lemma retry_loop_requests (len : nat) :
  forall a : nat,
    exists m : nat,
      (m <= len)%nat
      /\ Trace.requests (snd (Retry.retry_loop n b func (seq a len))) =
           flat_map (fun j => [Retry.WaitIfNeeded; Retry.CallFunc j]) (seq a m)
      /\ Trace.calls (snd (Retry.retry_loop n b func (seq a len))) = m
      /\ forall v, fst (Retry.retry_loop n b func (seq a len)) = Some v ->
                   (1 <= m)%nat /\ func (a + m - 1)%nat = Retry.Returns v.
Proof.
  induction len as [|len IH]; intros a.
  - exists 0%nat. cbn. repeat split; [lia | discriminate | discriminate].
  - cbn [seq Retry.retry_loop].
    assert (Hone : forall r : option V,
      (forall v, r = Some v -> func a = Retry.Returns v) ->
      exists m : nat,
        (m <= S len)%nat
        /\ Trace.requests (snd (r, [Retry.WaitIfNeeded; Retry.CallFunc a])) =
             flat_map (fun j => [Retry.WaitIfNeeded; Retry.CallFunc j]) (seq a m)
        /\ Trace.calls (snd (r, [Retry.WaitIfNeeded; Retry.CallFunc a])) = m
        /\ forall v, fst (r, [Retry.WaitIfNeeded; Retry.CallFunc a]) = Some v ->
                     (1 <= m)%nat /\ func (a + m - 1)%nat = Retry.Returns v).
    { intros r Hr. exists 1%nat. cbn. repeat split; try lia.
      replace (a + 1 - 1)%nat with a by lia. now apply Hr. }
    destruct (func a) as [v|e] eqn:Ea.
    + apply Hone. now intros v' [= <-].
    + destruct (Retry.is_rate_limit e); [|apply Hone; discriminate].
      destruct (Z.of_nat a <? n - 1); [|apply Hone; discriminate].
      destruct (IH (S a)) as (m & Hm & Hreq & Hcalls & Hres).
      destruct (Retry.retry_loop n b func (seq (S a) len)) as [r acts].
      cbn [fst snd] in *. exists (S m). repeat split.
      * lia.
      * cbn [seq flat_map app]. unfold Trace.requests in *.
        cbn [filter Trace.is_sleep negb]. now rewrite Hreq.
      * unfold Trace.calls in *. cbn [filter Trace.is_call List.length]. now rewrite Hcalls.
      * lia.
      * destruct (Hres v H) as [H1 H2].
        replace (a + S m - 1)%nat with (S a + m - 1)%nat by lia. exact H2.
Qed.

Lemma slept_backoff (k : nat) :
  forall a : nat,
    2 * Trace.slept
          (flat_map (fun j => [Retry.WaitIfNeeded; Retry.CallFunc j;
                               Retry.Sleep (Z.of_N b * 3 ^ Z.of_nat j)]) (seq a k))
    = Z.of_N b * 3 ^ Z.of_nat a * (3 ^ Z.of_nat k - 1)
    /\ Trace.calls
         (flat_map (fun j => [Retry.WaitIfNeeded; Retry.CallFunc j;
                              Retry.Sleep (Z.of_N b * 3 ^ Z.of_nat j)]) (seq a k)) = k.
Proof.
  unfold Trace.slept, Trace.calls.
  induction k as [|k IH]; intros a; [cbn; split; [lia | reflexivity]|].
  destruct (IH (S a)) as [IH1 IH2].
  cbn [seq flat_map app map fold_right filter Trace.is_call List.length].
  split; [|now rewrite IH2].
  rewrite !Nat2Z.inj_succ, !Z.pow_succ_r in * by lia.
  set (pa := 3 ^ Z.of_nat a) in *. set (pk := 3 ^ Z.of_nat k) in *.
  set (s := fold_right Z.add 0 _) in *. lia.
Qed.

End RetryLog.

(** X1. Whatever the wrapped function does, [_retry_with_backoff] calls
    it at most [max_retries] times (not at all when [max_retries <= 0]),
    numbers the attempts 0, 1, 2, ... and consults the rate limiter
    immediately before every call; a value it returns is the value of the
    last call it made. *)
Theorem retry_calls_follow_the_limiter :
  forall (V : Type) (n : Z) (b : N) (func : nat -> Retry.outcome V),
    let run := Retry._retry_with_backoff n b func in
    exists m : nat,
      (m <= Z.to_nat n)%nat
      /\ Trace.requests (snd run) =
           flat_map (fun j => [Retry.WaitIfNeeded; Retry.CallFunc j]) (seq 0 m)
      /\ Trace.calls (snd run) = m
      /\ forall v, fst run = Some v ->
                   (1 <= m)%nat /\ func (m - 1)%nat = Retry.Returns v.
Proof.
  intros V n b func. cbn zeta. unfold Retry._retry_with_backoff.
  destruct (retry_loop_requests n b func (Z.to_nat n) 0) as (m & H1 & H2 & H3 & H4).
  exists m. repeat split; try assumption; apply (H4 v H).
Qed.

(** X2. When every attempt meets a rate-limit error and
    [max_retries = n >= 1], the function is called [n] times, the loop
    gives up with [None], and it has slept [b * (3^(n-1) - 1) / 2] seconds
    in all (800 s for the analyzer's 5 retries and base delay 20). *)
Theorem retry_worst_case_backoff :
  forall (V : Type) (n : Z) (b : N) (func : nat -> Retry.outcome V),
    1 <= n ->
    (forall j, exists e, func j = Retry.Raises e /\ Retry.is_rate_limit e = true) ->
    let run := Retry._retry_with_backoff n b func in
    fst run = None
    /\ Trace.calls (snd run) = Z.to_nat n
    /\ 2 * Trace.slept (snd run) = Z.of_N b * (3 ^ (n - 1) - 1).
Proof.
  intros V n b func Hn Hrl. cbn zeta.
  set (k := Z.to_nat (n - 1)).
  rewrite (retry_until n b func k); [| lia | intros; apply Hrl].
  cbn [fst snd Retry.retry_loop].
  destruct (Hrl k) as (e & -> & ->).
  replace (Z.of_nat k <? n - 1) with false by (symmetry; apply Z.ltb_ge; lia).
  destruct (slept_backoff b k 0) as [Hs Hc]. cbn [fst snd]. repeat split.
  - unfold Trace.calls in *. rewrite filter_app, length_app, Hc. cbn. lia.
  - unfold Trace.slept in *. rewrite map_app, fold_right_app. cbn [map fold_right].
    replace (n - 1) with (Z.of_nat k) by lia.
    set (t := fold_right Z.add 0 _) in *.
    replace (fold_right Z.add (0 + (0 + 0)) _) with t; [|unfold t; f_equal].
    rewrite Hs. cbn [Z.of_nat Z.pow]. lia.
Qed.

Lemma retry_worst_case_backoff_witness :
  Trace.slept (snd (Retry._retry_with_backoff 5 20
                      (fun _ => @Retry.Raises unit "429 RESOURCE_EXHAUSTED"))) = 800.
Proof.
  destruct (retry_worst_case_backoff unit 5 20
              (fun _ => Retry.Raises "429 RESOURCE_EXHAUSTED") ltac:(lia)) as (_ & _ & H).
  - intros j. eexists. split; reflexivity.
  - change (Z.of_N 20 * (3 ^ (5 - 1) - 1)) with 1600 in H. lia.
Defined.

(** ** Unwrapping the model's JSON answer *)

Lemma lstrip_length (s : string) : (String.length (Str.lstrip s) <= String.length s)%nat.
Proof.
  induction s as [|c s IH]; cbn [Str.lstrip]; [lia|].
  destruct (Str.is_space c); cbn [String.length]; lia.
Qed.

Lemma rstrip_length (s : string) : (String.length (Str.rstrip s) <= String.length s)%nat.
Proof.
  induction s as [|c s IH]; cbn [Str.rstrip]; [lia|].
  destruct (Str.rstrip s); [destruct (Str.is_space c)|]; cbn [String.length] in *; lia.
Qed.

Lemma strip_fixed (s : string) :
  Str.strip s = s -> Str.lstrip s = s /\ Str.rstrip s = s.
Proof.
  unfold Str.strip. intros H.
  assert (Hl : Str.lstrip s = s).
  { pose proof (rstrip_length (Str.lstrip s)) as H1. rewrite H in H1.
    destruct s as [|c s]; [reflexivity|]. cbn [Str.lstrip] in *.
    destruct (Str.is_space c); [|reflexivity].
    pose proof (lstrip_length s). cbn [String.length] in H1. lia. }
  split; [exact Hl | now rewrite Hl in H].
Qed.

Lemma lstrip_app (s t : string) :
  s <> EmptyString -> Str.lstrip s = s -> Str.lstrip (s ++ t) = (s ++ t)%string.
Proof.
  destruct s as [|c s]; [congruence|]. intros _ H. cbn [Str.lstrip append] in *.
  destruct (Str.is_space c); [|reflexivity].
  pose proof (lstrip_length s) as Hlen. rewrite H in Hlen. cbn [String.length] in Hlen. lia.
Qed.

Lemma rstrip_app_blank (s t : string) :
  Str.rstrip t = EmptyString -> Str.rstrip (s ++ t) = Str.rstrip s.
Proof.
  intros Ht. induction s as [|c s IH]; cbn [append Str.rstrip]; [exact Ht|].
  now rewrite IH.
Qed.

Lemma rstrip_app_kept (s t : string) :
  Str.rstrip t = t -> t <> EmptyString -> Str.rstrip (s ++ t) = (s ++ t)%string.
Proof.
  intros Ht Hne. induction s as [|c s IH]; cbn [append Str.rstrip]; [exact Ht|].
  rewrite IH. destruct (s ++ t)%string eqn:E; [|reflexivity].
  destruct s; [cbn in E; congruence | discriminate].
Qed.

Lemma strip_prefix_app (p q s : string) :
  Str.strip_prefix (p ++ q) s =
  match Str.strip_prefix p s with
  | Some r => Str.strip_prefix q r
  | None => None
  end.
Proof.
  revert s. induction p as [|a p IH]; intros s; cbn [append Str.strip_prefix]; [reflexivity|].
  destruct s as [|c s]; [reflexivity|]. destruct (Ascii.eqb a c); [apply IH | reflexivity].
Qed.

Lemma string_length_app (s t : string) :
  String.length (s ++ t) = (String.length s + String.length t)%nat.
Proof. induction s as [|c s IH]; cbn [append String.length]; [reflexivity | now rewrite IH]. Qed.

Lemma string_app_assoc (s t u : string) : ((s ++ t) ++ u = s ++ t ++ u)%string.
Proof. induction s as [|c s IH]; cbn [append]; [reflexivity | now rewrite IH]. Qed.

Lemma lstrip_blank_app (s t : string) :
  Str.lstrip s = EmptyString -> Str.lstrip (s ++ t) = Str.lstrip t.
Proof.
  induction s as [|c s IH]; cbn [append Str.lstrip]; [reflexivity|].
  destruct (Str.is_space c); [exact IH | discriminate].
Qed.

Lemma strip_suffix_app (suffix pre : string) :
  JsonReply.strip_suffix suffix (pre ++ suffix) = Some pre.
Proof.
  induction pre as [|c pre IH].
  - cbn [append]. destruct suffix; cbn [JsonReply.strip_suffix];
      now rewrite String.eqb_refl.
  - cbn [append]. cbn [JsonReply.strip_suffix].
    destruct (String.eqb_spec (String c (pre ++ suffix)) suffix) as [E|_].
    + apply (f_equal String.length) in E. cbn [String.length] in E.
      rewrite string_length_app in E. lia.
    + now rewrite IH.
Qed.

(** X3. Let [body] be a text without surrounding whitespace that neither
    starts nor ends with a fence.  Whether the model answers with [body]
    alone, inside a [```json] fence or inside a bare fence, with
    whitespace around or not, [_make_request] hands exactly [body] to
    [json.loads]. *)
Theorem clean_response_text_unwraps :
  forall body before after : string,
    Str.strip body = body ->
    Str.strip_prefix "```" body = None ->
    JsonReply.strip_suffix "```" body = None ->
    Str.lstrip before = EmptyString -> Str.rstrip after = EmptyString ->
    let nl := CodeBlocks.nl in
    JsonReply.clean_response_text
      (before ++ "```json" ++ nl ++ body ++ nl ++ "```" ++ after) = body
    /\ JsonReply.clean_response_text
         (before ++ "```" ++ nl ++ body ++ nl ++ "```" ++ after) = body
    /\ (body <> EmptyString ->
        JsonReply.clean_response_text (before ++ body ++ after) = body).
Proof.
  intros body before after Hbody Hpre Hsuf Hbefore Hafter. cbn zeta.
  destruct (strip_fixed body Hbody) as [Hl Hr].
  assert (Hinner : Str.strip (CodeBlocks.nl ++ body ++ CodeBlocks.nl) = body).
  { unfold Str.strip. change (Str.lstrip (CodeBlocks.nl ++ body ++ CodeBlocks.nl))
      with (Str.lstrip (body ++ CodeBlocks.nl)).
    destruct body as [|c body]; [reflexivity|].
    rewrite lstrip_app by (discriminate || exact Hl).
    rewrite rstrip_app_blank by reflexivity. exact Hr. }
  assert (Hfenced : forall opening : string,
    Str.lstrip opening = opening -> opening <> EmptyString ->
    Str.strip (before ++ opening ++ CodeBlocks.nl ++ body ++ CodeBlocks.nl ++ "```" ++ after)
    = (opening ++ CodeBlocks.nl ++ body ++ CodeBlocks.nl ++ "```")%string).
  { intros opening Ho Hne. unfold Str.strip.
    rewrite (lstrip_blank_app before) by exact Hbefore.
    rewrite lstrip_app by assumption.
    replace (opening ++ CodeBlocks.nl ++ body ++ CodeBlocks.nl ++ "```" ++ after)%string
      with (((opening ++ CodeBlocks.nl ++ body ++ CodeBlocks.nl) ++ "```") ++ after)%string
      by (now rewrite !string_app_assoc).
    rewrite rstrip_app_blank by exact Hafter.
    rewrite rstrip_app_kept by (reflexivity || discriminate).
    now rewrite !string_app_assoc. }
  assert (Hclose :
    JsonReply.strip_suffix "```" (CodeBlocks.nl ++ body ++ CodeBlocks.nl ++ "```")
    = Some (CodeBlocks.nl ++ body ++ CodeBlocks.nl)%string).
  { replace (CodeBlocks.nl ++ body ++ CodeBlocks.nl ++ "```")%string
      with ((CodeBlocks.nl ++ body ++ CodeBlocks.nl) ++ "```")%string
      by (now rewrite !string_app_assoc).
    apply strip_suffix_app. }
  unfold JsonReply.clean_response_text. cbv zeta. repeat split.
  - rewrite (Hfenced "```json") by (reflexivity || discriminate).
    change (Str.strip_prefix "```json"
              ("```json" ++ CodeBlocks.nl ++ body ++ CodeBlocks.nl ++ "```"))
      with (Some (CodeBlocks.nl ++ body ++ CodeBlocks.nl ++ "```")%string).
    cbv beta iota.
    change (Str.strip_prefix "```" (CodeBlocks.nl ++ body ++ CodeBlocks.nl ++ "```"))
      with (@None string).
    cbv beta iota. now rewrite Hclose.
  - rewrite (Hfenced "```") by (reflexivity || discriminate).
    change (Str.strip_prefix "```json"
              ("```" ++ CodeBlocks.nl ++ body ++ CodeBlocks.nl ++ "```"))
      with (@None string).
    cbv beta iota.
    change (Str.strip_prefix "```"
              ("```" ++ CodeBlocks.nl ++ body ++ CodeBlocks.nl ++ "```"))
      with (Some (CodeBlocks.nl ++ body ++ CodeBlocks.nl ++ "```")%string).
    cbv beta iota. now rewrite Hclose.
  - intros Hne.
    assert (Hs : Str.strip (before ++ body ++ after) = body).
    { unfold Str.strip. rewrite (lstrip_blank_app before) by exact Hbefore.
      rewrite lstrip_app by assumption. now rewrite rstrip_app_blank. }
    rewrite Hs.
    change "```json" with ("```" ++ "json")%string.
    rewrite strip_prefix_app, Hpre. cbv beta iota. rewrite Hpre, Hsuf. exact Hbody.
Qed.

Lemma clean_response_text_unwraps_witness :
  JsonReply.clean_response_text
    ("```json" ++ CodeBlocks.nl ++ "{}" ++ CodeBlocks.nl ++ "```")
  = "{}".
Proof.
  exact (proj1 (clean_response_text_unwraps "{}" "" ""
                  eq_refl eq_refl eq_refl eq_refl eq_refl)).
Defined.

(** ** Popularity: edge cases and ties *)

Lemma insert_desc_filter {A : Type} (key : A -> Z) (v : Z) (x : A) (l : list A) :
  filter (fun y => key y =? v) (Py.insert_desc key x l) =
  filter (fun y => key y =? v) (x :: l).
Proof.
  induction l as [|y l IH]; [reflexivity|].
  cbn [Py.insert_desc]. destruct (key y <=? key x) eqn:E; [reflexivity|].
  apply Z.leb_gt in E. cbn [filter] in *. rewrite IH.
  destruct (key x =? v) eqn:Ex; [|reflexivity].
  apply Z.eqb_eq in Ex.
  replace (key y =? v) with false by (symmetry; apply Z.eqb_neq; lia).
  reflexivity.
Qed.

Lemma sorted_desc_filter {A : Type} (key : A -> Z) (v : Z) (l : list A) :
  filter (fun y => key y =? v) (Py.sorted_desc key l) = filter (fun y => key y =? v) l.
Proof.
  induction l as [|x l IH]; [reflexivity|].
  cbn [Py.sorted_desc]. rewrite insert_desc_filter. cbn [filter]. now rewrite IH.
Qed.





(** X5. Posts with the same number of likes keep the order they had in
    the input: read from the popular group on into the less popular one,
    the posts of any given number of likes come as in the input. *)
Theorem categorize_keeps_order_of_ties :
  forall (all_posts : list PostData) (p : Q) (v : Z),
    let popular := fst (categorize_posts_by_popularity all_posts p) in
    let less_popular := snd (categorize_posts_by_popularity all_posts p) in
    filter (fun q => likes q =? v) (popular ++ less_popular)
    = filter (fun q => likes q =? v) all_posts.
Proof.
  intros all_posts p v. cbn zeta.
  unfold categorize_posts_by_popularity, Py.slice_to, Py.slice_from. cbn [fst snd].
  rewrite firstn_skipn. apply sorted_desc_filter.
Qed.

(** ** The complete analysis *)

Lemma combine_seq_snd {A : Type} (l : list A) :
  forall i : nat, map snd (combine (seq i (List.length l)) l) = l.
Proof.
  induction l as [|x l IH]; intros i; [reflexivity|].
  cbn [List.length seq combine map snd]. now rewrite IH.
Qed.

Lemma analysed_paths_acts (acts : list Retry.action) :
  Analysis.analysed_paths (map Batch.Act acts) = [].
Proof. induction acts as [|a acts IH]; [reflexivity | exact IH]. Qed.

Lemma analysed_paths_app (l1 l2 : list Batch.event) :
  Analysis.analysed_paths (l1 ++ l2) =
  Analysis.analysed_paths l1 ++ Analysis.analysed_paths l2.
Proof. unfold Analysis.analysed_paths. apply flat_map_app. Qed.

Lemma paths_of_analyses (g : nat * PostData -> list Retry.action)
    (ips : list (nat * PostData)) :
  Analysis.analysed_paths
    (flat_map (fun ip => Batch.Analyzing (fst ip) (image_path (snd ip))
                           :: map Batch.Act (g ip)) ips)
  = map image_path (map snd ips).
Proof.
  induction ips as [|ip ips IH]; [reflexivity|].
  cbn [flat_map map]. rewrite analysed_paths_app, IH.
  unfold Analysis.analysed_paths at 1. cbn [flat_map].
  fold (Analysis.analysed_paths (map Batch.Act (g ip))).
  now rewrite analysed_paths_acts.
Qed.

Lemma at_most_one_each (g : nat * PostData -> option Batch.Features)
    (ips : list (nat * PostData)) :
  (List.length
     (flat_map (fun ip => match g ip with
                          | Some f => if Batch.truthy (Some f)
                                      then [Batch.mkAnalyzed (snd ip) f] else []
                          | None => []
                          end) ips)
   <= List.length ips)%nat.
Proof.
  induction ips as [|ip ips IH]; [cbn; lia|].
  cbn [flat_map]. rewrite length_app. cbn [List.length].
  destruct (g ip) as [f|]; [destruct (Batch.truthy (Some f))|]; cbn [List.length]; lia.
Qed.

Lemma batch_paths (self : Batch.Analyzer) (world : Batch.World) (l : list PostData) :
  Analysis.analysed_paths (snd (Batch.analyze_posts_batch self world l)) = map image_path l
  /\ (List.length (fst (Batch.analyze_posts_batch self world l)) <= List.length l)%nat.
Proof.
  unfold Batch.analyze_posts_batch. rewrite batch_loop_spec. cbn [fst snd app]. split.
  - now rewrite paths_of_analyses, combine_seq_snd.
  - pose proof (length_combine (seq 0 (List.length l)) l) as Hc.
    rewrite length_seq, Nat.min_id in Hc.
    etransitivity; [apply (at_most_one_each
      (fun ip => fst (Batch.analyze_single_image self (world (fst ip) (image_path (snd ip)))))) |].
    now rewrite Hc.
Qed.

(** X6. [run_complete_analysis] analyses every image exactly once, in
    descending order of likes (the popular group first); the two group
    counts add up to [total_posts], the number of input posts; no group
    reports more analysed posts than it has posts; and [insights] is
    never empty. *)
Theorem run_complete_analysis_accounts :
  forall (self : Batch.Analyzer) (world_popular world_less : Batch.World)
         (insights_request : nat -> Retry.outcome (option string)) (now : string)
         (all_posts : list PostData) (p t : Q),
    let report := fst (Analysis.run_complete_analysis self world_popular world_less
                         insights_request now all_posts p t) in
    let log := snd (Analysis.run_complete_analysis self world_popular world_less
                      insights_request now all_posts p t) in
    let popular := Analysis.popular_posts report in
    let less_popular := Analysis.less_popular_posts report in
    Analysis.analysed_paths log = map image_path (Py.sorted_desc likes all_posts)
    /\ Analysis.posts popular ++ Analysis.posts less_popular = Py.sorted_desc likes all_posts
    /\ (Analysis.count popular + Analysis.count less_popular = List.length all_posts)%nat
    /\ Analysis.total_posts (Analysis.metadata report) = List.length all_posts
    /\ (Analysis.analyzed popular <= Analysis.count popular)%nat
    /\ (Analysis.analyzed less_popular <= Analysis.count less_popular)%nat
    /\ Analysis.insights report <> EmptyString.
Proof.
  intros self wp wl ir now all_posts p t. cbn zeta.
  unfold Analysis.run_complete_analysis.
  assert (Hcat : fst (categorize_posts_by_popularity all_posts p)
                 ++ snd (categorize_posts_by_popularity all_posts p)
                 = Py.sorted_desc likes all_posts).
  { unfold categorize_posts_by_popularity, Py.slice_to, Py.slice_from. cbn [fst snd].
    apply firstn_skipn. }
  assert (Hlen : (List.length (fst (categorize_posts_by_popularity all_posts p))
                  + List.length (snd (categorize_posts_by_popularity all_posts p))
                  = List.length all_posts)%nat).
  { rewrite <- length_app, Hcat. symmetry.
    apply Permutation_length, sorted_desc_perm. }
  destruct (categorize_posts_by_popularity all_posts p) as [popular less]. cbn [fst snd] in *.
  destruct (batch_paths self wp popular) as [Hp1 Hp2].
  destruct (batch_paths self wl less) as [Hl1 Hl2].
  destruct (Batch.analyze_posts_batch self wp popular) as [pa log1].
  destruct (Batch.analyze_posts_batch self wl less) as [la log2].
  cbn [fst snd] in *.
  assert (Hins : fst (Analysis.generate_insights_report self ir) <> EmptyString).
  { unfold Analysis.generate_insights_report.
    destruct (Retry._retry_with_backoff _ _ ir) as [[[[|c s]|]|] acts]; discriminate. }
  destruct (Analysis.generate_insights_report self ir) as [insights acts].
  cbn [fst snd Analysis.popular_posts Analysis.less_popular_posts Analysis.posts
       Analysis.count Analysis.analyzed Analysis.metadata Analysis.total_posts
       Analysis.insights] in *.
  repeat split; try assumption.
  rewrite !analysed_paths_app, analysed_paths_acts, app_nil_r, Hp1, Hl1, <- map_app.
  now rewrite Hcat.
Qed.

(** ** Common features: the threshold and the categories *)

(** X7. Raising the threshold only removes features: the categories
    stay the same, and every entry reported at a threshold is reported,
    with the same frequency and percentage, at any lower one. *)
Theorem find_common_features_threshold_monotone :
  forall (analyzed_posts : list Batch.AnalyzedPost) (t1 t2 : Q),
    (t1 <= t2)%Q ->
    Py.keys (Common.find_common_features analyzed_posts t2)
    = Py.keys (Common.find_common_features analyzed_posts t1)
    /\ forall c entries2,
         In (c, entries2) (Common.find_common_features analyzed_posts t2) ->
         exists entries1,
           In (c, entries1) (Common.find_common_features analyzed_posts t1)
           /\ forall e, In e entries2 -> In e entries1.
Proof.
  intros posts t1 t2 Ht. destruct posts as [|p posts].
  - split; [reflexivity | intros c entries2 []].
  - split; [now rewrite !find_common_features_keys|].
    set (all := p :: posts). cbn [Common.find_common_features]. fold all.
    intros c entries2 Hin.
    apply in_map_iff in Hin as ([c' counts] & E & Hin). injection E as -> <-.
    exists (Common.common_in (List.length all) t1 counts). split.
    + apply in_map_iff. now exists (c, counts).
    + intros e He. apply common_in_In in He as (H1 & H2 & H3).
      apply common_in_In. repeat split; [exact H1 | | exact H3].
      eapply Qle_trans; eassumption.
Qed.

Lemma find_common_features_threshold_monotone_witness :
  Py.keys (Common.find_common_features
             [Batch.mkAnalyzed (mkPost "a.png" 1) [("lighting", ["soft"])]] (9 # 10))
  = Py.keys (Common.find_common_features
               [Batch.mkAnalyzed (mkPost "a.png" 1) [("lighting", ["soft"])]] (1 # 10)).
Proof.
  apply (find_common_features_threshold_monotone
           [Batch.mkAnalyzed (mkPost "a.png" 1) [("lighting", ["soft"])]]
           (1 # 10) (9 # 10)).
  unfold Qle. cbn. lia.
Defined.

Section Keys.
Context {V : Type}.

Local Abbreviation add_key := (fun (seen : list string) (k : string) =>
  if existsb (String.eqb k) seen then seen else seen ++ [k]).

Lemma dict_mem_keys (k : string) (d : Py.dict V) :
  Py.dict_mem k d = existsb (String.eqb k) (Py.keys d).
Proof.
  unfold Py.dict_mem, Py.keys. induction d as [|[k' v'] d IH]; [reflexivity|].
  cbn [Py.dict_get map fst existsb]. destruct (String.eqb k k'); [reflexivity | exact IH].
Qed.

Lemma dict_set_keys_list (k : string) (v : V) (d : Py.dict V) :
  Py.keys (Py.dict_set k v d) = add_key (Py.keys d) k.
Proof.
  unfold Py.keys. induction d as [|[k' v'] d IH]; [reflexivity|].
  cbn [Py.dict_set map fst existsb].
  destruct (String.eqb_spec k k') as [->|Hne]; [reflexivity|].
  cbn [map fst orb]. rewrite IH.
  destruct (existsb (String.eqb k) (map fst d)); reflexivity.
Qed.

End Keys.

Lemma count_category_keys_list (ff : Py.dict (Py.dict Z)) (entry : string * list string) :
  Py.keys (Common.count_category ff entry) =
  if existsb (String.eqb (fst entry)) (Py.keys ff) then Py.keys ff
  else Py.keys ff ++ [fst entry].
Proof.
  destruct entry as [c items]. cbn [fst Common.count_category].
  rewrite dict_set_keys_list, (dict_mem_keys c ff).
  destruct (existsb (String.eqb c) (Py.keys ff)) eqn:E; [now rewrite E|].
  rewrite dict_set_keys_list, E, existsb_app. cbn [existsb].
  now rewrite String.eqb_refl, orb_true_r.
Qed.

Lemma count_post_keys_list (p : Batch.AnalyzedPost) (ff : Py.dict (Py.dict Z)) :
  Py.keys (Common.count_post ff p) =
  fold_left (fun seen k => if existsb (String.eqb k) seen then seen else seen ++ [k])
            (Py.keys (Batch.features p)) (Py.keys ff).
Proof.
  unfold Common.count_post. revert ff.
  induction (Batch.features p) as [|entry feats IH]; intros ff; [reflexivity|].
  change (Py.keys (entry :: feats)) with (fst entry :: Py.keys feats).
  cbn [fold_left]. rewrite IH, count_category_keys_list. reflexivity.
Qed.

Lemma count_posts_keys_list (posts : list Batch.AnalyzedPost) :
  forall ff : Py.dict (Py.dict Z),
    Py.keys (fold_left Common.count_post posts ff) =
    fold_left (fun seen k => if existsb (String.eqb k) seen then seen else seen ++ [k])
              (Common.categories posts) (Py.keys ff).
Proof.
  unfold Common.categories.
  induction posts as [|p posts IH]; intros ff; [reflexivity|].
  cbn [fold_left flat_map]. rewrite fold_left_app, IH, count_post_keys_list.
  reflexivity.
Qed.

(** X8. The categories of the result are the categories of the analyzed
    posts, each once and in the order in which they first occur; the
    threshold has no part in it, so a category none of whose features is
    common is still listed, with an empty list. *)
Theorem find_common_features_categories :
  forall (analyzed_posts : list Batch.AnalyzedPost) (threshold : Q),
    Py.keys (Common.find_common_features analyzed_posts threshold)
    = Analysis.first_seen (Common.categories analyzed_posts).
Proof.
  intros posts threshold. destruct posts as [|p posts]; [reflexivity|].
  rewrite find_common_features_keys.
  unfold Common.feature_frequency, Analysis.first_seen.
  now rewrite count_posts_keys_list.
Qed.

(** ** The rate limiter over a sequence of calls *)

(** X9. On one [RateLimiter], whatever the pace of the callers, the
    instants at which successive calls of [wait_if_needed] return are at
    least [min_delay] apart. *)
Theorem rate_limiter_returns_spaced :
  forall (calls : list RateLimiter.timing) (clock m d : Z),
    Forall RateLimiter.timing_ok calls ->
    Sorted (fun r r' => r + d <= r')
           (map fst (RateLimiter.run calls clock (RateLimiter.init m d))).
Proof.
  intros calls clock m d Hcalls.
  exact (proj1 (run_min_delay calls Hcalls clock (RateLimiter.init m d))).
Qed.

Lemma rate_limiter_returns_spaced_witness :
  Sorted (fun r r' => r + 12 * RateLimiter.second <= r')
    (map fst (RateLimiter.run
                [RateLimiter.mkTiming 0 0 0; RateLimiter.mkTiming 5 0 3;
                 RateLimiter.mkTiming 0 2 0]
                0 (RateLimiter.init 5 (12 * RateLimiter.second)))).
Proof.
  apply rate_limiter_returns_spaced.
  repeat constructor; cbn; lia.
Defined.

Lemma run_states (calls : list RateLimiter.timing) :
  forall (clock : Z) (rl : RateLimiter.t),
    1 <= RateLimiter.max_requests rl ->
    List.length (RateLimiter.run calls clock rl) = List.length calls
    /\ Forall (fun s : Z * RateLimiter.t =>
                 Z.of_nat (List.length (RateLimiter.request_times (snd s)))
                 <= RateLimiter.max_requests rl
                 /\ Forall (fun t => fst s - t < RateLimiter.minute)
                           (RateLimiter.request_times (snd s))
                 /\ RateLimiter.last_request_time (snd s) = Some (fst s))
              (RateLimiter.run calls clock rl).
Proof.
  induction calls as [|c calls IH]; intros clock rl Hm; [split; constructor|].
  cbn [RateLimiter.run].
  destruct (wait_if_needed_returns c clock rl Hm) as (clock' & rl' & E). rewrite E.
  destruct (wait_if_needed_config _ _ _ _ _ E) as (Hmax & _ & Hlast).
  destruct (wait_if_needed_stored _ _ _ _ _ E Hm) as [Hlen Hfresh].
  destruct (IH clock' rl' ltac:(lia)) as [IH1 IH2]. rewrite Hmax in IH2.
  split; [cbn [List.length]; now rewrite IH1|].
  constructor; [cbn [fst snd]; auto | exact IH2].
Qed.

(** X10. On a limiter with room for at least one request every call
    returns, and when it returns the list the limiter keeps holds at most
    [max_requests] timestamps, all less than a minute old, the call's own
    being the last request time. *)
Theorem rate_limiter_list_within_limit :
  forall (calls : list RateLimiter.timing) (clock m d : Z),
    1 <= m ->
    let trace := RateLimiter.run calls clock (RateLimiter.init m d) in
    List.length trace = List.length calls
    /\ Forall (fun s : Z * RateLimiter.t =>
                 Z.of_nat (List.length (RateLimiter.request_times (snd s))) <= m
                 /\ Forall (fun t => fst s - t < RateLimiter.minute)
                           (RateLimiter.request_times (snd s))
                 /\ RateLimiter.last_request_time (snd s) = Some (fst s))
              trace.
Proof.
  intros calls clock m d Hm. cbn zeta.
  exact (run_states calls clock (RateLimiter.init m d) Hm).
Qed.

Lemma rate_limiter_list_within_limit_witness :
  List.length (RateLimiter.run (repeat (RateLimiter.mkTiming 0 0 0) 9) 0
                 (RateLimiter.init 2 0)) = 9%nat.
Proof.
  exact (proj1 (rate_limiter_list_within_limit
                  (repeat (RateLimiter.mkTiming 0 0 0) 9) 0 2 0 ltac:(lia))).
Defined.

(** X11. When [max_requests] minimum delays fill a minute
    ([max_requests * min_delay >= 60 s], as for the analyzer's own
    [RateLimiter(5, 12.0)]), no more than [max_requests] of the timestamps
    the limiter has recorded ever lie in the minute before a return. *)
Theorem rate_limiter_window_when_delays_fill_minute :
  forall (calls : list RateLimiter.timing) (clock m d : Z),
    Forall RateLimiter.timing_ok calls ->
    0 < d -> RateLimiter.minute <= m * d ->
    Forall (fun count => Z.of_nat count <= m)
      (RateLimiter.window_counts
         (map fst (RateLimiter.run calls clock (RateLimiter.init m d)))).
Proof. intros. now apply run_window_by_min_delay. Qed.

Lemma rate_limiter_window_when_delays_fill_minute_witness :
  Forall (fun count => Z.of_nat count <= 5)
    (RateLimiter.window_counts
       (map fst (RateLimiter.run (repeat (RateLimiter.mkTiming 0 0 0) 12) 0
                   (RateLimiter.init 5 (12 * RateLimiter.second))))).
Proof.
  apply rate_limiter_window_when_delays_fill_minute.
  - apply Forall_forall. intros c Hc. apply repeat_spec in Hc. subst c.
    repeat split; cbn; lia.
  - unfold RateLimiter.second. lia.
  - unfold RateLimiter.minute, RateLimiter.second. lia.
Defined.

(** X12. A limiter built with [max_requests_per_minute <= 0] is of no
    use: every call of [wait_if_needed] raises [IndexError] (the list it
    indexes is empty) and leaves the limiter as it was, so no call ever
    returns. *)
Theorem rate_limiter_without_room_raises :
  forall (calls : list RateLimiter.timing) (clock m d : Z),
    m <= 0 ->
    RateLimiter.run calls clock (RateLimiter.init m d) = []
    /\ forall c, RateLimiter.wait_if_needed c clock (RateLimiter.init m d)
                 = RateLimiter.IndexError (clock + RateLimiter.idle c)
                     (RateLimiter.init m d).
Proof.
  intros calls clock m d Hm.
  assert (Hcall : forall c clock0,
    RateLimiter.wait_if_needed c clock0 (RateLimiter.init m d)
    = RateLimiter.IndexError (clock0 + RateLimiter.idle c) (RateLimiter.init m d)).
  { intros c clock0. unfold RateLimiter.wait_if_needed, RateLimiter.after_min_delay.
    cbn [RateLimiter.init RateLimiter.last_request_time RateLimiter.request_times
         RateLimiter.max_requests RateLimiter.min_delay filter List.length Z.of_nat].
    now replace (m <=? 0) with true by (symmetry; apply Z.leb_le; lia). }
  split; [|intros c; apply Hcall].
  revert clock. induction calls as [|c calls IH]; intros clock; [reflexivity|].
  cbn [RateLimiter.run]. rewrite Hcall. apply IH.
Qed.

Lemma rate_limiter_without_room_raises_witness :
  RateLimiter.run (repeat (RateLimiter.mkTiming 1 0 0) 3) 0 (RateLimiter.init 0 5) = [].
Proof.
  exact (proj1 (rate_limiter_without_room_raises
                  (repeat (RateLimiter.mkTiming 1 0 0) 3) 0 0 5 ltac:(lia))).
Defined.

(** ** Prefixes and occurrences *)

Lemma strip_prefix_iff (p s r : string) :
  Str.strip_prefix p s = Some r <-> s = (p ++ r)%string.
Proof.
  revert s. induction p as [|a p IH]; intros s; cbn [Str.strip_prefix append].
  - split; [now intros [= ->] | now intros ->].
  - destruct s as [|c s]; [split; discriminate|].
    destruct (Ascii.eqb_spec a c) as [->|Hne].
    + rewrite IH. split; [now intros -> | now intros [= ->]].
    + split; [discriminate | intros [= E _]; congruence].
Qed.

Lemma prefix_iff (p s : string) :
  prefix p s = true <-> exists r, s = (p ++ r)%string.
Proof.
  revert s. induction p as [|a p IH]; intros s.
  - destruct s; cbn; split; eauto.
  - destruct s as [|c s]; cbn [prefix append].
    + split; [discriminate | intros (r & E); discriminate].
    + destruct (ascii_dec a c) as [->|Hne].
      * rewrite IH. split; intros (r & E); exists r; [now rewrite E | now injection E].
      * split; [discriminate | intros (r & [= E _]); congruence].
Qed.

Lemma contains_iff (p s : string) :
  Str.contains p s = true <-> exists pre post, s = (pre ++ p ++ post)%string.
Proof.
  induction s as [|c s IH]; rewrite contains_unfold, orb_true_iff, prefix_iff.
  - split.
    + intros [(r & E)|H]; [|discriminate]. now exists EmptyString, r.
    + intros (pre & post & E). left. destruct pre; [now exists post | discriminate].
  - rewrite IH. split.
    + intros [(r & E)|(pre & post & E)]; [now exists EmptyString, r|].
      exists (String c pre), post. cbn [append]. now rewrite E.
    + intros (pre & post & E). destruct pre as [|c' pre]; [left; now exists post|].
      right. injection E as _ E. now exists pre, post.
Qed.

Lemma has_char_app (x : ascii) (s t : string) :
  Text.has_char x (s ++ t) = Text.has_char x s || Text.has_char x t.
Proof.
  induction s as [|c s IH]; cbn [append Text.has_char]; [reflexivity|].
  now rewrite IH, orb_assoc.
Qed.

(** A text without a character of the needle does not contain the needle. *)
Lemma contains_needs_char (x : ascii) (p s : string) :
  Text.has_char x p = true -> Text.has_char x s = false -> Str.contains p s = false.
Proof.
  intros Hp Hs. destruct (Str.contains p s) eqn:E; [|reflexivity].
  apply contains_iff in E as (pre & post & ->).
  rewrite !has_char_app, Hp in Hs. now rewrite orb_true_r in Hs.
Qed.

Lemma prefix_before_char (x : ascii) (p s t : string) :
  Text.has_char x p = false -> prefix p (s ++ String x t) = prefix p s.
Proof.
  revert s. induction p as [|a p IH]; intros s Hp; [now destruct s|].
  cbn [Text.has_char] in Hp. apply orb_false_iff in Hp as [Ha Hp].
  destruct s as [|c s]; cbn [append prefix].
  - destruct (ascii_dec a x) as [->|_]; [now rewrite Ascii.eqb_refl in Ha | reflexivity].
  - destruct (ascii_dec a c); [now apply IH | reflexivity].
Qed.

(** A needle without the character [x] does not occur across an [x]. *)
Lemma contains_across_char (x : ascii) (p s t : string) :
  p <> EmptyString -> Text.has_char x p = false ->
  Str.contains p s = false -> Str.contains p t = false ->
  Str.contains p (s ++ String x t) = false.
Proof.
  intros Hne Hp Hs Ht. induction s as [|c s IH].
  - cbn [append]. rewrite contains_unfold, Ht, orb_false_r.
    destruct p as [|a p]; [congruence|]. cbn [Text.has_char] in Hp.
    apply orb_false_iff in Hp as [Ha _]. cbn [prefix].
    destruct (ascii_dec a x) as [->|_]; [now rewrite Ascii.eqb_refl in Ha | reflexivity].
  - rewrite contains_unfold in Hs. apply orb_false_iff in Hs as [Hs1 Hs2].
    change (String c s ++ String x t)%string with (String c (s ++ String x t)).
    rewrite contains_unfold.
    change (String c (s ++ String x t)) with (String c s ++ String x t)%string at 1.
    rewrite prefix_before_char, Hs1 by exact Hp. now apply IH.
Qed.

(** ** Code blocks: what is extracted *)

Lemma until_fence_sound (s body : string) (n : nat) :
  CodeBlocks.until_fence s = Some (body, n) ->
  Str.contains CodeBlocks.fence body = false
  /\ exists rest, s = (body ++ CodeBlocks.fence ++ rest)%string.
Proof.
  revert body n. induction s as [|c s IH]; intros body n; cbn [CodeBlocks.until_fence].
  - cbn. discriminate.
  - destruct (Str.strip_prefix CodeBlocks.fence (String c s)) as [r|] eqn:E.
    + intros [= <- <-]. split; [reflexivity|].
      apply strip_prefix_iff in E. now exists r.
    + destruct (CodeBlocks.until_fence s) as [[body' n']|]; [|discriminate].
      intros [= <- <-]. destruct (IH body' n' eq_refl) as (Hno & rest & Hs).
      split; [|exists rest; cbn [append]; now rewrite Hs].
      rewrite contains_unfold, Hno, orb_false_r.
      destruct (prefix CodeBlocks.fence (String c body')) eqn:P; [|reflexivity].
      apply prefix_iff in P as (r & P).
      assert (Hs' : String c s = (CodeBlocks.fence ++ r ++ CodeBlocks.fence ++ rest)%string).
      { rewrite Hs. change (String c (body' ++ CodeBlocks.fence ++ rest))
          with (String c body' ++ CodeBlocks.fence ++ rest)%string.
        now rewrite P, string_app_assoc. }
      apply strip_prefix_iff in Hs'. congruence.
Qed.

Lemma until_fence_complete (s : string) :
  Str.contains CodeBlocks.fence s = true -> CodeBlocks.until_fence s <> None.
Proof.
  induction s as [|c s IH]; rewrite contains_unfold; intros H.
  - cbn in H. discriminate.
  - cbn [CodeBlocks.until_fence].
    destruct (Str.strip_prefix CodeBlocks.fence (String c s)) as [r|] eqn:E; [discriminate|].
    apply orb_true_iff in H as [H|H].
    + apply prefix_iff in H as (r & H). apply strip_prefix_iff in H. congruence.
    + specialize (IH H). destruct (CodeBlocks.until_fence s) as [[body n]|];
        [discriminate | congruence].
Qed.

Lemma match_block_sound (opening s group : string) (len : nat) :
  CodeBlocks.match_block opening s = Some (group, len) ->
  Str.contains CodeBlocks.fence group = false
  /\ exists rest, s = (opening ++ group ++ CodeBlocks.fence ++ rest)%string.
Proof.
  unfold CodeBlocks.match_block.
  destruct (Str.strip_prefix opening s) as [r|] eqn:E; [|discriminate].
  destruct (CodeBlocks.until_fence r) as [[body n]|] eqn:U; [|discriminate].
  intros [= <- <-]. apply strip_prefix_iff in E.
  destruct (until_fence_sound r body n U) as (Hno & rest & Hr).
  split; [exact Hno|]. exists rest. now rewrite E, Hr.
Qed.

Lemma match_block_complete (opening rest : string) :
  Str.contains CodeBlocks.fence rest = true ->
  CodeBlocks.match_block opening (opening ++ rest) <> None.
Proof.
  intros H. unfold CodeBlocks.match_block.
  rewrite (proj2 (strip_prefix_iff opening (opening ++ rest) rest) eq_refl).
  pose proof (until_fence_complete rest H).
  destruct (CodeBlocks.until_fence rest) as [[body n]|]; [discriminate | congruence].
Qed.

Lemma first_match_sound (openings : list string) (s group : string) (len : nat) :
  CodeBlocks.first_match openings s = Some (group, len) ->
  exists opening, In opening openings
                  /\ CodeBlocks.match_block opening s = Some (group, len).
Proof.
  induction openings as [|o os IH]; cbn [CodeBlocks.first_match]; [discriminate|].
  destruct (CodeBlocks.match_block o s) as [m|] eqn:E.
  - intros [= ->]. exists o. split; [now left | exact E].
  - intros H. destruct (IH H) as (o' & Hin & Ho'). exists o'. split; [now right | exact Ho'].
Qed.

Lemma first_match_complete (openings : list string) (s opening : string) :
  In opening openings -> CodeBlocks.match_block opening s <> None ->
  CodeBlocks.first_match openings s <> None.
Proof.
  induction openings as [|o os IH]; intros Hin Hm; [destruct Hin|].
  cbn [CodeBlocks.first_match]. destruct (CodeBlocks.match_block o s) eqn:E; [discriminate|].
  destruct Hin as [->|Hin]; [congruence | now apply IH].
Qed.

Lemma findall_In (match_at : string -> option (string * nat)) (s : string) :
  forall (skip : nat) (group : string),
    In group (CodeBlocks.findall_from match_at skip s) ->
    exists pre t len, s = (pre ++ t)%string /\ match_at t = Some (group, len).
Proof.
  induction s as [|c s IH]; intros skip group; destruct skip as [|k];
    cbn [CodeBlocks.findall_from].
  - destruct (match_at EmptyString) as [[g len]|] eqn:E; [|intros []].
    intros [<-|[]]. now exists EmptyString, EmptyString, len.
  - intros [].
  - assert (Hrest : forall k', In group (CodeBlocks.findall_from match_at k' s) ->
      exists pre t len, String c s = (pre ++ t)%string /\ match_at t = Some (group, len)).
    { intros k' H. destruct (IH k' group H) as (pre & t & len & -> & Ht).
      now exists (String c pre), t, len. }
    destruct (match_at (String c s)) as [[g len]|] eqn:E; [|apply Hrest].
    intros [<-|H]; [now exists EmptyString, (String c s), len | now apply (Hrest (len - 1)%nat)].
  - intros H. destruct (IH k group H) as (pre & t & len & -> & Ht).
    now exists (String c pre), t, len.
Qed.

Lemma join_without_fence (blocks : list string) :
  Forall (fun b => Str.contains CodeBlocks.fence b = false) blocks ->
  Str.contains CodeBlocks.fence
    (Str.join (CodeBlocks.nl ++ CodeBlocks.nl) blocks) = false.
Proof.
  unfold Str.join. induction 1 as [|b blocks Hb Hbs IH]; [reflexivity|].
  destruct blocks as [|b' blocks]; [exact Hb|].
  change (concat (CodeBlocks.nl ++ CodeBlocks.nl) (b :: b' :: blocks))
    with (b ++ String "010"%char
               (String "010"%char (concat (CodeBlocks.nl ++ CodeBlocks.nl) (b' :: blocks))))%string.
  apply contains_across_char; [discriminate | reflexivity | exact Hb |].
  apply (contains_across_char "010"%char CodeBlocks.fence EmptyString);
    [discriminate | reflexivity | reflexivity | exact IH].
Qed.

Lemma blocks_delimited (text block : string) :
  In block (CodeBlocks.findall CodeBlocks.match_tagged text
            ++ CodeBlocks.findall CodeBlocks.match_bare text) ->
  Str.contains CodeBlocks.fence block = false
  /\ exists pre opening post,
       In opening (map (fun tag => (CodeBlocks.fence ++ tag ++ CodeBlocks.nl)%string)
                     CodeBlocks.language_tags
                   ++ [(CodeBlocks.fence ++ CodeBlocks.nl)%string])
       /\ text = (pre ++ opening ++ block ++ CodeBlocks.fence ++ post)%string.
Proof.
  intros H. apply in_app_or in H as [H|H];
    apply findall_In in H as (pre & t & len & -> & Ht).
  - apply first_match_sound in Ht as (o & Ho & Hm).
    destruct (match_block_sound _ _ _ _ Hm) as (Hno & rest & ->).
    split; [exact Hno|]. exists pre, o, rest. split; [|reflexivity].
    apply in_or_app. now left.
  - destruct (match_block_sound _ _ _ _ Ht) as (Hno & rest & ->).
    split; [exact Hno|]. exists pre, (CodeBlocks.fence ++ CodeBlocks.nl)%string, rest.
    split; [|reflexivity]. apply in_or_app. right. now left.
Qed.

(** X13. [extract_code_from_response] finds nothing exactly when the
    text has no opening fence (a fence with one of the six language tags
    and a newline, or a bare fence and a newline) that is followed,
    anywhere after, by another fence.  Every block it extracts stands in
    the text between such an opening and a fence, and holds no fence
    itself. *)
Theorem extract_code_blocks_delimited :
  forall text : string,
    let openings :=
      map (fun tag => (CodeBlocks.fence ++ tag ++ CodeBlocks.nl)%string)
          CodeBlocks.language_tags
      ++ [(CodeBlocks.fence ++ CodeBlocks.nl)%string] in
    (CodeBlocks.extract_code_from_response (Some text) = None <->
     ~ exists pre opening rest,
         In opening openings
         /\ text = (pre ++ opening ++ rest)%string
         /\ Str.contains CodeBlocks.fence rest = true)
    /\ (forall block,
          In block (CodeBlocks.findall CodeBlocks.match_tagged text
                    ++ CodeBlocks.findall CodeBlocks.match_bare text) ->
          Str.contains CodeBlocks.fence block = false
          /\ exists pre opening post,
               In opening openings
               /\ text = (pre ++ opening ++ block ++ CodeBlocks.fence ++ post)%string).
Proof.
  intros text. cbn zeta. split; [|apply blocks_delimited].
  destruct (extract_code_from_response_spec text) as (_ & Hnone & _). cbn zeta in Hnone.
  rewrite Hnone. split.
  - intros Hno (pre & opening & rest & Hin & -> & Hrest).
    destruct Hno as [Hempty | [Htagged Hbare]].
    + apply in_app_or in Hin as [Hin|[<-|[]]]; [|destruct pre; discriminate].
      apply in_map_iff in Hin as (tag & <- & _). destruct pre; discriminate.
    + pose proof (match_block_complete opening rest Hrest) as Hm.
      apply in_app_or in Hin as [Hin|[<-|[]]].
      * apply (first_match_complete _ _ _ Hin Hm). apply (Htagged pre). reflexivity.
      * apply Hm. apply (Hbare pre). reflexivity.
  - intros Hno. right. split; intros pre t ->.
    + destruct (CodeBlocks.match_tagged t) as [[g len]|] eqn:E; [|reflexivity].
      exfalso. apply Hno. apply first_match_sound in E as (o & Ho & Hm).
      destruct (match_block_sound _ _ _ _ Hm) as (_ & rest & ->).
      exists pre, o, (g ++ CodeBlocks.fence ++ rest)%string.
      repeat split; [apply in_or_app; now left|].
      apply contains_iff. now exists g, rest.
    + destruct (CodeBlocks.match_bare t) as [[g len]|] eqn:E; [|reflexivity].
      exfalso. apply Hno.
      destruct (match_block_sound _ _ _ _ E) as (_ & rest & ->).
      exists pre, (CodeBlocks.fence ++ CodeBlocks.nl)%string,
             (g ++ CodeBlocks.fence ++ rest)%string.
      repeat split; [apply in_or_app; right; now left|].
      apply contains_iff. now exists g, rest.
Qed.

(** X14. Whatever the model and the file system do, [generate_design]
    either fails with status 500 or succeeds having written src/code.js
    once, with exactly the code it returns: code extracted from the
    model's answer, not empty and free of Markdown fences.  A failure
    leaves src/code.js untouched in every case but one: when code was
    extracted and the write failed after the file had been opened, the
    route answers 500 and the previous content of src/code.js is lost. *)
Theorem generate_design_outcomes :
  forall (model : Http.exn + option string)
         (write_error : option Http.write_failure) (user_prompt : string),
    let extracted := fun code =>
      code <> EmptyString
      /\ Str.contains "```" code = false
      /\ exists text, model = inr (Some text)
                      /\ CodeBlocks.extract_code_from_response (Some text) = Some code in
    match CodeBlocks.generate_design model write_error user_prompt with
    | (inl e, log) =>
        (exists detail, e = Http.HTTPException 500 detail)
        /\ (log = [] \/ log = [CodeBlocks.Truncate "src/code.js"])
        /\ (log = [CodeBlocks.Truncate "src/code.js"] <->
            (exists e', write_error = Some (Http.WriteFails e'))
            /\ exists code, extracted code)
    | (inr r, log) =>
        log = [CodeBlocks.WriteFile "src/code.js" (CodeBlocks.code r)]
        /\ extracted (CodeBlocks.code r)
        /\ CodeBlocks.prompt r = user_prompt
        /\ write_error = None
    end.
Proof.
  intros model write_error user_prompt. cbn zeta.
  unfold CodeBlocks.generate_design, CodeBlocks.generate_design_try.
  assert (Hclean : forall text code,
            CodeBlocks.extract_code_from_response (Some text) = Some code ->
            Str.contains "```" code = false).
  { intros text code. unfold CodeBlocks.extract_code_from_response.
    destruct (Str.is_empty text); [discriminate|].
    pose proof (blocks_delimited text) as Hb.
    destruct (CodeBlocks.findall CodeBlocks.match_tagged text
              ++ CodeBlocks.findall CodeBlocks.match_bare text) as [|b bs]; [discriminate|].
    intros [= <-]. apply (join_without_fence (b :: bs)), Forall_forall.
    intros block Hin. now apply Hb. }
  destruct model as [e|response_text].
  { split; [eauto|]. split; [now left|]. split; [discriminate|].
    intros (_ & code & _ & _ & text & E & _). discriminate E. }
  destruct (CodeBlocks.falsy response_text) eqn:F.
  { split; [eauto|]. split; [now left|]. split; [discriminate|].
    intros (_ & code & Hne & _ & text & [= ->] & E).
    cbn in F. unfold CodeBlocks.extract_code_from_response in E.
    rewrite F in E. discriminate E. }
  destruct response_text as [text|]; [|discriminate].
  destruct (CodeBlocks.extract_code_from_response (Some text)) as [[|c code]|] eqn:E.
  - split; [eauto|]. split; [now left|]. split; [discriminate|].
    intros (_ & code & Hne & _ & text' & [= <-] & E'). congruence.
  - pose proof (Hclean text _ E) as Hc.
    destruct write_error as [[e|e]|].
    + split; [eauto|]. split; [now left|]. split; [discriminate|].
      intros ((e' & H) & _). discriminate H.
    + split; [eauto|]. split; [now right|]. split; [|reflexivity].
      intros _. split; [now exists e|]. exists (String c code).
      split; [discriminate|]. split; [exact Hc|]. now exists text.
    + cbn [CodeBlocks.code CodeBlocks.prompt].
      split; [reflexivity|]. split; [|now split].
      split; [discriminate|]. split; [exact Hc|]. now exists text.
  - split; [eauto|]. split; [now left|]. split; [discriminate|].
    intros (_ & code & Hne & _ & text' & [= <-] & E'). congruence.
Qed.

Lemma generate_design_outcomes_witness :
  snd (CodeBlocks.generate_design
         (inr (Some ("```js" ++ CodeBlocks.nl ++ "start();```")%string))
         (Some (Http.WriteFails (Http.Error "[Errno 28] No space left on device")))
         "a circle")
  = [CodeBlocks.Truncate "src/code.js"].
Proof.
  pose proof (generate_design_outcomes
                (inr (Some ("```js" ++ CodeBlocks.nl ++ "start();```")%string))
                (Some (Http.WriteFails
                         (Http.Error "[Errno 28] No space left on device")))
                "a circle") as H.
  cbn zeta in H.
  destruct (CodeBlocks.generate_design _ _ _) as [[e|r] log]; cbn [snd].
  - destruct H as (_ & _ & H). apply H. split; [now eexists|].
    exists "start();". split; [discriminate|]. split; [reflexivity|].
    eexists. split; reflexivity.
  - destruct H as (_ & _ & _ & H). discriminate H.
Defined.

(** ** Globs *)

Lemma glob_star_unfold (p s : string) :
  Storage.glob_match (String "*" p) s =
  Storage.glob_match p s
  || match s with
     | EmptyString => false
     | String _ s' => Storage.glob_match (String "*" p) s'
     end.
Proof. destruct s; reflexivity. Qed.

Lemma glob_star (p s : string) :
  Storage.glob_match (String "*" p) s = true <->
  exists pre t, s = (pre ++ t)%string /\ Storage.glob_match p t = true.
Proof.
  induction s as [|c s IH]; rewrite glob_star_unfold, orb_true_iff.
  - split.
    + intros [H|H]; [|discriminate]. now exists EmptyString, EmptyString.
    + intros (pre & t & E & H). left. destruct pre; [|discriminate]. cbn in E. now subst t.
  - rewrite IH. split.
    + intros [H|(pre & t & -> & H)]; [now exists EmptyString, (String c s)|].
      now exists (String c pre), t.
    + intros (pre & t & E & H). destruct pre as [|c' pre].
      * left. cbn in E. now subst t.
      * right. injection E as _ ->. now exists pre, t.
Qed.

Lemma glob_literal (lit q s : string) :
  Text.has_char "*" lit = false ->
  Storage.glob_match (lit ++ q) s = true <->
  exists t, s = (lit ++ t)%string /\ Storage.glob_match q t = true.
Proof.
  revert s. induction lit as [|a lit IH]; intros s Hlit.
  - cbn [append]. split; [intros H; now exists s | now intros (t & -> & H)].
  - cbn [Text.has_char] in Hlit. apply orb_false_iff in Hlit as [Ha Hlit].
    cbn [append Storage.glob_match]. rewrite Ha.
    destruct s as [|c s]; [split; [discriminate | intros (t & E & _); discriminate]|].
    rewrite andb_true_iff, (IH s Hlit). split.
    + intros [E (t & -> & H)]. apply Ascii.eqb_eq in E as ->. now exists t.
    + intros (t & [= -> ->] & H). split; [apply Ascii.eqb_refl | now exists t].
Qed.

Lemma glob_empty (s : string) : Storage.glob_match EmptyString s = true <-> s = EmptyString.
Proof. destruct s; cbn; split; congruence. Qed.

Lemma glob_csv (s : string) :
  Storage.glob_match "*.csv" s = true <-> exists pre, s = (pre ++ ".csv")%string.
Proof.
  rewrite glob_star. split.
  - intros (pre & t & -> & H). exists pre.
    apply (glob_literal ".csv" EmptyString t eq_refl) in H as (t' & -> & H).
    apply glob_empty in H. now subst t'.
  - intros (pre & ->). exists pre, ".csv". split; reflexivity.
Qed.

Lemma string_app_nil_r (s : string) : (s ++ EmptyString)%string = s.
Proof. induction s as [|c s IH]; cbn [append]; [reflexivity | now rewrite IH]. Qed.

Lemma glob_guidelines (s : string) :
  Storage.glob_match "brand_guidelines*" s = true <->
  exists t, s = ("brand_guidelines" ++ t)%string.
Proof.
  rewrite (glob_literal "brand_guidelines" "*" s eq_refl). split.
  - intros (t & -> & _). now exists t.
  - intros (t & ->). exists t. split; [reflexivity|].
    apply glob_star. exists t, EmptyString. now rewrite string_app_nil_r.
Qed.

Lemma glob_guidelines_pdf (s : string) :
  Storage.glob_match "brand_guidelines_*.pdf" s = true <->
  exists mid, s = ("brand_guidelines_" ++ mid ++ ".pdf")%string.
Proof.
  rewrite (glob_literal "brand_guidelines_" "*.pdf" s eq_refl). split.
  - intros (t & -> & H). apply glob_star in H as (pre & t' & -> & H).
    apply (glob_literal ".pdf" EmptyString t' eq_refl) in H as (t'' & -> & H).
    apply glob_empty in H. subst t''. now exists pre.
  - intros (mid & ->). exists (mid ++ ".pdf")%string. split; [reflexivity|].
    apply glob_star. exists mid, ".pdf". split; reflexivity.
Qed.

Lemma string_app_inv_head (p a b : string) : (p ++ a = p ++ b)%string -> a = b.
Proof. induction p as [|c p IH]; cbn [append]; [auto | intros [= E]; auto]. Qed.

Lemma string_app_inv_tail (s t a b : string) :
  (s ++ a = t ++ b)%string -> String.length a = String.length b -> s = t /\ a = b.
Proof.
  revert t. induction s as [|c s IH]; intros t E Hlen.
  - destruct t as [|c' t]; [now split|]. cbn [append] in E.
    apply (f_equal String.length) in E. cbn [String.length] in E.
    rewrite string_length_app in E. lia.
  - destruct t as [|c' t]; cbn [append] in E.
    + apply (f_equal String.length) in E. cbn [String.length] in E.
      rewrite string_length_app in E. lia.
    + injection E as -> E. destruct (IH t E Hlen) as [-> ->]. now split.
Qed.

(** ** Uploads and the files found afterwards *)

Lemma newest_unique (files : list Storage.file) (f : Storage.file) :
  In f files ->
  (forall g, In g files -> g = f \/ Storage.st_mtime g < Storage.st_mtime f) ->
  Storage.newest files = Some f.
Proof.
  intros Hin Hall. pose proof (newest_spec files) as H.
  destruct (Storage.newest files) as [f'|]; [|subst files; destruct Hin].
  destruct H as [Hin' Hmax]. rewrite Forall_forall in Hmax.
  destruct (Hall f' Hin') as [->|Hlt]; [reflexivity|].
  specialize (Hmax f Hin). lia.
Qed.

Lemma filter_none {A : Type} (f : A -> bool) (l : list A) :
  (forall x, In x l -> f x = false) -> filter f l = [].
Proof.
  induction l as [|a l IH]; intros H; cbn [filter]; [reflexivity|].
  rewrite (H a (or_introl eq_refl)). apply IH. intros x Hx. apply H. now right.
Qed.

Lemma write_file_In (name : string) (mtime : Z) (dir : list Storage.file)
    (f : Storage.file) :
  In f (Uploads.write_file name mtime dir) ->
  f = Storage.mkFile name mtime \/ In f dir.
Proof.
  unfold Uploads.write_file.
  destruct (existsb _ dir).
  - intros H. apply in_map_iff in H as (g & <- & Hg).
    destruct (String.eqb (Storage.name g) name); [now left | now right].
  - intros H. apply in_app_or in H as [H|[<-|[]]]; [now right | now left].
Qed.

Lemma write_file_new (name : string) (mtime : Z) (dir : list Storage.file) :
  In (Storage.mkFile name mtime) (Uploads.write_file name mtime dir).
Proof.
  unfold Uploads.write_file.
  destruct (existsb _ dir) eqn:E.
  - apply existsb_exists in E as (g & Hg & Hn). apply in_map_iff.
    exists g. now rewrite Hn.
  - apply in_or_app. right. now left.
Qed.

Lemma write_file_keeps (name : string) (mtime : Z) (dir : list Storage.file)
    (f : Storage.file) :
  In f dir -> Storage.name f <> name -> In f (Uploads.write_file name mtime dir).
Proof.
  intros Hin Hne. unfold Uploads.write_file.
  destruct (existsb _ dir); [|apply in_or_app; now left].
  apply in_map_iff. exists f. split; [|exact Hin].
  apply String.eqb_neq in Hne. now rewrite Hne.
Qed.

(** After a write at a time later than every file of the directory that
    a pattern selects, the file written is the newest of those the
    pattern selects. *)
Lemma written_file_is_newest (pattern name : string) (now : Z)
    (dir listing : list Storage.file) :
  Storage.glob_match pattern name = true ->
  (forall g, In g dir -> Storage.glob_match pattern (Storage.name g) = true ->
             Storage.st_mtime g < now) ->
  Permutation listing (Uploads.write_file name now dir) ->
  Storage.newest (Storage.glob pattern listing) = Some (Storage.mkFile name now).
Proof.
  intros Hm Hold Hperm. apply newest_unique.
  - apply filter_In. split; [|exact Hm].
    eapply Permutation_in; [symmetry; exact Hperm | apply write_file_new].
  - intros g Hg. apply filter_In in Hg as [Hg Hgm].
    apply (Permutation_in _ Hperm) in Hg.
    apply write_file_In in Hg as [->|Hg]; [now left | right; now apply Hold].
Qed.

(** It stays so when a file that the pattern does not select is written
    afterwards. *)
Lemma written_file_stays_newest (pattern name other : string) (now later : Z)
    (dir listing : list Storage.file) :
  Storage.glob_match pattern name = true ->
  Storage.glob_match pattern other = false ->
  (forall g, In g dir -> Storage.glob_match pattern (Storage.name g) = true ->
             Storage.st_mtime g < now) ->
  Permutation listing
    (Uploads.write_file other later (Uploads.write_file name now dir)) ->
  Storage.newest (Storage.glob pattern listing) = Some (Storage.mkFile name now).
Proof.
  intros Hm Hother Hold Hperm. apply newest_unique.
  - apply filter_In. split; [|exact Hm].
    eapply Permutation_in; [symmetry; exact Hperm|].
    apply write_file_keeps; [apply write_file_new|].
    cbn [Storage.name]. intros ->. congruence.
  - intros g Hg. apply filter_In in Hg as [Hg Hgm].
    apply (Permutation_in _ Hperm) in Hg.
    apply write_file_In in Hg as [->|Hg]; [cbn [Storage.name] in Hgm; congruence|].
    apply write_file_In in Hg as [->|Hg]; [now left | right; now apply Hold].
Qed.

(** X15. [/brand-guidelines] refuses any content type outside its four
    with status 400 and stores nothing.  An accepted upload is saved as
    brand_guidelines_<timestamp><extension>, whatever the extension, and
    when it is later than the guidelines already in the uploads folder,
    a compliance check that follows, having saved its own PNG there,
    uses exactly this file, in whatever order the folder is listed. *)
Theorem uploaded_guidelines_are_used_by_compliance_check :
  forall (content_type : option string) (file_extension timestamp : string) (now : Z)
         (uploads_dir : list Storage.file),
    ((forall ct, content_type = Some ct -> ~ In ct Uploads.allowed_types) ->
     forall write_error,
       Uploads.upload_brand_guidelines content_type file_extension timestamp now
         write_error uploads_dir
       = (inl (Http.HTTPException 400 "File must be PDF, DOC, DOCX, or TXT"), uploads_dir))
    /\ ((exists ct, content_type = Some ct /\ In ct Uploads.allowed_types) ->
        (forall g, In g uploads_dir ->
           Storage.glob_match "brand_guidelines*" (Storage.name g) = true ->
           Storage.st_mtime g < now) ->
        let saved := Uploads.guidelines_filename timestamp file_extension in
        let after := Uploads.upload_brand_guidelines content_type file_extension
                       timestamp now None uploads_dir in
        fst after = inr saved
        /\ forall (check_timestamp : string) (later : Z) (listing : list Storage.file),
             Permutation listing
               (Uploads.write_file (Uploads.compliance_check_filename check_timestamp)
                  later (snd after)) ->
             Storage.compliance_check_guideline listing
             = Some (Storage.mkFile saved now)).
Proof.
  intros content_type ext ts now dir. split.
  - intros Hno write_error. unfold Uploads.upload_brand_guidelines.
    destruct content_type as [ct|]; [|reflexivity].
    destruct (existsb (String.eqb ct) Uploads.allowed_types) eqn:E; [|reflexivity].
    apply existsb_exists in E as (x & Hx & Heq). apply String.eqb_eq in Heq. subst x.
    now destruct (Hno ct eq_refl).
  - intros (ct & -> & Hct) Hold. cbn zeta. unfold Uploads.upload_brand_guidelines.
    replace (existsb (String.eqb ct) Uploads.allowed_types) with true
      by (symmetry; apply existsb_exists; exists ct; split;
          [exact Hct | apply String.eqb_refl]).
    cbn [negb fst snd]. split; [reflexivity|]. intros ts' later listing Hperm.
    unfold Storage.compliance_check_guideline.
    apply (written_file_stays_newest _ _ (Uploads.compliance_check_filename ts')
             now later dir); [| |exact Hold | exact Hperm].
    + apply glob_guidelines. unfold Uploads.guidelines_filename.
      exists ("_" ++ ts ++ ext)%string. reflexivity.
    + apply not_true_is_false. intros E. apply glob_guidelines in E as (t & E).
      discriminate E.
Qed.

Lemma uploaded_guidelines_are_used_by_compliance_check_witness :
  Storage.compliance_check_guideline
    [Storage.mkFile "brand_guidelines_20240101_090000.pdf" 100;
     Storage.mkFile "brand_guidelines_20240301_120000.docx" 200;
     Storage.mkFile "compliance_check_20240301_120500.png" 500]
  = Some (Storage.mkFile "brand_guidelines_20240301_120000.docx" 200).
Proof.
  destruct (uploaded_guidelines_are_used_by_compliance_check
              (Some "application/msword") ".docx" "20240301_120000" 200
              [Storage.mkFile "brand_guidelines_20240101_090000.pdf" 100]) as [_ H].
  destruct H as [_ H].
  - exists "application/msword". split; [reflexivity | right; now left].
  - intros g [<-|[]] _. cbn. lia.
  - apply (H "20240301_120500" 500). reflexivity.
Defined.

Lemma has_analysis_file (listing : list Storage.file) :
  existsb (fun f => String.eqb (Storage.name f) "analyze.json") listing = true <->
  exists f, In f listing /\ Storage.name f = "analyze.json".
Proof.
  rewrite existsb_exists. split; intros (f & Hin & H); exists f; (split; [exact Hin|]);
    now apply String.eqb_eq.
Qed.

(** X16. [generate_design_from_text] needs analyze.json first: without
    it the answer is the 404 for the analysis, and with one that cannot
    be read the 400 for it, whatever guidelines there are.  With it, and
    when it can be read, the generator looks for
    brand_guidelines_*.pdf, so of the guidelines a user uploads it sees
    those whose timestamp and extension end in ".pdf" and no others: an
    upload later than the PDFs already there is used if its extension is
    ".pdf", while after uploads of any other kind alone (a ".PDF", a
    ".txt", a ".docx") it answers 404 for the missing PDF, although the
    compliance check finds them. *)
Theorem uploaded_guidelines_and_the_image_generator :
  forall (Analysis : Type) (analysis : Http.exn + Analysis)
         (timestamp file_extension : string) (now : Z)
         (uploads_dir : list Storage.file),
    let saved := Uploads.guidelines_filename timestamp file_extension in
    let after := Uploads.write_file saved now uploads_dir in
    (Storage.glob_match "brand_guidelines_*.pdf" saved = true <->
     exists pre, (timestamp ++ file_extension = pre ++ ".pdf")%string)
    /\ ((forall f, In f uploads_dir -> Storage.name f <> "analyze.json") ->
        forall listing, Permutation listing after ->
          ImageGenerator.generate_design_from_text listing analysis
          = inl ImageGenerator.analysis_not_found)
    /\ (forall e,
          analysis = inl e ->
          (exists f, In f uploads_dir /\ Storage.name f = "analyze.json") ->
          forall listing, Permutation listing after ->
            ImageGenerator.generate_design_from_text listing analysis
            = inl (Http.HTTPException 400 ("Invalid JSON file: " ++ Http.str e)))
    /\ (forall analysis_data,
          analysis = inr analysis_data ->
          (exists f, In f uploads_dir /\ Storage.name f = "analyze.json") ->
          (file_extension = ".pdf" ->
           (forall g, In g uploads_dir ->
              Storage.glob_match "brand_guidelines_*.pdf" (Storage.name g) = true ->
              Storage.st_mtime g < now) ->
           forall listing, Permutation listing after ->
             ImageGenerator.generate_design_from_text listing analysis
             = inr (analysis_data, Storage.mkFile saved now))
          /\ ((forall pre, (timestamp ++ file_extension <> pre ++ ".pdf")%string) ->
              (forall g, In g uploads_dir ->
                 Storage.glob_match "brand_guidelines_*.pdf" (Storage.name g) = false) ->
              forall listing, Permutation listing after ->
                ImageGenerator.generate_design_from_text listing analysis
                = inl (Http.HTTPException 404
                         "No brand guidelines PDF found. Please upload brand guidelines first.")
                /\ Storage.compliance_check_guideline listing <> None)).
Proof.
  intros Analysis analysis ts ext now dir. cbn zeta.
  assert (Hiff : Storage.glob_match "brand_guidelines_*.pdf"
                   (Uploads.guidelines_filename ts ext) = true <->
                 exists pre, (ts ++ ext = pre ++ ".pdf")%string).
  { rewrite glob_guidelines_pdf. unfold Uploads.guidelines_filename. split.
    - intros (mid & E). exists mid.
      change ("brand_guidelines_" ++ ts ++ ext)%string
        with ("brand_guidelines_" ++ (ts ++ ext))%string in E.
      now apply string_app_inv_head in E.
    - intros (pre & E). exists pre. now rewrite <- E. }
  split; [exact Hiff|]. split.
  - intros Hno listing Hperm. unfold ImageGenerator.generate_design_from_text.
    destruct (existsb _ listing) eqn:E; [|reflexivity].
    apply has_analysis_file in E as (f & Hin & Hname).
    apply (Permutation_in _ Hperm) in Hin.
    apply write_file_In in Hin as [->|Hin]; [discriminate Hname|].
    now destruct (Hno f Hin).
  - assert (Hthere : (exists f, In f dir /\ Storage.name f = "analyze.json") ->
            forall listing,
              Permutation listing
                (Uploads.write_file (Uploads.guidelines_filename ts ext) now dir) ->
              existsb (fun f => String.eqb (Storage.name f) "analyze.json") listing = true).
    { intros (f & Hf & Hname) listing Hperm.
      apply has_analysis_file. exists f. split; [|exact Hname].
      eapply Permutation_in; [symmetry; exact Hperm|].
      apply write_file_keeps; [exact Hf|]. rewrite Hname. discriminate. }
    split.
    { intros e -> Hfile listing Hperm. unfold ImageGenerator.generate_design_from_text.
      now rewrite (Hthere Hfile listing Hperm). }
    intros analysis_data -> Hfile. specialize (Hthere Hfile).
    split.
    + intros -> Hold listing Hperm. unfold ImageGenerator.generate_design_from_text.
      rewrite (Hthere listing Hperm). cbn [negb].
      unfold Storage.generate_design_brand_pdf.
      rewrite (written_file_is_newest "brand_guidelines_*.pdf"
                 (Uploads.guidelines_filename ts ".pdf") now dir listing);
        [reflexivity | | exact Hold | exact Hperm].
      apply Hiff. now exists ts.
    + intros Hext Hnone listing Hperm. split.
      * unfold ImageGenerator.generate_design_from_text.
        rewrite (Hthere listing Hperm). cbn [negb].
        unfold Storage.generate_design_brand_pdf.
        replace (Storage.glob "brand_guidelines_*.pdf" listing) with (@nil Storage.file);
          [reflexivity|].
        symmetry. unfold Storage.glob.
        apply filter_none. intros g Hg. apply (Permutation_in _ Hperm) in Hg.
        apply write_file_In in Hg as [->|Hg]; [|now apply Hnone].
        cbn [Storage.name].
        apply not_true_is_false. intros E.
        apply Hiff in E as (pre & E). now destruct (Hext pre).
      * unfold Storage.compliance_check_guideline.
        pose proof (newest_spec (Storage.glob "brand_guidelines*" listing)) as Hn.
        destruct (Storage.newest (Storage.glob "brand_guidelines*" listing)); [discriminate|].
        assert (Hin : In (Storage.mkFile (Uploads.guidelines_filename ts ext) now)
                         (Storage.glob "brand_guidelines*" listing)).
        { apply filter_In. split.
          - eapply Permutation_in; [symmetry; exact Hperm | apply write_file_new].
          - apply glob_guidelines. exists ("_" ++ ts ++ ext)%string. reflexivity. }
        rewrite Hn in Hin. destruct Hin.
Qed.

Lemma uploaded_guidelines_and_the_image_generator_witness :
  ImageGenerator.generate_design_from_text
    [Storage.mkFile "analyze.json" 100;
     Storage.mkFile "brand_guidelines_20240301_120000.txt" 200]
    (inr tt)
  = inl (Http.HTTPException 404
           "No brand guidelines PDF found. Please upload brand guidelines first.")
  /\ Storage.compliance_check_guideline
       [Storage.mkFile "analyze.json" 100;
        Storage.mkFile "brand_guidelines_20240301_120000.txt" 200] <> None.
Proof.
  destruct (uploaded_guidelines_and_the_image_generator unit (inr tt)
              "20240301_120000" ".txt" 200 [Storage.mkFile "analyze.json" 100])
    as (Hiff & _ & _ & H).
  destruct (H tt eq_refl) as [_ H'].
  - exists (Storage.mkFile "analyze.json" 100). split; [now left | reflexivity].
  - apply H'.
    + intros pre E.
      assert (X : exists pre, ("20240301_120000" ++ ".txt" = pre ++ ".pdf")%string)
        by now exists pre.
      apply Hiff in X. vm_compute in X. discriminate X.
    + intros g [<-|[]]. reflexivity.
    + reflexivity.
Defined.

(** ** [/brand-image] and the CSV of [/api/analyze-past-posts] *)

Lemma lower_length (s : string) : String.length (Str.lower s) = String.length s.
Proof.
  unfold Str.lower. induction s as [|c s IH]; cbn [Str.map_chars String.length];
    [reflexivity | now rewrite IH].
Qed.

(** *** The suffix of a plain file name *)

Lemma split_without_separator (sep : ascii) (s : string) :
  Text.has_char sep s = false -> Pathlib.split sep s = [s].
Proof.
  induction s as [|c s IH]; cbn [Text.has_char Pathlib.split]; [reflexivity|].
  intros H. apply orb_false_iff in H as [Hc Hs].
  rewrite Hc, (IH Hs). reflexivity.
Qed.

Lemma name_of_plain (filename : string) :
  Pathlib.plain filename = true -> Pathlib.name filename = filename.
Proof.
  unfold Pathlib.plain, Pathlib.name, Pathlib.parts. intros H.
  apply andb_true_iff in H as [H _]. apply andb_true_iff in H as [H Hdot].
  apply andb_true_iff in H as [Hslash Hempty].
  apply negb_true_iff in Hslash.
  rewrite (split_without_separator _ _ Hslash). cbn [filter].
  rewrite Hempty, Hdot. reflexivity.
Qed.

Lemma from_last_dot_none (s : string) :
  Text.has_char "." s = false -> Pathlib.from_last_dot s = None.
Proof.
  induction s as [|c s IH]; cbn [Text.has_char Pathlib.from_last_dot]; [reflexivity|].
  intros H. apply orb_false_iff in H as [Hc Hs]. now rewrite (IH Hs), Hc.
Qed.

Lemma from_last_dot_app (stem rest : string) :
  Text.has_char "." rest = false ->
  Pathlib.from_last_dot (stem ++ String "." rest) = Some (String "." rest).
Proof.
  intros Hrest. induction stem as [|c stem IH]; cbn [append Pathlib.from_last_dot].
  - now rewrite (from_last_dot_none rest Hrest).
  - now rewrite IH.
Qed.

Lemma lower_char_dot (c : ascii) : Str.lower_char c = "."%char -> c = "."%char.
Proof.
  destruct c as [[] [] [] [] [] [] [] []]; vm_compute; intros H;
    try discriminate H; reflexivity.
Qed.

(** An extension that reads ".csv" in lower case is a dot followed by
    three letters. *)
Lemma csv_extension_shape (ext : string) :
  Str.lower ext = ".csv" ->
  exists rest, ext = String "." rest
               /\ Text.has_char "." rest = false
               /\ Text.has_char "/" ext = false
               /\ String.length ext = 4%nat.
Proof.
  destruct ext as [|a [|b [|c [|d [|e ext]]]]]; try discriminate.
  unfold Str.lower. cbn [Str.map_chars]. intros [= Ha Hb Hc Hd].
  assert (Hdot : forall x y, Str.lower_char x = y -> y <> "."%char ->
                             Ascii.eqb x "." = false).
  { intros x y Hx Hy. apply Ascii.eqb_neq. intros ->. now apply Hy. }
  assert (Hslash : forall x y, Str.lower_char x = y -> y <> "/"%char ->
                               Ascii.eqb x "/" = false).
  { intros x y Hx Hy. apply Ascii.eqb_neq. intros ->. now apply Hy. }
  apply lower_char_dot in Ha. subst a. exists (String b (String c (String d EmptyString))).
  split; [reflexivity|]. cbn [Text.has_char String.length].
  rewrite (Hdot b _ Hb), (Hdot c _ Hc), (Hdot d _ Hd) by discriminate.
  rewrite (Hslash b _ Hb), (Hslash c _ Hc), (Hslash d _ Hd) by discriminate.
  now repeat split.
Qed.

Lemma string_length_zero (s : string) : String.length s = 0%nat -> s = EmptyString.
Proof. destruct s; [reflexivity | discriminate]. Qed.

(** A name made of a stem without slash, which is not made of dots
    only, and of such an extension is an entry of the folder and has
    this extension for its suffix. *)
Lemma suffix_of_csv_name (stem ext : string) :
  Text.has_char "/" stem = false ->
  Text.all_chars (fun c => Ascii.eqb c ".") stem = false ->
  Str.lower ext = ".csv" ->
  Pathlib.plain (stem ++ ext) = true /\ Pathlib.suffix (stem ++ ext) = ext.
Proof.
  intros Hslash Hdots Hlow.
  destruct (csv_extension_shape ext Hlow) as (rest & -> & Hrest & Hs & Hlen).
  assert (Hstem : (1 <= String.length stem)%nat).
  { destruct stem; [discriminate Hdots | cbn; lia]. }
  assert (Hlong : (5 <= String.length (stem ++ String "." rest))%nat)
    by (rewrite string_length_app; lia).
  assert (Hplain : Pathlib.plain (stem ++ String "." rest) = true).
  { unfold Pathlib.plain. rewrite has_char_app, Hslash, Hs. cbn [orb negb andb].
    destruct (stem ++ String "." rest)%string as [|x [|y [|z t]]] eqn:E;
      cbn [String.length] in Hlong; try lia.
    cbn. now destruct (Ascii.eqb x "."), (Ascii.eqb y "."). }
  split; [exact Hplain|].
  unfold Pathlib.suffix. rewrite (name_of_plain _ Hplain), (from_last_dot_app _ _ Hrest).
  rewrite string_length_app.
  replace ((String.length (String "." rest)
            <? String.length stem + String.length (String "." rest))%nat) with true
    by (symmetry; apply Nat.ltb_lt; lia).
  replace ((1 <? String.length (String "." rest))%nat) with true
    by (symmetry; apply Nat.ltb_lt; lia).
  reflexivity.
Qed.

(** X17. [/brand-image] decides on the content type and on the suffix of
    the file's name.  It refuses with status 400, and stores nothing,
    when the content type says neither image nor csv and the suffix is
    not ".csv" in some letter case; a file named ".csv" has no suffix.
    It accepts, whatever the content type, a name such as posts.csv or
    POSTS.CSV (a stem without slash, not made of dots only, and an
    extension reading ".csv" in lower case) and saves it in the folder
    under this name.  The analysis of past posts looks for "*.csv": it
    reads the file just uploaded when the extension is ".csv" in lower
    case and the file is later than the CSVs already in the folder, and
    does not see it otherwise (".CSV", ".Csv"): with no other CSV in the
    folder it answers 404. *)
Theorem uploaded_csv_and_analyze_past_posts :
  forall (content_type : option string) (now : Z)
         (brand_images_dir : list Storage.file),
    (forall filename write_error,
       Uploads.holds content_type (prefix "image/") = false ->
       Uploads.holds content_type (fun ct => Str.contains "csv" (Str.lower ct)) = false ->
       Str.lower (Pathlib.suffix filename) <> ".csv" ->
       exists detail,
         Uploads.upload_brand_image content_type filename now write_error
           brand_images_dir
         = (inl (Http.HTTPException 400 detail), Some brand_images_dir))
    /\ Pathlib.suffix ".csv" = EmptyString
    /\ forall stem ext : string,
         Text.has_char "/" stem = false ->
         Text.all_chars (fun c => Ascii.eqb c ".") stem = false ->
         Str.lower ext = ".csv" ->
         let filename := (stem ++ ext)%string in
         let after := Uploads.write_file filename now brand_images_dir in
         Pathlib.suffix filename = ext
         /\ Uploads.upload_brand_image content_type filename now None brand_images_dir
            = (inr filename, Some after)
         /\ (ext = ".csv" ->
             (forall g, In g brand_images_dir ->
                Storage.glob_match "*.csv" (Storage.name g) = true ->
                Storage.st_mtime g < now) ->
             forall listing, Permutation listing after ->
               Storage.analyze_past_posts_csv (Some listing)
               = inr (Storage.mkFile filename now))
         /\ (ext <> ".csv" ->
             (forall g, In g brand_images_dir ->
                Storage.glob_match "*.csv" (Storage.name g) = false) ->
             forall listing, Permutation listing after ->
               Storage.analyze_past_posts_csv (Some listing)
               = inl (Http.HTTPException 404
                        "No CSV file found in uploads/brand_images. Please upload a CSV with 'image' and 'likes' columns.")).
Proof.
  intros content_type now dir. split; [|split; [reflexivity|]].
  - intros filename write_error Himage Hcsv Hext.
    unfold Uploads.upload_brand_image. cbv zeta. rewrite Himage, Hcsv.
    apply String.eqb_neq in Hext. rewrite Hext. cbn [orb negb andb].
    eexists. reflexivity.
  - intros stem ext Hslash Hdots Hlow. cbn zeta.
    destruct (suffix_of_csv_name stem ext Hslash Hdots Hlow) as [Hplain Hsuffix].
    split; [exact Hsuffix|]. split; [|split].
    + unfold Uploads.upload_brand_image. cbv zeta. rewrite Hsuffix, Hlow, Hplain.
      change (String.eqb ".csv" ".csv") with true.
      rewrite orb_true_l. cbn [negb]. now rewrite andb_false_r.
    + intros -> Hold listing Hperm. unfold Storage.analyze_past_posts_csv.
      rewrite (written_file_is_newest "*.csv" (stem ++ ".csv") now dir listing);
        [reflexivity | | exact Hold | exact Hperm].
      apply glob_csv. now exists stem.
    + intros Hne Hnone listing Hperm. unfold Storage.analyze_past_posts_csv.
      replace (Storage.glob "*.csv" listing) with (@nil Storage.file); [reflexivity|].
      symmetry. apply filter_none. intros g Hg. apply (Permutation_in _ Hperm) in Hg.
      apply write_file_In in Hg as [->|Hg]; [|now apply Hnone].
      cbn [Storage.name]. apply not_true_is_false. intros E.
      apply glob_csv in E as (pre & E).
      apply string_app_inv_tail in E as [_ E]; [now apply Hne|].
      now rewrite <- lower_length, Hlow.
Qed.

Lemma uploaded_csv_and_analyze_past_posts_witness :
  Uploads.upload_brand_image (Some "text/csv") "POSTS.CSV" 50 None []
  = (inr "POSTS.CSV", Some [Storage.mkFile "POSTS.CSV" 50])
  /\ Storage.analyze_past_posts_csv (Some [Storage.mkFile "POSTS.CSV" 50])
     = inl (Http.HTTPException 404
              "No CSV file found in uploads/brand_images. Please upload a CSV with 'image' and 'likes' columns.").
Proof.
  destruct (uploaded_csv_and_analyze_past_posts (Some "text/csv") 50 [])
    as (_ & _ & H).
  destruct (H "POSTS" ".CSV" eq_refl eq_refl eq_refl) as (_ & Hup & _ & Hmiss).
  split; [exact Hup|]. apply Hmiss.
  - discriminate.
  - intros g [].
  - reflexivity.
Defined.

(** A file named ".csv" sent without content type is refused, and one
    sent as "sub/posts.csv" is not an entry of the folder. *)
Example brand_image_names :
  fst (Uploads.upload_brand_image None ".csv" 50 None [])
  = inl (Http.HTTPException 400
           "File must be an image or CSV. Got content-type: None, extension: ")
  /\ Uploads.upload_brand_image None "sub/posts.csv" 50 None []
     = (inr "sub/posts.csv", None)
  /\ map (fun path => (Pathlib.name path, Pathlib.suffix path))
         ["posts.csv"; "POSTS.CSV"; ".csv"; "my.posts.csv"; "dir/x.Csv"; ".hidden.csv"]
     = [("posts.csv", ".csv"); ("POSTS.CSV", ".CSV"); (".csv", "");
        ("my.posts.csv", ".csv"); ("x.Csv", ".Csv"); (".hidden.csv", ".csv")].
Proof. repeat split. Qed.

(** ** [get_file_type] *)

Lemma contains_at_start (p t : string) : Str.contains p (p ++ t) = true.
Proof. apply contains_iff. now exists EmptyString, t. Qed.

Lemma stamp_has_no_other_char (x : ascii) (ts : string) :
  Text.all_chars Text.is_stamp_char ts = true ->
  Text.is_stamp_char x = false ->
  Text.has_char x ts = false.
Proof.
  intros Hts Hx. induction ts as [|c ts IH]; [reflexivity|].
  cbn [Text.all_chars Text.has_char] in *. apply andb_true_iff in Hts as [Hc Hts].
  rewrite (IH Hts), orb_false_r. apply Ascii.eqb_neq. intros ->. congruence.
Qed.

(** X18. The names the three upload routes give their files are
    classified as intended by [get_file_type], for a timestamp of digits
    and underscores: compliance_check_<t>.png is a "compliance_export",
    copyright_check_<t>.png a "copyright_check", and
    brand_guidelines_<t><ext> a "brand_guidelines" when the extension
    holds no letter m. *)
Theorem get_file_type_of_saved_files :
  forall timestamp : string,
    Text.all_chars Text.is_stamp_char timestamp = true ->
    Uploads.get_file_type (Uploads.compliance_check_filename timestamp)
    = "compliance_export"
    /\ Uploads.get_file_type (Uploads.copyright_check_filename timestamp)
       = "copyright_check"
    /\ forall file_extension,
         Text.has_char "m" file_extension = false ->
         Uploads.get_file_type (Uploads.guidelines_filename timestamp file_extension)
         = "brand_guidelines".
Proof.
  intros ts Hts.
  assert (Hm : Text.has_char "m" ts = false)
    by (apply stamp_has_no_other_char; [exact Hts | reflexivity]).
  assert (Hb : Text.has_char "b" ts = false)
    by (apply stamp_has_no_other_char; [exact Hts | reflexivity]).
  split; [|split].
  - unfold Uploads.get_file_type, Uploads.compliance_check_filename.
    change ("compliance_check_" ++ ts ++ ".png")%string
      with ("compliance_check" ++ ("_" ++ ts ++ ".png"))%string.
    now rewrite contains_at_start.
  - unfold Uploads.get_file_type, Uploads.copyright_check_filename.
    rewrite (contains_needs_char "m" "compliance_check");
      [|reflexivity | now rewrite !has_char_app, Hm].
    rewrite (contains_needs_char "b" "brand_image");
      [|reflexivity | now rewrite !has_char_app, Hb].
    rewrite (contains_needs_char "b" "brand_guidelines");
      [|reflexivity | now rewrite !has_char_app, Hb].
    change ("copyright_check_" ++ ts ++ ".png")%string
      with ("copyright_check" ++ ("_" ++ ts ++ ".png"))%string.
    now rewrite contains_at_start.
  - intros ext Hext. unfold Uploads.get_file_type, Uploads.guidelines_filename.
    rewrite (contains_needs_char "m" "compliance_check");
      [|reflexivity | now rewrite !has_char_app, Hm, Hext].
    rewrite (contains_needs_char "m" "brand_image");
      [|reflexivity | now rewrite !has_char_app, Hm, Hext].
    change ("brand_guidelines_" ++ ts ++ ext)%string
      with ("brand_guidelines" ++ ("_" ++ ts ++ ext))%string.
    now rewrite contains_at_start.
Qed.

Lemma get_file_type_of_saved_files_witness :
  Uploads.get_file_type "brand_guidelines_20240301_120000.docx" = "brand_guidelines".
Proof.
  destruct (get_file_type_of_saved_files "20240301_120000" eq_refl) as (_ & _ & H).
  exact (H ".docx" eq_refl).
Defined.

(** ** [check_copyright_sources] and the verdict of [/copyright-check] *)

Lemma scan_spec (image_results : list Copyright.SearchResult) (i : nat)
    (f : Copyright.Finding) :
  In f (Copyright.scan i image_results) <->
  exists k, nth_error image_results k = Some (Copyright.found f)
            /\ Copyright.position f = (i + k)%nat
            /\ Copyright.matched_site (Copyright.found f) = Some (Copyright.site f).
Proof.
  revert i. induction image_results as [|r rest IH]; intros i; cbn [Copyright.scan].
  - split; [intros [] | intros ([|k] & H & _); discriminate H].
  - assert (Hrest : In f (Copyright.scan (S i) rest) <->
                    exists k, nth_error (r :: rest) (S k) = Some (Copyright.found f)
                              /\ Copyright.position f = (i + S k)%nat
                              /\ Copyright.matched_site (Copyright.found f)
                                 = Some (Copyright.site f)).
    { rewrite IH. split; intros (k & H1 & H2 & H3); exists k;
        (split; [exact H1 | split; [lia | exact H3]]). }
    destruct (Copyright.matched_site r) as [s|] eqn:E.
    + cbn [In]. rewrite Hrest. split.
      * intros [<-|(k & H)]; [|now exists (S k)].
        exists 0%nat. cbn [nth_error Copyright.found Copyright.position Copyright.site].
        split; [reflexivity | split; [lia | exact E]].
      * intros ([|k] & H1 & H2 & H3); [left | right; now exists k].
        cbn [nth_error] in H1. injection H1 as H1. destruct f as [p s' r'].
        cbn [Copyright.found Copyright.position Copyright.site] in *. subst r'.
        rewrite E in H3. injection H3 as <-. f_equal. lia.
    + rewrite Hrest. split.
      * intros (k & H). now exists (S k).
      * intros ([|k] & H1 & H2 & H3); [|now exists k].
        cbn [nth_error] in H1. injection H1 as H1. rewrite <- H1, E in H3. discriminate H3.
Qed.

Lemma scan_positions (image_results : list Copyright.SearchResult) (i : nat) :
  StronglySorted lt (map Copyright.position (Copyright.scan i image_results))
  /\ Forall (fun p => (i <= p)%nat) (map Copyright.position (Copyright.scan i image_results))
  /\ (List.length (Copyright.scan i image_results) <= List.length image_results)%nat.
Proof.
  revert i. induction image_results as [|r rest IH]; intros i; cbn [Copyright.scan].
  - repeat split; constructor.
  - destruct (IH (S i)) as (Hs & Hf & Hl).
    assert (Hf' : Forall (fun p => (i < p)%nat)
                    (map Copyright.position (Copyright.scan (S i) rest)))
      by (eapply Forall_impl; [|exact Hf]; cbn; intros; lia).
    destruct (Copyright.matched_site r) as [s|];
      cbn [map Copyright.position List.length].
    + split; [now constructor|]. split; [|lia].
      constructor; [lia|]. eapply Forall_impl; [|exact Hf']. cbn. intros. lia.
    + split; [exact Hs|]. split; [|lia].
      eapply Forall_impl; [|exact Hf']. cbn. intros. lia.
Qed.

(** X19. What [check_copyright_sources] reports.  It returns nothing
    exactly when the search raised or answered with an error.  Otherwise
    it counts all results, passes on the first ten, and lists a finding
    for exactly those results in whose link or source, letter case
    apart, one of the stock sites occurs: with the 1-based position of
    the result, the first such site of [COPYRIGHT_SITES], and in the
    order of the results; so there are never more findings than
    results. *)
Theorem check_copyright_sources_spec :
  forall search : Http.exn + Copyright.answer,
    match Copyright.check_copyright_sources search with
    | None => forall image_results, search <> inr (Copyright.ImageResults image_results)
    | Some data =>
        exists image_results,
          search = inr (Copyright.ImageResults image_results)
          /\ Copyright.total_results data = List.length image_results
          /\ Copyright.all_results data = firstn 10 image_results
          /\ (forall f, In f (Copyright.copyright_results data) <->
                exists k, nth_error image_results k = Some (Copyright.found f)
                          /\ Copyright.position f = S k
                          /\ Copyright.matched_site (Copyright.found f)
                             = Some (Copyright.site f))
          /\ (forall r s, Copyright.matched_site r = Some s <->
                exists before after,
                  Copyright.COPYRIGHT_SITES = before ++ s :: after
                  /\ Copyright.site_occurs r s = true
                  /\ forall s', In s' before -> Copyright.site_occurs r s' = false)
          /\ StronglySorted lt (map Copyright.position (Copyright.copyright_results data))
          /\ (List.length (Copyright.copyright_results data)
              <= Copyright.total_results data)%nat
    end.
Proof.
  intros [e|[error|image_results]]; cbn [Copyright.check_copyright_sources];
    try (intros l; discriminate).
  assert (Hfind : forall (sites : list string) r s,
            find (Copyright.site_occurs r) sites = Some s <->
            exists before after,
              sites = before ++ s :: after
              /\ Copyright.site_occurs r s = true
              /\ forall s', In s' before -> Copyright.site_occurs r s' = false).
  { intros sites r s. induction sites as [|a sites IH]; cbn [find].
    - split; [discriminate | intros ([|b before] & after & E & _); discriminate E].
    - destruct (Copyright.site_occurs r a) eqn:Ea.
      + split.
        * intros [= <-]. exists [], sites. repeat split; [exact Ea | intros s' []].
        * intros ([|b before] & after & E & Hs & Hb); cbn [app] in E; injection E as -> E.
          -- reflexivity.
          -- rewrite (Hb b (or_introl eq_refl)) in Ea. discriminate Ea.
      + rewrite IH. split.
        * intros (before & after & -> & Hs & Hb). exists (a :: before), after.
          repeat split; [exact Hs|]. intros s' [<-|H]; [exact Ea | now apply Hb].
        * intros ([|b before] & after & E & Hs & Hb); cbn [app] in E; injection E as -> E.
          -- rewrite Hs in Ea. discriminate Ea.
          -- exists before, after. repeat split; [exact E | exact Hs|].
             intros s' H. apply Hb. now right. }
  assert (H : exists data,
            match image_results with
            | [] => Some (Copyright.mkData 0 [] [])
            | _ :: _ => Some (Copyright.mkData (List.length image_results)
                                (Copyright.scan 1 image_results) (firstn 10 image_results))
            end = Some data
            /\ data = Copyright.mkData (List.length image_results)
                        (Copyright.scan 1 image_results) (firstn 10 image_results)).
  { destruct image_results; eexists; split; reflexivity. }
  destruct H as (data & -> & ->). exists image_results.
  cbn [Copyright.total_results Copyright.all_results Copyright.copyright_results].
  split; [reflexivity|]. split; [reflexivity|]. split; [reflexivity|]. split.
  { intros f. apply scan_spec. }
  split; [intros r s; apply Hfind|].
  destruct (scan_positions image_results 1) as (Hs & _ & Hl). now split.
Qed.

Lemma contains_longer (a p s : string) :
  Str.contains (a ++ p) s = true -> Str.contains p s = true.
Proof.
  rewrite !contains_iff. intros (pre & post & ->).
  exists (pre ++ a)%string, post. now rewrite !string_app_assoc.
Qed.

(** The status read in the AI's analysis depends on three phrases only. *)
Lemma ai_status_of_says (ai_analysis : option string) :
  let says := fun verdict =>
    match ai_analysis with
    | Some text => Str.contains ("STATUS: " ++ verdict) (Str.upper text)
    | None => false
    end in
  Copyright.ai_status_of ai_analysis =
  if says "COPYRIGHTED" then "copyrighted"
  else if says "RISKY" then "risky"
  else if says "SAFE" then "safe"
  else "unknown".
Proof.
  cbn zeta. destruct ai_analysis as [[|c text]|]; try reflexivity.
  unfold Copyright.ai_status_of. cbv zeta.
  set (u := Str.upper (String c text)).
  assert (H : forall v, Str.contains ("COPYRIGHT STATUS: " ++ v) u
                        || Str.contains ("STATUS: " ++ v) u
                        = Str.contains ("STATUS: " ++ v) u).
  { intros v. destruct (Str.contains ("COPYRIGHT STATUS: " ++ v) u) eqn:E; [|reflexivity].
    symmetry. apply (contains_longer "COPYRIGHT " ("STATUS: " ++ v) u). exact E. }
  change (Str.contains "COPYRIGHT STATUS: COPYRIGHTED" u)
    with (Str.contains ("COPYRIGHT STATUS: " ++ "COPYRIGHTED") u).
  change (Str.contains "COPYRIGHT STATUS: RISKY" u)
    with (Str.contains ("COPYRIGHT STATUS: " ++ "RISKY") u).
  change (Str.contains "COPYRIGHT STATUS: SAFE" u)
    with (Str.contains ("COPYRIGHT STATUS: " ++ "SAFE") u).
  change (Str.contains "STATUS: COPYRIGHTED" u)
    with (Str.contains ("STATUS: " ++ "COPYRIGHTED") u).
  change (Str.contains "STATUS: RISKY" u) with (Str.contains ("STATUS: " ++ "RISKY") u).
  change (Str.contains "STATUS: SAFE" u) with (Str.contains ("STATUS: " ++ "SAFE") u).
  now rewrite !H.
Qed.

Lemma check_copyright_sources_count (search : Http.exn + Copyright.answer)
    (data : Copyright.CopyrightData) :
  Copyright.check_copyright_sources search = Some data ->
  (List.length (Copyright.copyright_results data) <= Copyright.total_results data)%nat.
Proof.
  destruct search as [e|[error|[|r rest]]]; cbn [Copyright.check_copyright_sources];
    intros [= <-]; cbn [Copyright.copyright_results Copyright.total_results];
    [apply Nat.le_refl|].
  apply (scan_positions (r :: rest) 1).
Qed.

(** X20. The verdict of [/copyright-check], from the number of findings
    and the AI's text.  It is "copyrighted" exactly when there are five
    findings or more or the text, in upper case, contains
    "STATUS: COPYRIGHTED"; "risky" when neither holds and there is a
    finding or the text contains "STATUS: RISKY"; otherwise "safe" when
    the search had results and "unknown" when it had none.  So the AI
    can raise the verdict, and its "STATUS: SAFE", or its silence,
    changes nothing. *)
Theorem copyright_verdict :
  forall (search : Http.exn + Copyright.answer) (data : Copyright.CopyrightData)
         (ai_analysis : option string),
    Copyright.check_copyright_sources search = Some data ->
    let n := List.length (Copyright.copyright_results data) in
    let total := Copyright.total_results data in
    let says := fun verdict =>
      match ai_analysis with
      | Some text => Str.contains ("STATUS: " ++ verdict) (Str.upper text)
      | None => false
      end in
    let status := Copyright.copyright_status data ai_analysis in
    (status = "copyrighted" <-> (5 <= n)%nat \/ says "COPYRIGHTED" = true)
    /\ (status = "risky" <->
        (n < 5)%nat /\ says "COPYRIGHTED" = false /\ ((0 < n)%nat \/ says "RISKY" = true))
    /\ (status = "safe" <->
        n = 0%nat /\ (0 < total)%nat /\ says "COPYRIGHTED" = false /\ says "RISKY" = false)
    /\ (status = "unknown" <->
        total = 0%nat /\ says "COPYRIGHTED" = false /\ says "RISKY" = false).
Proof.
  intros search data ai_analysis Hdata.
  pose proof (check_copyright_sources_count search data Hdata) as Hle.
  pose proof (ai_status_of_says ai_analysis) as Hai. cbn zeta in Hai |- *.
  unfold Copyright.copyright_status, Copyright.final_status. rewrite Hai.
  set (n := List.length (Copyright.copyright_results data)) in *.
  set (total := Copyright.total_results data) in *.
  set (c := match ai_analysis with
            | Some text => Str.contains ("STATUS: " ++ "COPYRIGHTED") (Str.upper text)
            | None => false end).
  set (r := match ai_analysis with
            | Some text => Str.contains ("STATUS: " ++ "RISKY") (Str.upper text)
            | None => false end).
  set (s := match ai_analysis with
            | Some text => Str.contains ("STATUS: " ++ "SAFE") (Str.upper text)
            | None => false end).
  clearbody c r s n total. clear Hai Hdata.
  destruct (Nat.leb_spec 5 n), (Nat.ltb_spec 0 n), (Nat.ltb_spec 0 total);
    destruct c, r, s; cbn;
    repeat split; intros;
    repeat match goal with
           | H : _ /\ _ |- _ => destruct H
           | H : _ \/ _ |- _ => destruct H
           end;
    try discriminate; try lia; try reflexivity;
    try (left; lia); try (right; reflexivity).
Qed.

Lemma copyright_verdict_witness :
  Copyright.copyright_status
    (Copyright.mkData 1 [] [Copyright.mkResult "https://example.org/a" "Example" "A"])
    (Some "Copyright status: COPYRIGHTED - do not use")
  = "copyrighted".
Proof.
  apply (copyright_verdict
           (inr (Copyright.ImageResults
                   [Copyright.mkResult "https://example.org/a" "Example" "A"]))
           _ (Some "Copyright status: COPYRIGHTED - do not use") eq_refl).
  right. reflexivity.
Defined.

(** ** [/auth/callback] and the token that [/post] reads *)






(** ** The design brief of the image generator *)

Lemma dict_get_Some_In {V : Type} (k : string) (v : V) (d : Py.dict V) :
  Py.dict_get k d = Some v -> In (k, v) d.
Proof.
  induction d as [|[k' v'] d IH]; cbn [Py.dict_get In]; [discriminate|].
  destruct (String.eqb_spec k k') as [<-|Hk]; [intros [= <-]; now left | auto].
Qed.

Lemma take_length (n : nat) (s : string) :
  String.length (Text.take n s) = Nat.min n (String.length s).
Proof.
  revert s. induction n as [|n IH]; intros [|c s]; cbn [Text.take String.length Nat.min];
    try reflexivity.
  now rewrite IH.
Qed.

Lemma take_prefix (n : nat) (s : string) : exists rest, s = (Text.take n s ++ rest)%string.
Proof.
  revert s. induction n as [|n IH]; intros [|c s]; cbn [Text.take append];
    try (now eexists).
  destruct (IH s) as (rest & E). exists rest. now rewrite <- E.
Qed.

Lemma sorted_features (count : string -> Z) (entries : list Common.CommonFeature) :
  (forall e, In e entries -> Common.frequency e = count (Common.feature e)) ->
  StronglySorted (fun a b => Common.frequency b <= Common.frequency a) entries ->
  StronglySorted (fun s t => count t <= count s) (map Common.feature entries).
Proof.
  intros Hfreq Hs. induction Hs as [|e entries Hs IH Hall]; cbn [map]; [constructor|].
  constructor.
  - apply IH. intros e' He'. apply Hfreq. now right.
  - apply Forall_forall. intros s Hin. apply in_map_iff in Hin as (e' & <- & He').
    rewrite Forall_forall in Hall. specialize (Hall e' He').
    rewrite <- (Hfreq e (or_introl eq_refl)), <- (Hfreq e' (or_intror He')). exact Hall.
Qed.

Lemma missing_category_has_no_feature (posts : list Batch.AnalyzedPost) (threshold : Q)
    (c s : string) :
  Py.dict_get c (Common.find_common_features posts threshold) = None ->
  Common.occurrences c s posts = 0.
Proof.
  destruct posts as [|p posts]; [reflexivity|]. intros E.
  destruct (feature_frequency_spec (p :: posts)) as (_ & _ & Hheld).
  rewrite <- Hheld. apply dict_get_None in E. rewrite find_common_features_keys in E.
  apply dict_get_None in E. unfold Common.item_of at 2. now rewrite E.
Qed.

(** X23. The design brief drawn from an analysis.  Under each of its
    nine categories the brief lists, once each and from the most to the
    least frequent, exactly the features that occur in the analysed
    posts under this category and whose share of the posts reaches the
    threshold of the analysis; a category that no post has gives the
    empty list.  The insights are passed on, and of the guidelines' text
    the first 3000 characters. *)
Theorem design_brief_of_an_analysis :
  forall (posts : list Batch.AnalyzedPost) (threshold : Q) (insights brand_text : string),
    let brief :=
      Brief.extract_design_requirements (Common.find_common_features posts threshold)
        insights brand_text in
    let count := fun c s => Common.occurrences c s posts in
    let total := inject_Z (Z.of_nat (List.length posts)) in
    (forall c features, In (c, features) (Brief.lists brief) ->
       NoDup features
       /\ (forall s, In s features <->
             0 < count c s /\ (threshold <= inject_Z (count c s) / total)%Q)
       /\ StronglySorted (fun s t => count c t <= count c s) features
       /\ (~ In c (Common.categories posts) -> features = []))
    /\ Brief.insights brief = insights
    /\ String.length (Brief.brand_guidelines brief)
       = Nat.min 3000 (String.length brand_text)
    /\ exists rest, brand_text = (Brief.brand_guidelines brief ++ rest)%string.
Proof.
  intros posts threshold insights brand_text. cbn zeta.
  set (popular := Common.find_common_features posts threshold).
  split; [|split; [reflexivity | split; [apply take_length | apply take_prefix]]].
  intros c features Hin.
  assert (E : features = Brief.features_of popular c).
  { unfold Brief.lists, Brief.extract_design_requirements in Hin.
    cbn [In Brief.visual_style Brief.color_palette Brief.composition
         Brief.subject_matter Brief.lighting Brief.photography_technique
         Brief.text_graphics Brief.emotion_mood Brief.brand_elements] in Hin.
    repeat (destruct Hin as [Hin|Hin];
            [injection Hin as <- <-; reflexivity|]).
    destruct Hin. }
  subst features. clear Hin. unfold Brief.features_of, Common.item_of.
  destruct (Py.dict_get c popular) as [entries|] eqn:E.
  - apply dict_get_Some_In in E.
    destruct (find_common_features_entries posts threshold c entries E)
      as (counts & -> & Hcnd & Hcounts).
    split; [now apply common_in_NoDup|]. split; [|split].
    + intros s. rewrite in_map_iff. split.
      * intros (e & <- & He). apply common_in_In in He as (He & Hle & _).
        apply Hcounts in He as [Eq Hpos]. rewrite <- Eq. now split.
      * intros [Hpos Hle].
        exists (Common.mkCommon s (Common.occurrences c s posts)
                  (Common.round1 (inject_Z (Common.occurrences c s posts)
                                  / inject_Z (Z.of_nat (List.length posts)) * 100)%Q)).
        split; [reflexivity|]. apply common_in_In.
        cbn [Common.feature Common.frequency Common.percentage].
        split; [now apply Hcounts|]. now split.
    + apply sorted_features; [|apply (sorted_desc_sorted Common.frequency)].
      intros e He. apply common_in_In in He as (He & _). now apply Hcounts in He.
    + intros Hno. exfalso. apply Hno.
      destruct posts as [|p posts]; [destruct E|].
      destruct (feature_frequency_spec (p :: posts)) as (_ & Hkeys & _).
      apply Hkeys. rewrite <- (find_common_features_keys p posts threshold).
      apply (in_map fst) in E. exact E.
  - cbn [map]. split; [constructor|]. split; [|split; [constructor | reflexivity]].
    intros s. rewrite (missing_category_has_no_feature posts threshold c s E).
    split; [intros [] | intros [H _]; lia].
Qed.

Lemma design_brief_of_an_analysis_witness :
  NoDup (Brief.lighting
           (Brief.extract_design_requirements
              (Common.find_common_features
                 [Batch.mkAnalyzed (mkPost "a.png" 10) [("lighting", ["Soft"; "warm"])];
                  Batch.mkAnalyzed (mkPost "b.png" 7) [("lighting", [" soft "])]]
                 (3 # 10))
              "Use soft light." "Brand colours: teal and white.")).
Proof.
  destruct (design_brief_of_an_analysis
              [Batch.mkAnalyzed (mkPost "a.png" 10) [("lighting", ["Soft"; "warm"])];
               Batch.mkAnalyzed (mkPost "b.png" 7) [("lighting", [" soft "])]]
              (3 # 10) "Use soft light." "Brand colours: teal and white.") as [H _].
  refine (proj1 (H "lighting" _ _)).
  unfold Brief.lists. cbn [In]. do 4 right. left. reflexivity.
Defined.

(** ** [/status] and [/post] *)

(** X24. [/status] and [/post] agree on what it is to have a token.
    [/status] answers that there is no access token, without a request,
    exactly when [/post] answers 401 without a request: when config.json
    is missing, has no "access_token", or has a falsy one.  In every
    other case [/status] makes the one request for the user's data and
    [/post] goes on to publish with the token. *)
Theorem status_and_post_agree :
  forall (config_file : option (Py.dict LinkedIn.json))
         (userinfo : Http.exn + Py.dict LinkedIn.json)
         (R Image : Type)
         (publish : LinkedIn.json -> string -> Image
                    -> (Http.exn + R) * list LinkedIn.effect)
         (text : string) (image : Image),
    (LinkedIn.truthy (LinkedIn.get_access_token config_file) = false /\
     Status.status config_file userinfo = (Status.NoToken, []) /\
     LinkedIn.post_linkedin publish config_file text image
     = (inl LinkedIn.not_authenticated, []))
    \/ (exists token,
          LinkedIn.get_access_token config_file = Some token /\
          LinkedIn.truthy (Some token) = true /\
          fst (Status.status config_file userinfo) <> Status.NoToken /\
          snd (Status.status config_file userinfo)
          = [LinkedIn.ApiCall Auth.userinfo_url] /\
          LinkedIn.post_linkedin publish config_file text image
          = publish token text image).
Proof.
  intros config_file userinfo R Image publish text image.
  unfold Status.status, LinkedIn.post_linkedin. cbv zeta.
  destruct (LinkedIn.get_access_token config_file) as [token|] eqn:E.
  - destruct (LinkedIn.truthy (Some token)) eqn:T; cbn [negb].
    + right. exists token. split; [reflexivity|]. split; [exact T|].
      destruct userinfo; cbn [fst snd]; repeat split; discriminate.
    + left. now repeat split.
  - left. now repeat split.
Qed.
